(** * sorm: a shallow embedding of the query builder and its execution pipeline

    The development follows the Go sources: the model registry
    (model/registry.go, kept in db.go), the expression algebra
    (expression.go, predicate.go, column.go, table.go), the SQL compiler
    (src/v1/builder.go), the dialects (src/v1/dialect.go), the statement
    builders (select.go, update.go, insert.go, delete.go, raw.go), the
    handler chain (core.go), the result of an execution (result.go) and
    the transaction helper (db.go).  Definitions come first, then the
    properties proved of them. *)

From stdpp Require Import gmap strings list.
From Stdlib Require Import ZArith Ascii String.

Local Open Scope string_scope.
Local Open Scope list_scope.
Set Warnings "-register-all".

(** ** Values, errors and results *)

(** A Go [any] that ends up as a bound argument. *)
Inductive any : Type :=
| ANil
| AInt (n : Z)
| AStr (s : string)
| ABool (b : bool)
| ASlice (xs : list any).

(** The errors of internal/errs, the error of delete.go, the errors a
    driver hands back, and run-time panics (index out of range, nil
    dereference, failed type assertion), which abort a call the same way
    and are carried up to the caller like an error. *)
Inductive error : Type :=
| ErrPointerOnly
| ErrNoRows
| ErrNoUpdatedColumns
| ErrInsertZeroRow
| ErrUnknownField (fd : string)
| ErrUnsupportedAssignableType
| ErrUnsupportedExpressionType
| ErrUnsupportedSelectable
| ErrInvalidTagContent (pair : string)
| ErrDeleterUnsupported
| ErrDriver (msg : string)
| Panic (msg : string).

Inductive result (A : Type) : Type :=
| OK (a : A)
| Err (e : error).
Arguments OK {A} a.
Arguments Err {A} e.

Definition rbind {A B : Type} (m : result A) (k : A -> result B) : result B :=
  match m with
  | OK a => k a
  | Err e => Err e
  end.

Notation "x <- m ;; k" := (rbind m (fun x => k))
  (at level 100, m at next level, right associativity).

(** ** Strings as the builders use them *)

(** Number of positional placeholders in a piece of SQL text. *)
Fixpoint placeholders (s : string) : nat :=
  match s with
  | EmptyString => 0
  | String c s' => (if Ascii.eqb c "?" then 1 else 0) + placeholders s'
  end.

(** [s[:len(s)-1]]; slicing the empty string panics in Go. *)
Fixpoint dropLast (s : string) : string :=
  match s with
  | EmptyString => EmptyString
  | String c EmptyString => EmptyString
  | String c s' => String c (dropLast s')
  end.

(** [strings.Split] with a one-byte separator. *)
Fixpoint Split (s : string) (sep : ascii) : list string :=
  match s with
  | EmptyString => [EmptyString]
  | String c s' =>
      if Ascii.eqb c sep then EmptyString :: Split s' sep
      else match Split s' sep with
           | h :: t => String c h :: t
           | [] => [String c EmptyString]
           end
  end.

(** ** Model registry (model/registry.go, model/model.go) *)

(** What reflection shows of a struct field: its name, the value of the
    [orm] key of its tag, its type and its offset. *)
Record StructField : Type := {
  sfName : string;
  sfTag : string;
  sfType : string;
  sfOffset : N
}.

Inductive Kind : Type := PtrToStruct | OtherKind.

(** What reflection shows of a value handed to the registry: the kind of
    its type, the name and fields of the struct it points to, and the
    result of its [TableName()] method when it implements [TableName]. *)
Record Entity : Type := {
  entKind : Kind;
  entName : string;
  entFields : list StructField;
  entTableName : option string
}.

Record Field : Type := {
  ColName : string;
  GoName : string;
  Type_ : string;
  Index : nat;
  Offset : N
}.

Record Model : Type := {
  TableName : string;
  Fields : list Field;
  FieldMap : gmap string Field;
  ColumnMap : gmap string Field
}.

Definition tagKeyColumn : string := "column".

(** A rune is a code point.  [unicode.IsUpper] and [unicode.ToLower] are
    given on the runes up to U+00FF, where package unicode decides by its
    Latin-1 table: the uppercase letters are A to Z, U+00C0 to U+00D6 and
    U+00D8 to U+00DE, and each maps to the rune 32 above it.  The tables
    beyond U+00FF are not modelled: the statements below are made for
    names whose runes lie in the modelled range. *)
Definition rune : Type := N.

Definition RuneError : rune := 65533%N.

Definition IsUpper (v : rune) : bool :=
  ((65 <=? v) && (v <=? 90) || (192 <=? v) && (v <=? 214)
   || (216 <=? v) && (v <=? 222))%N.

Definition ToLower (v : rune) : rune :=
  if IsUpper v then (v + 32)%N else v.

(** The conversion [byte(v)] keeps the low eight bits. *)
Definition byteOf (v : rune) : ascii := ascii_of_N (v mod 256).

Definition inRange (lo hi : N) (c : ascii) : bool :=
  ((lo <=? N_of_ascii c) && (N_of_ascii c <=? hi))%N.

(** The payload bits of a lead byte and of a continuation byte. *)
Definition leadBits (mask : N) (c : ascii) : N := N.land (N_of_ascii c) mask.
Definition contBits (c : ascii) : N := N.land (N_of_ascii c) 63.

(** The range of the second byte of a three-byte and of a four-byte
    sequence, which depends on the lead byte. *)
Definition second3 (c0 c1 : ascii) : bool :=
  if (N_of_ascii c0 =? 224)%N then inRange 160 191 c1
  else if (N_of_ascii c0 =? 237)%N then inRange 128 159 c1
  else inRange 128 191 c1.

Definition second4 (c0 c1 : ascii) : bool :=
  if (N_of_ascii c0 =? 240)%N then inRange 144 191 c1
  else if (N_of_ascii c0 =? 244)%N then inRange 128 143 c1
  else inRange 128 191 c1.

(** One turn of the loop of [underscoreName], for the rune [v] found at
    byte offset [i]; [rest] is what the later turns append. *)
Definition appendRune (i : nat) (v : rune) (rest : string) : string :=
  if IsUpper v then
    if negb (i =? 0)%nat
    then String "_" (String (byteOf (ToLower v)) rest)
    else String (byteOf (ToLower v)) rest
  else String (byteOf v) rest.

(** The loop [for i, v := range tableName] of [underscoreName], at byte
    offset [i]: the range clause decodes UTF-8, one rune per turn, and
    yields U+FFFD for a byte that starts no valid sequence, moving on by
    one byte. *)
Fixpoint underscoreFrom (i : nat) (s : string) {struct s} : string :=
  match s with
  | EmptyString => EmptyString
  | String c0 s1 =>
      let invalid := appendRune i RuneError (underscoreFrom (i + 1) s1) in
      if inRange 0 127 c0 then
        appendRune i (N_of_ascii c0) (underscoreFrom (i + 1) s1)
      else if inRange 194 223 c0 then
        match s1 with
        | String c1 s2 =>
            if inRange 128 191 c1 then
              appendRune i
                (N.lor (N.shiftl (leadBits 31 c0) 6) (contBits c1))
                (underscoreFrom (i + 2) s2)
            else invalid
        | _ => invalid
        end
      else if inRange 224 239 c0 then
        match s1 with
        | String c1 (String c2 s3) =>
            if second3 c0 c1 && inRange 128 191 c2 then
              appendRune i
                (N.lor (N.shiftl (leadBits 15 c0) 12)
                   (N.lor (N.shiftl (contBits c1) 6) (contBits c2)))
                (underscoreFrom (i + 3) s3)
            else invalid
        | _ => invalid
        end
      else if inRange 240 244 c0 then
        match s1 with
        | String c1 (String c2 (String c3 s4)) =>
            if second4 c0 c1 && inRange 128 191 c2 && inRange 128 191 c3 then
              appendRune i
                (N.lor (N.shiftl (leadBits 7 c0) 18)
                   (N.lor (N.shiftl (contBits c1) 12)
                      (N.lor (N.shiftl (contBits c2) 6) (contBits c3))))
                (underscoreFrom (i + 4) s4)
            else invalid
        | _ => invalid
        end
      else invalid
  end.

Definition underscoreName (tableName : string) : string :=
  underscoreFrom 0 tableName.

(** The loop of [parseTag] over the pairs of the tag. *)
Fixpoint parsePairs (pairs : list string) (res : gmap string string)
  : result (gmap string string) :=
  match pairs with
  | [] => OK res
  | kvPair :: rest =>
      match Split kvPair "=" with
      | [k; v] => parsePairs rest (<[k := v]> res)
      | _ => Err (ErrInvalidTagContent kvPair)
      end
  end.

Definition parseTag (ormTag : string) : result (gmap string string) :=
  if String.eqb ormTag "" then OK ∅
  else parsePairs (Split ormTag ",") ∅.

Definition columnOf (tags : gmap string string) (name : string) : string :=
  let colName := default "" (tags !! tagKeyColumn) in
  if String.eqb colName "" then underscoreName name else colName.

(** The field loop of [parseModel], at index [i], with the three
    containers built so far. *)
Fixpoint parseFields (i : nat) (fds : list StructField)
    (fields : list Field) (fieldMap colMap : gmap string Field)
  : result (list Field * gmap string Field * gmap string Field) :=
  match fds with
  | [] => OK (fields, fieldMap, colMap)
  | fdType :: rest =>
      tags <- parseTag (sfTag fdType) ;;
      let colName := columnOf tags (sfName fdType) in
      let f := {| ColName := colName; Type_ := sfType fdType;
                  GoName := sfName fdType; Offset := sfOffset fdType;
                  Index := i |} in
      parseFields (S i) rest (fields ++ [f])
        (<[sfName fdType := f]> fieldMap) (<[colName := f]> colMap)
  end.

Definition parseModel (val : Entity) : result Model :=
  match entKind val with
  | OtherKind => Err ErrPointerOnly
  | PtrToStruct =>
      parsed <- parseFields 0 (entFields val) [] ∅ ∅ ;;
      let '(fields, fieldMap, colMap) := parsed in
      let tableName := default "" (entTableName val) in
      let tableName :=
        if String.eqb tableName "" then underscoreName (entName val)
        else tableName in
      OK {| TableName := tableName; FieldMap := fieldMap;
            ColumnMap := colMap; Fields := fields |}
  end.

(** The registry memoizes models by type identity, here the type's name. *)
Record registry : Type := { models : gmap string Model }.

Definition Option : Type := Model -> result Model.

Fixpoint applyOpts (opts : list Option) (m : Model) : result Model :=
  match opts with
  | [] => OK m
  | opt :: rest => m' <- opt m ;; applyOpts rest m'
  end.

Definition Register (r : registry) (val : Entity) (opts : list Option)
  : result (Model * registry) :=
  m <- parseModel val ;;
  m <- applyOpts opts m ;;
  OK (m, {| models := <[entName val := m]> (models r) |}).

Definition Get (r : registry) (val : Entity) : result (Model * registry) :=
  match models r !! entName val with
  | Some m => OK (m, r)
  | None => Register r val []
  end.

(** ** Expression algebra (expression.go, predicate.go, column.go,
    table.go, aggregate.go) *)

Record Query : Type := { SQL : string; Args : list any }.

(** A [QueryBuilder] is an interface with the single method [Build]; a
    value of it is represented by what that call returns. *)
Record QueryBuilder : Type := { Build : result Query }.

Record Table : Type := { entity : Entity; t_alias : string }.

Record RawExpr : Type := { raw : string; r_args : list any }.

Record value : Type := { val : any }.

(** The operators of predicate.go. *)
Definition op : Type := string.
Definition opEQ : op := "=".
Definition opLT : op := "<".
Definition opGT : op := ">".
Definition opIN : op := "IN".
Definition opExist : op := "EXIST".
Definition opAND : op := "AND".
Definition opOR : op := "OR".
Definition opNOT : op := "NOT".
Definition opAdd : op := "+".
Definition opMulti : op := "*".

(** Modelled from the spec: the declaration of [Aggregate] is not part
    of the sources at hand; the specification gives an aggregate a
    function name, a target column and an alias, and [buildAggregate]
    reads [fn], [arg], [table] and [alias].  The other types are those of
    table.go, column.go, expression.go and predicate.go.
    Table references, selectables and expressions refer to one another:
    a column carries the table reference it belongs to, a join carries
    its ON predicates, a subquery its projected columns.  [TRNil] and
    [ENil] are the nil interface values; [TROther], [SelOther] and
    [EOther] stand for any dynamic type the type switches do not list.
    [MathExpr] and [Predicate] are defined types over [binaryExpr]: the
    constructors [EMath], [EPredicate] and [EBinary] record the dynamic
    type, the payload is the same struct. *)
Inductive TableReference : Type :=
| TRNil
| TRTable (t : Table)
| TRJoin (j : Join)
| TRSubquery (s : Subquery)
| TROther (alias : string)
with Join : Type :=
| mkJoin (left right : TableReference) (typ : string)
         (on : list binaryExpr) (using_ : list string)
with Subquery : Type :=
| mkSubquery (s : QueryBuilder) (columns : list Selectable)
             (alias : string) (table : TableReference)
with Selectable : Type :=
| SelColumn (c : Column)
| SelAggregate (a : Aggregate)
| SelRaw (r : RawExpr)
| SelOther (selectedAlias fieldName : string) (target : TableReference)
with Column : Type :=
| mkColumn (table : TableReference) (name : string) (alias : string)
with Aggregate : Type :=
| mkAggregate (fn arg : string) (table : TableReference) (alias : string)
with Expression : Type :=
| ENil
| EColumn (c : Column)
| EAggregate (a : Aggregate)
| EValue (v : value)
| ERaw (r : RawExpr)
| EMath (m : binaryExpr)
| EPredicate (p : binaryExpr)
| ESubqueryExpr (s : SubqueryExpr)
| ESubquery (s : Subquery)
| EBinary (b : binaryExpr)
| EOther
with binaryExpr : Type :=
| mkBinary (left : Expression) (o : op) (right : Expression)
with SubqueryExpr : Type :=
| mkSubqueryExpr (s : Subquery) (pred : string).

Definition MathExpr : Type := binaryExpr.
Definition Predicate : Type := binaryExpr.

Definition c_table (c : Column) : TableReference :=
  match c with mkColumn t _ _ => t end.
Definition c_name (c : Column) : string :=
  match c with mkColumn _ n _ => n end.
Definition c_alias (c : Column) : string :=
  match c with mkColumn _ _ a => a end.

Definition be_left (e : binaryExpr) : Expression :=
  match e with mkBinary l _ _ => l end.
Definition be_op (e : binaryExpr) : op :=
  match e with mkBinary _ o _ => o end.
Definition be_right (e : binaryExpr) : Expression :=
  match e with mkBinary _ _ r => r end.

Definition sq_alias (s : Subquery) : string :=
  match s with mkSubquery _ _ a _ => a end.

(** [tableAlias] of each implementation of [TableReference]. *)
Definition tableAlias (t : TableReference) : string :=
  match t with
  | TRNil => ""
  | TRTable t => t_alias t
  | TRJoin _ => ""
  | TRSubquery s => sq_alias s
  | TROther a => a
  end.

(** An argument of static type [any]: either a value that implements
    [Expression] or any other value. *)
Inductive dyn : Type :=
| DExpr (e : Expression)
| DVal (v : any).

Definition valueOf (v : any) : value := {| val := v |}.

Definition exprOf (e : dyn) : Expression :=
  match e with
  | DExpr exp => exp
  | DVal exp => EValue (valueOf exp)
  end.

(** *** column.go *)

Definition C (name : string) : Column := mkColumn TRNil name "".

Definition As (c : Column) (alias : string) : Column :=
  mkColumn TRNil (c_name c) alias.

Definition Add (c : Column) (delta : Z) : MathExpr :=
  mkBinary (EColumn c) opAdd (EValue {| val := AInt delta |}).

Definition Multi (c : Column) (delta : Z) : MathExpr :=
  mkBinary (EColumn c) opAdd (EValue {| val := AInt delta |}).

Definition EQ (c : Column) (arg : dyn) : Predicate :=
  mkBinary (EColumn c) opEQ (exprOf arg).

Definition LT (c : Column) (arg : dyn) : Predicate :=
  mkBinary (EColumn c) opLT (exprOf arg).

Definition GT (c : Column) (arg : dyn) : Predicate :=
  mkBinary (EColumn c) opGT (exprOf arg).

Definition In (c : Column) (vals : list any) : Predicate :=
  mkBinary (EColumn c) opIN (EValue (valueOf (ASlice vals))).

Definition InQuery (c : Column) (sub : Subquery) : Predicate :=
  mkBinary (EColumn c) opIN (ESubquery sub).

(** *** expression.go *)

Definition Raw (expr : string) (args : list any) : RawExpr :=
  {| raw := expr; r_args := args |}.

Definition AsPredicate (r : RawExpr) : Predicate :=
  mkBinary (ERaw r) "" ENil.

Definition MathAdd (m : MathExpr) (v : any) : MathExpr :=
  mkBinary (EMath m) opAdd (EValue (valueOf v)).

Definition MathMulti (m : MathExpr) (v : any) : MathExpr :=
  mkBinary (EMath m) opMulti (EValue (valueOf v)).

Definition Any (sub : Subquery) : SubqueryExpr := mkSubqueryExpr sub "ANY".
Definition All (sub : Subquery) : SubqueryExpr := mkSubqueryExpr sub "ALL".
Definition Some_ (sub : Subquery) : SubqueryExpr := mkSubqueryExpr sub "SOME".

(** *** predicate.go *)

Definition Exist (sub : Subquery) : Predicate :=
  mkBinary ENil opExist (ESubquery sub).

Definition Not (p : Predicate) : Predicate :=
  mkBinary ENil opNOT (EPredicate p).

Definition And (p r : Predicate) : Predicate :=
  mkBinary (EPredicate p) opAND (EPredicate r).

Definition Or (p right : Predicate) : Predicate :=
  mkBinary (EPredicate p) opOR (EPredicate right).

(** *** table.go *)

Definition TableOf (entity : Entity) : Table :=
  {| entity := entity; t_alias := "" |}.

Definition TableC (t : Table) (name : string) : Column :=
  mkColumn (TRTable t) name "".

Definition TableAs (t : Table) (alias : string) : Table :=
  {| entity := entity t; t_alias := alias |}.

Record JoinBuilder : Type := {
  jb_left : TableReference;
  jb_right : TableReference;
  jb_typ : string
}.

Definition TableJoin (t : Table) (target : TableReference) : JoinBuilder :=
  {| jb_left := TRTable t; jb_right := target; jb_typ := "JOIN" |}.

Definition JoinJoin (j : Join) (target : TableReference) : JoinBuilder :=
  {| jb_left := TRJoin j; jb_right := target; jb_typ := "JOIN" |}.

Definition On (j : JoinBuilder) (ps : list Predicate) : Join :=
  mkJoin (jb_left j) (jb_right j) (jb_typ j) ps [].

Definition Using (j : JoinBuilder) (cs : list string) : Join :=
  mkJoin (jb_left j) (jb_right j) (jb_typ j) [] cs.

Definition SubqueryC (s : Subquery) (name : string) : Column :=
  mkColumn (TRSubquery s) name "".

(** *** What a [Selectable] reports *)

(** Modelled from the spec: the methods [selectedAlias], [fieldName] and
    [target] of [Aggregate] are not part of the sources at hand; a
    selectable reports its optional alias, its field name and the table
    reference it belongs to, which for an aggregate are its alias, its
    target column and its table. *)
Definition selectedAlias (c : Selectable) : string :=
  match c with
  | SelColumn c => c_alias c
  | SelAggregate (mkAggregate _ _ _ a) => a
  | SelRaw _ => ""
  | SelOther a _ _ => a
  end.

Definition fieldName (c : Selectable) : string :=
  match c with
  | SelColumn c => c_name c
  | SelAggregate (mkAggregate _ arg _ _) => arg
  | SelRaw _ => ""
  | SelOther _ f _ => f
  end.

Definition target (c : Selectable) : TableReference :=
  match c with
  | SelColumn c => c_table c
  | SelAggregate (mkAggregate _ _ t _) => t
  | SelRaw _ => TRNil
  | SelOther _ _ t => t
  end.

(** ** The SQL compiler (src/v1/builder.go) *)

Inductive Dialect : Type := standardSQL | mysqlDialect | sqlite3Dialect.

Definition MySQL : Dialect := mysqlDialect.
Definition SQLite3 : Dialect := sqlite3Dialect.

Definition dialectQuoter (d : Dialect) : result ascii :=
  match d with
  | standardSQL => Err (Panic "implement me")
  | mysqlDialect => OK "`"%char
  | sqlite3Dialect => OK "`"%char
  end.

(** The builder: the registry of its [core], the text and the arguments
    accumulated so far, the dialect, the quote character and the model of
    the statement ([None] while the pointer is nil). *)
Record builder : Type := {
  r : registry;
  sb : string;
  args : list any;
  dialect : Dialect;
  quoter : ascii;
  model : option Model
}.

Definition WriteString (s : string) (b : builder) : builder :=
  {| r := r b; sb := sb b +:+ s; args := args b; dialect := dialect b;
     quoter := quoter b; model := model b |}.

Definition WriteByte (c : ascii) (b : builder) : builder :=
  WriteString (String c EmptyString) b.

Definition quote (name : string) (b : builder) : builder :=
  WriteByte (quoter b) (WriteString name (WriteByte (quoter b) b)).

Definition addArgs (xs : list any) (b : builder) : builder :=
  {| r := r b; sb := sb b; args := args b ++ xs; dialect := dialect b;
     quoter := quoter b; model := model b |}.

Definition buildRaw (x : RawExpr) (b : builder) : builder :=
  let b := WriteString (raw x) b in
  if negb (List.length (r_args x) =? 0)%nat then addArgs (r_args x) b else b.

(** The registry lookup of the builder.  A miss registers the model the
    lookup returns, so a later lookup of the same type returns it again:
    the cache is not threaded through the builder. *)
Definition getModel (reg : registry) (val : Entity) : result Model :=
  mr <- Get reg val ;; OK (fst mr).

Definition lookupField (m : Model) (fd : string) : result string :=
  match FieldMap m !! fd with
  | None => Err (ErrUnknownField fd)
  | Some fdMeta => OK (ColName fdMeta)
  end.

(** The [nil] case of [colName]: the field is looked up in the model of
    the statement. *)
Definition colNameNil (m : option Model) (fd : string) : result string :=
  match m with
  | None => Err (Panic "nil pointer dereference")
  | Some m => lookupField m fd
  end.

(** The body of [colName], over the two fields of the builder it reads:
    the registry [b.r] and the model [b.model].  On an error every branch
    returns the empty string, so the value the Join branch returns when
    the left lookup fails is the empty string; a panic of the left
    lookup is not an error value and goes through.  In the Subquery branch
    the call [b.colName(c.target(), fd)] is written out per kind of
    selectable, the target of a [RawExpr] being nil. *)
Fixpoint colNameIn (reg : registry) (m : option Model)
    (table : TableReference) (fd : string) {struct table} : result string :=
  match table with
  | TRNil => colNameNil m fd
  | TRTable tab =>
      meta <- getModel reg (entity tab) ;;
      lookupField meta fd
  | TRJoin (mkJoin left_ right_ _ _ _) =>
      match colNameIn reg m left_ fd with
      | Err (Panic msg) => Err (Panic msg)
      | Err _ => OK ""
      | OK _ => colNameIn reg m right_ fd
      end
  | TRSubquery (mkSubquery _ columns _ tbl) =>
      if (0 <? List.length columns)%nat then
        (fix loop (cs : list Selectable) : result string :=
           match cs with
           | [] => Err (ErrUnknownField fd)
           | c :: rest =>
               if String.eqb (selectedAlias c) fd then OK fd
               else if String.eqb (fieldName c) fd
                    then match c with
                         | SelColumn (mkColumn t _ _) => colNameIn reg m t fd
                         | SelAggregate (mkAggregate _ _ t _) =>
                             colNameIn reg m t fd
                         | SelRaw _ => colNameNil m fd
                         | SelOther _ _ t => colNameIn reg m t fd
                         end
                    else loop rest
           end) columns
      else colNameIn reg m tbl fd
  | TROther _ => Err ErrUnsupportedExpressionType
  end.

Definition colName (b : builder) (table : TableReference) (fd : string)
  : result string :=
  colNameIn (r b) (model b) table fd.

Definition buildColumn (table : TableReference) (fd : string) (b : builder)
  : result builder :=
  let alias := tableAlias table in
  let b := if negb (String.eqb alias "")
           then WriteByte "." (quote alias b) else b in
  colName <- colName b table fd ;;
  OK (quote colName b).

Definition buildAs (alias : string) (b : builder) : builder :=
  if negb (String.eqb alias "") then quote alias (WriteString " AS " b)
  else b.

Definition buildAggregate (a : Aggregate) (useAlias : bool) (b : builder)
  : result builder :=
  match a with
  | mkAggregate fn arg table alias =>
      let b := WriteByte "(" (WriteString fn b) in
      b <- buildColumn table arg b ;;
      let b := WriteByte ")" b in
      OK (if useAlias then buildAs alias b else b)
  end.

Definition buildSubquery (tab : Subquery) (useAlias : bool) (b : builder)
  : result builder :=
  match tab with
  | mkSubquery s _ alias _ =>
      q <- Build s ;;
      let b := WriteByte "(" b in
      if String.eqb (SQL q) "" then Err (Panic "slice bounds out of range")
      else
        let b := WriteString (dropLast (SQL q)) b in
        let b := if (0 <? List.length (Args q))%nat
                 then addArgs (Args q) b else b in
        let b := WriteByte " " (WriteByte ")" b) in
        OK (if useAlias then quote alias (WriteString " AS " b) else b)
  end.

(** [buildSubExpr], over the two functions it calls: the compiler below
    ties the knot. *)
Definition buildSubExprWith
    (buildExpression : Expression -> builder -> result builder)
    (buildBinaryExpr : binaryExpr -> builder -> result builder)
    (subExpr : Expression) (b : builder) : result builder :=
  match subExpr with
  | EMath sub =>
      b <- buildBinaryExpr sub (WriteByte "(" b) ;; OK (WriteByte ")" b)
  | EBinary sub =>
      b <- buildBinaryExpr sub (WriteByte "(" b) ;; OK (WriteByte ")" b)
  | EPredicate sub =>
      b <- buildBinaryExpr sub (WriteByte "(" b) ;; OK (WriteByte ")" b)
  | sub => buildExpression sub b
  end.

Definition isNil (e : Expression) : bool :=
  match e with ENil => true | _ => false end.

Fixpoint buildExpression (e : Expression) (b : builder) {struct e}
  : result builder :=
  match e with
  | ENil => OK b
  | EColumn exp => buildColumn (c_table exp) (c_name exp) b
  | EAggregate exp => buildAggregate exp false b
  | EValue exp => OK (addArgs [val exp] (WriteByte "?" b))
  | ERaw exp => OK (buildRaw exp b)
  | EMath exp => buildBinaryExpr exp b
  | EPredicate exp => buildBinaryExpr exp b
  | ESubqueryExpr (mkSubqueryExpr s pred) =>
      buildSubquery s false (WriteByte " " (WriteString pred b))
  | ESubquery exp => buildSubquery exp false b
  | EBinary exp => buildBinaryExpr exp b
  | EOther => Err ErrUnsupportedExpressionType
  end
with buildBinaryExpr (e : binaryExpr) (b : builder) {struct e}
  : result builder :=
  match e with
  | mkBinary left_ o right_ =>
      b <- buildSubExprWith buildExpression buildBinaryExpr left_ b ;;
      let b := if negb (String.eqb o "")
               then WriteString o (WriteByte " " b) else b in
      if negb (isNil right_)
      then buildSubExprWith buildExpression buildBinaryExpr right_
             (WriteByte " " b)
      else OK b
  end.

Definition buildSubExpr : Expression -> builder -> result builder :=
  buildSubExprWith buildExpression buildBinaryExpr.

(** The loop [for i, x := range xs { if i > 0 { WriteByte(',') }; body }]
    of the builders, at index [i]; an error of the body ends the call. *)
Fixpoint rangeComma {A : Type} (body : A -> builder -> result builder)
    (i : nat) (xs : list A) (b : builder) : result builder :=
  match xs with
  | [] => OK b
  | x :: rest =>
      let b := if (0 <? i)%nat then WriteByte "," b else b in
      b <- body x b ;;
      rangeComma body (S i) rest b
  end.

(** [buildPredicates]: the predicates are folded with [And], left to
    right, and the fold is compiled; [ps[0]] panics on an empty slice. *)
Definition buildPredicates (ps : list Predicate) (b : builder)
  : result builder :=
  match ps with
  | [] => Err (Panic "index out of range")
  | p0 :: rest => buildExpression (EPredicate (fold_left And rest p0)) b
  end.

(** ** Upsert and the dialects (insert.go, assignment.go,
    src/v1/dialect.go) *)

Record Assignment : Type := { column : string; a_val : Expression }.

Definition Assign (column : string) (v : dyn) : Assignment :=
  {| column := column; a_val := exprOf v |}.

(** The implementations of [Assignable]: [Column], [Assignment] and
    [RawExpr] have an [assign()] method; [AsgOther] is any other one. *)
Inductive Assignable : Type :=
| AsgColumn (c : Column)
| AsgAssignment (a : Assignment)
| AsgRaw (x : RawExpr)
| AsgOther.

Record Upsert : Type := {
  conflictColumns : list string;
  assigns : list Assignable
}.

(** The assignment loop of [mysqlDialect.buildUpsert], at index [idx]. *)
Fixpoint mysqlAssigns (idx : nat) (assigns : list Assignable) (b : builder)
  : result builder :=
  match assigns with
  | [] => OK b
  | a :: rest =>
      let b := if (0 <? idx)%nat then WriteByte "," b else b in
      match a with
      | AsgColumn assign =>
          colName <- colName b (c_table assign) (c_name assign) ;;
          let b := quote colName b in
          let b := WriteString "=VALUES(" b in
          let b := quote colName b in
          let b := WriteByte ")" b in
          mysqlAssigns (S idx) rest b
      | AsgAssignment assign =>
          b <- buildColumn TRNil (column assign) b ;;
          let b := WriteString "=" b in
          buildExpression (a_val assign) b
      | _ => Err ErrUnsupportedAssignableType
      end
  end.

(** The conflict-column loop of [sqlite3Dialect.buildUpsert]. *)
Definition conflictCols (cols : list string) (b : builder) : result builder :=
  rangeComma (fun col b => buildColumn TRNil col b) 0 cols b.

(** The assignment loop of [sqlite3Dialect.buildUpsert]. *)
Fixpoint sqliteAssigns (idx : nat) (assigns : list Assignable) (b : builder)
  : result builder :=
  match assigns with
  | [] => OK b
  | a :: rest =>
      let b := if (0 <? idx)%nat then WriteByte "," b else b in
      match a with
      | AsgColumn assign =>
          colName <- colName b (c_table assign) (c_name assign) ;;
          let b := quote colName b in
          let b := WriteString "=excluded." b in
          let b := quote colName b in
          sqliteAssigns (S idx) rest b
      | AsgAssignment assign =>
          b <- buildColumn TRNil (column assign) b ;;
          let b := WriteString "=" b in
          buildExpression (a_val assign) b
      | _ => Err ErrUnsupportedAssignableType
      end
  end.

Definition buildUpsert (d : Dialect) (b : builder) (odk : Upsert)
  : result builder :=
  match d with
  | standardSQL => Err (Panic "implement me")
  | mysqlDialect =>
      let b := WriteString " ON DUPLICATE KEY UPDATE " b in
      mysqlAssigns 0 (assigns odk) b
  | sqlite3Dialect =>
      let b := WriteString " ON CONFLICT" b in
      b <- (if (0 <? List.length (conflictColumns odk))%nat then
              b <- conflictCols (conflictColumns odk) (WriteByte "(" b) ;;
              OK (WriteByte ")" b)
            else OK b) ;;
      let b := WriteString " DO UPDATE SET " b in
      sqliteAssigns 0 (assigns odk) b
  end.

(** ** The DELETE builder (delete.go) *)

(** A [Deleter[T]]: its text, its predicates, its table, its arguments,
    and the name of the type [T] it is instantiated at. *)
Record Deleter : Type := {
  d_sb : string;
  d_where : list Predicate;
  d_table : string;
  d_args : list any;
  d_T : string
}.

Definition dWrite (s : string) (d : Deleter) : Deleter :=
  {| d_sb := d_sb d +:+ s; d_where := d_where d; d_table := d_table d;
     d_args := d_args d; d_T := d_T d |}.

Definition dAppendArg (v : any) (d : Deleter) : Deleter :=
  {| d_sb := d_sb d; d_where := d_where d; d_table := d_table d;
     d_args := d_args d ++ [v]; d_T := d_T d |}.

Fixpoint deleterBuildExpression (e : Expression) (d : Deleter) {struct e}
  : result Deleter :=
  match e with
  | ENil => OK d
  | EColumn exp => OK (dWrite "`" (dWrite (c_name exp) (dWrite "`" d)))
  | EValue exp => OK (dAppendArg (val exp) (dWrite "?" d))
  | EPredicate (mkBinary left_ o right_) =>
      d <- deleterBuildExpression left_ d ;;
      let d := dWrite " " (dWrite o (dWrite " " d)) in
      deleterBuildExpression right_ d
  | _ => Err ErrDeleterUnsupported
  end.

(** The WHERE loop of [Deleter.Build], at index [i]. *)
Fixpoint deleterWhere (i : nat) (ps : list Predicate) (d : Deleter)
  : result Deleter :=
  match ps with
  | [] => OK d
  | p :: rest =>
      let d := if (0 <? i)%nat then dWrite " AND " d else d in
      d <- deleterBuildExpression (EPredicate p) d ;;
      deleterWhere (S i) rest d
  end.

Definition DeleterBuild (d : Deleter) : result Query :=
  let d := dWrite "DELETE FROM " d in
  let d := if String.eqb (d_table d) ""
           then dWrite "`" (dWrite (d_T d) (dWrite "`" d))
           else dWrite (d_table d) d in
  d <- (if (0 <? List.length (d_where d))%nat
        then deleterWhere 0 (d_where d) (dWrite " WHERE " d)
        else OK d) ;;
  let d := dWrite ";" d in
  OK {| SQL := d_sb d; Args := d_args d |}.

Definition DeleterFrom (d : Deleter) (tbl : string) : Deleter :=
  {| d_sb := d_sb d; d_where := d_where d; d_table := tbl;
     d_args := d_args d; d_T := d_T d |}.

Definition DeleterWhere (d : Deleter) (ps : list Predicate) : Deleter :=
  {| d_sb := d_sb d; d_where := ps; d_table := d_table d;
     d_args := d_args d; d_T := d_T d |}.

Definition NewDeleter (T : string) : Deleter :=
  {| d_sb := ""; d_where := []; d_table := ""; d_args := []; d_T := T |}.

(** ** The statement builders (select.go, update.go, insert.go, raw.go) *)

Definition setModel (m : Model) (b : builder) : builder :=
  {| r := r b; sb := sb b; args := args b; dialect := dialect b;
     quoter := quoter b; model := Some m |}.

Definition setArgs (xs : list any) (b : builder) : builder :=
  {| r := r b; sb := sb b; args := xs; dialect := dialect b;
     quoter := quoter b; model := model b |}.

(** *** SELECT *)

(** A [Selector[T]]: its builder, what reflection shows of [new(T)], and
    the clauses set on it. *)
Record Selector : Type := {
  s_builder : builder;
  s_T : Entity;
  s_table : TableReference;
  s_where : list Predicate;
  s_having : list Predicate;
  s_columns : list Selectable;
  s_groupBy : list Column;
  s_offset : Z;
  s_limit : Z
}.

(** [Selector.buildColumn]. *)
Definition selectColumn (c : Column) (useAlias : bool) (b : builder)
  : result builder :=
  b <- buildColumn (c_table c) (c_name c) b ;;
  OK (if useAlias then buildAs (c_alias c) b else b).

(** The body of the loop of [Selector.buildColumns]. *)
Definition selectOne (c : Selectable) (b : builder) : result builder :=
  match c with
  | SelColumn v => selectColumn v true b
  | SelAggregate v => buildAggregate v true b
  | SelRaw v => OK (buildRaw v b)
  | SelOther _ _ _ => Err ErrUnsupportedSelectable
  end.

Definition buildColumns (columns : list Selectable) (b : builder)
  : result builder :=
  if (List.length columns =? 0)%nat then OK (WriteByte "*" b)
  else rangeComma selectOne 0 columns b.

(** The USING loop of [buildJoin]. *)
Definition usingColumns (cols : list string) (b : builder) : result builder :=
  rangeComma (fun col b => selectColumn (mkColumn TRNil col "") false b)
    0 cols b.

Fixpoint buildTable (table : TableReference) (b : builder) {struct table}
  : result builder :=
  match table with
  | TRNil =>
      match model b with
      | None => Err (Panic "nil pointer dereference")
      | Some m => OK (quote (TableName m) b)
      end
  | TRTable tab =>
      m <- getModel (r b) (entity tab) ;;
      let b := quote (TableName m) b in
      OK (if negb (String.eqb (t_alias tab) "")
          then quote (t_alias tab) (WriteString " AS " b) else b)
  | TRJoin tab => buildJoin tab b
  | TRSubquery tab => buildSubquery tab true b
  | TROther _ => Err ErrUnsupportedExpressionType
  end
with buildJoin (tab : Join) (b : builder) {struct tab} : result builder :=
  match tab with
  | mkJoin left_ right_ typ on using_ =>
      let b := WriteByte "(" b in
      b <- buildTable left_ b ;;
      let b := WriteString " " (WriteString typ (WriteString " " b)) in
      b <- buildTable right_ b ;;
      b <- (if (0 <? List.length using_)%nat then
              b <- usingColumns using_ (WriteString " USING (" b) ;;
              OK (WriteString ")" b)
            else OK b) ;;
      b <- (if (0 <? List.length on)%nat
            then buildPredicates on (WriteString " ON " b)
            else OK b) ;;
      OK (WriteByte ")" b)
  end.

(** The GROUP BY loop of [Selector.Build]. *)
Definition groupByColumns (cols : list Column) (b : builder) : result builder :=
  rangeComma (fun c b => selectColumn c false b) 0 cols b.

Definition SelectorBuild (s : Selector) : result Query :=
  m <- getModel (r (s_builder s)) (s_T s) ;;
  let b := setModel m (s_builder s) in
  let b := WriteString "SELECT " b in
  b <- buildColumns (s_columns s) b ;;
  let b := WriteString " FROM " b in
  b <- buildTable (s_table s) b ;;
  b <- (if (0 <? List.length (s_where s))%nat
        then buildPredicates (s_where s) (WriteString " WHERE " b)
        else OK b) ;;
  b <- (if (0 <? List.length (s_groupBy s))%nat
        then groupByColumns (s_groupBy s) (WriteString " GROUP BY " b)
        else OK b) ;;
  b <- (if (0 <? List.length (s_having s))%nat
        then buildPredicates (s_having s) (WriteString " HAVING " b)
        else OK b) ;;
  let b := if (0 <? s_limit s)%Z
           then addArgs [AInt (s_limit s)] (WriteString " LIMIT ?" b)
           else b in
  let b := if (0 <? s_offset s)%Z
           then addArgs [AInt (s_offset s)] (WriteString " OFFSET ?" b)
           else b in
  let b := WriteString ";" b in
  OK {| SQL := sb b; Args := args b |}.

(** *** UPDATE *)

(** An [Updater[T]]: its builder, what reflection shows of its value (or
    of [new(T)]), the assignments and predicates set on it, and
    [valCreator(u.val, model).Field], the field reader of the value; the
    package internal/valuer is not part of the sources at hand. *)
Record Updater : Type := {
  u_builder : builder;
  u_T : Entity;
  u_assigns : list Assignable;
  u_where : list Predicate;
  u_Field : Model -> string -> result any
}.

Definition buildAssignment (assign : Assignment) (b : builder)
  : result builder :=
  b <- buildColumn TRNil (column assign) b ;;
  buildExpression (a_val assign) (WriteByte "=" b).

(** The body of the SET loop of [Updater.Build]. *)
Definition updateOne (field : string -> result any) (a : Assignable)
    (b : builder) : result builder :=
  match a with
  | AsgColumn assign =>
      b <- buildColumn (c_table assign) (c_name assign) b ;;
      let b := WriteString "=?" b in
      arg <- field (c_name assign) ;;
      OK (addArgs [arg] b)
  | AsgAssignment assign => buildAssignment assign b
  | _ => Err ErrUnsupportedAssignableType
  end.

Definition updateAssigns (field : string -> result any)
    (assigns : list Assignable) (b : builder) : result builder :=
  rangeComma (updateOne field) 0 assigns b.

Definition UpdaterBuild (u : Updater) : result Query :=
  if (List.length (u_assigns u) =? 0)%nat then Err ErrNoUpdatedColumns
  else
    m <- getModel (r (u_builder u)) (u_T u) ;;
    let b := setModel m (u_builder u) in
    let b := WriteString " SET " (quote (TableName m) (WriteString "UPDATE " b)) in
    b <- updateAssigns (u_Field u m) (u_assigns u) b ;;
    b <- (if (0 <? List.length (u_where u))%nat
          then buildPredicates (u_where u) (WriteString " WHERE " b)
          else OK b) ;;
    let b := WriteByte ";" b in
    OK {| SQL := sb b; Args := args b |}.

(** *** INSERT *)

(** An [Inserter[T]]: its builder, what reflection shows of its values,
    the field reader [valCreator(val, m).Field] of each value, the
    columns and the upsert set on it. *)
Record Inserter : Type := {
  i_builder : builder;
  i_T : Entity;
  i_values : list (Model -> string -> result any);
  i_columns : list string;
  i_upsert : option Upsert
}.

(** The column loop that selects the fields to insert. *)
Fixpoint insertFields (m : Model) (columns : list string) (fields : list Field)
  : result (list Field) :=
  match columns with
  | [] => OK fields
  | c :: rest =>
      match FieldMap m !! c with
      | None => Err (ErrUnknownField c)
      | Some field => insertFields m rest (fields ++ [field])
      end
  end.

(** The loop that writes the column list. *)
Definition insertColumnNames (fields : list Field) (b : builder)
  : result builder :=
  rangeComma (fun fd b => OK (quote (ColName fd) b)) 0 fields b.

(** The loop over the fields of one row. *)
Definition insertRow (field : string -> result any) (fields : list Field)
    (b : builder) : result builder :=
  rangeComma
    (fun fd b =>
       let b := WriteByte "?" b in
       fdVal <- field (GoName fd) ;;
       OK (addArgs [fdVal] b))
    0 fields b.

(** The loop over the rows. *)
Definition insertRows (m : Model) (fields : list Field)
    (values : list (Model -> string -> result any)) (b : builder)
  : result builder :=
  rangeComma
    (fun v b =>
       let b := WriteByte "(" b in
       b <- insertRow (v m) fields b ;;
       OK (WriteByte ")" b))
    0 values b.

Definition InserterBuild (i : Inserter) : result Query :=
  if (List.length (i_values i) =? 0)%nat then Err ErrInsertZeroRow
  else
    m <- getModel (r (i_builder i)) (i_T i) ;;
    let b := setModel m (i_builder i) in
    let b := WriteString "(" (quote (TableName m) (WriteString "INSERT INTO " b)) in
    fields <- (if negb (List.length (i_columns i) =? 0)%nat
               then insertFields m (i_columns i) []
               else OK (Fields m)) ;;
    let b := setArgs [] b in
    b <- insertColumnNames fields b ;;
    let b := WriteString ") VALUES" b in
    b <- insertRows m fields (i_values i) b ;;
    b <- match i_upsert i with
         | Some odk => buildUpsert (dialect b) b odk
         | None => OK b
         end ;;
    let b := WriteString ";" b in
    OK {| SQL := sb b; Args := args b |}.

(** *** Raw queries *)

Record RawQuerier : Type := { rq_sql : string; rq_args : list any }.

Definition RawQuerierBuild (q : RawQuerier) : result Query :=
  OK {| SQL := rq_sql q; Args := rq_args q |}.

(** *** Every statement builder *)

Inductive Statement : Type :=
| SelectOf (s : Selector)
| UpdateOf (u : Updater)
| InsertOf (i : Inserter)
| DeleteOf (d : Deleter)
| RawOf (q : RawQuerier).

Definition BuildStatement (st : Statement) : result Query :=
  match st with
  | SelectOf s => SelectorBuild s
  | UpdateOf u => UpdaterBuild u
  | InsertOf i => InserterBuild i
  | DeleteOf d => DeleterBuild d
  | RawOf q => RawQuerierBuild q
  end.

(** ** The execution pipeline (core.go, result.go, types.go) *)

Record sqlResult : Type := { lastInsertId : Z; rowsAffected : Z }.

(** result.go: an error or a driver result. *)
Record Result : Type := { res_err : option error; res : option sqlResult }.

Section Pipeline.

(** [T] is the record type the call is instantiated at and [entT] what
    reflection shows of [new(T)]; [Row] is a row of the driver; [W] is
    whatever the handlers and the middleware act on besides their
    arguments (a log, a tracer, a clock). *)
Variables T Row W : Type.
Variable entT : Entity.

(** The cursor [*sql.Rows]: the rows [Next] yields before it returns
    false, and what [Err] reports afterwards. *)
Record Rows : Type := { rows : list Row; rowsErr : option error }.

Record session : Type := {
  queryContext : string -> list any -> result Rows;
  execContext : string -> list any -> option sqlResult * option error
}.

(** What [QueryResult.Result] holds: nothing, the record of [Get], the
    slice of [GetMulti], or the driver result of [Exec]. *)
Inductive payload : Type :=
| PNil
| POne (tp : T)
| PMany (results : list T)
| PExec (res : sqlResult).

Record QueryContext : Type := {
  qc_Type : string;
  Builder : QueryBuilder;
  qc_Model : option Model
}.

Record QueryResult : Type := { qr_Result : payload; qr_Err : option error }.

Definition HandleFunc : Type := QueryContext -> W -> QueryResult * W.
Definition Middleware : Type := HandleFunc -> HandleFunc.

(** [valCreator(tp, meta).SetColumns(rows)] on a fresh [tp]: the record
    after the call and the error of the call. *)
Record core : Type := {
  c_r : registry;
  c_dialect : Dialect;
  valCreator : Model -> Row -> T * option error;
  ms : list Middleware
}.

Definition failed (err : error) : QueryResult :=
  {| qr_Result := PNil; qr_Err := Some err |}.

Definition getHandler (sess : session) (c : core) (qc : QueryContext)
  : QueryResult :=
  match Build (Builder qc) with
  | Err err => failed err
  | OK q =>
      match queryContext sess (SQL q) (Args q) with
      | Err err => failed err
      | OK rs =>
          match rows rs with
          | [] => failed ErrNoRows
          | row :: _ =>
              match Get (c_r c) entT with
              | Err err => failed err
              | OK (meta, _) =>
                  let (tp, err) := valCreator c meta row in
                  {| qr_Result := POne tp; qr_Err := err |}
              end
          end
      end
  end.

(** The row loop of [getMultiHandler]: [inl] is an early return. *)
Fixpoint getMultiRows (c : core) (rs : list Row) (results : list T)
  : error + list T :=
  match rs with
  | [] => inr results
  | row :: rest =>
      match Get (c_r c) entT with
      | Err err => inl err
      | OK (meta, _) =>
          match valCreator c meta row with
          | (_, Some err) => inl err
          | (tp, None) => getMultiRows c rest (results ++ [tp])
          end
      end
  end.

Definition getMultiHandler (sess : session) (c : core) (qc : QueryContext)
  : QueryResult :=
  match Build (Builder qc) with
  | Err err => failed err
  | OK q =>
      match queryContext sess (SQL q) (Args q) with
      | Err err => failed err
      | OK rs =>
          match getMultiRows c (rows rs) [] with
          | inl err => failed err
          | inr results =>
              match rowsErr rs with
              | Some err => failed err
              | None => {| qr_Result := PMany results; qr_Err := None |}
              end
          end
      end
  end.

(** [for i := len(ms) - 1; i >= 0; i-- { handler = ms[i](handler) }],
    with [n] iterations left; [ms[i]] is in range throughout. *)
Fixpoint wrap (n : nat) (ms : list Middleware) (handler : HandleFunc)
  : HandleFunc :=
  match n with
  | O => handler
  | S i =>
      match ms !! i with
      | Some m => wrap i ms (m handler)
      | None => handler
      end
  end.

Definition get (c : core) (sess : session) (qc : QueryContext) (w : W)
  : QueryResult * W :=
  let handler : HandleFunc := fun qc w => (getHandler sess c qc, w) in
  let handler := wrap (List.length (ms c)) (ms c) handler in
  handler qc w.

Definition getMulti (c : core) (sess : session) (qc : QueryContext) (w : W)
  : QueryResult * W :=
  let handler : HandleFunc := fun qc w => (getMultiHandler sess c qc, w) in
  let handler := wrap (List.length (ms c)) (ms c) handler in
  handler qc w.

Definition execHandler (sess : session) (qc : QueryContext) : QueryResult :=
  match Build (Builder qc) with
  | Err err => failed err
  | OK q =>
      let (res, err) := execContext sess (SQL q) (Args q) in
      {| qr_Err := err;
         qr_Result := match res with Some x => PExec x | None => PNil end |}
  end.

(** The end of [exec]: the [Result] made of what the chain returned; the
    type assertion [qr.Result.(sql.Result)] panics when a middleware put
    something else there. *)
Definition execResult (qr : QueryResult) : result Result :=
  match qr_Result qr with
  | PNil => OK {| res_err := qr_Err qr; res := None |}
  | PExec x => OK {| res_err := qr_Err qr; res := Some x |}
  | _ => Err (Panic "interface conversion")
  end.

Definition exec (sess : session) (c : core) (qc : QueryContext) (w : W)
  : result Result * W :=
  let handler : HandleFunc := fun qc w => (execHandler sess qc, w) in
  let handler := wrap (List.length (ms c)) (ms c) handler in
  let (qr, w) := handler qc w in
  (execResult qr, w).

(** A middleware that acts on [W] before and after the call it wraps
    and hands the result through. *)
Definition around (before after : W -> W) : Middleware :=
  fun next qc w =>
    let (qr, w) := next qc (before w) in (qr, after w).

End Pipeline.

Arguments rows {Row} _.
Arguments rowsErr {Row} _.
Arguments queryContext {Row} _ _ _.
Arguments execContext {Row} _ _ _.
Arguments PNil {T}.
Arguments POne {T} tp.
Arguments PMany {T} results.
Arguments PExec {T} res.
Arguments qr_Result {T} _.
Arguments qr_Err {T} _.
Arguments c_r {T Row W} _.
Arguments c_dialect {T Row W} _.
Arguments valCreator {T Row W} _ _ _.
Arguments ms {T Row W} _.
Arguments failed {T} err.
Arguments getHandler {T Row W} entT sess c qc.
Arguments getMultiRows {T Row W} entT c rs results.
Arguments getMultiHandler {T Row W} entT sess c qc.
Arguments wrap {T W} n ms handler.
Arguments get {T Row W} entT c sess qc w.
Arguments getMulti {T Row W} entT c sess qc w.
Arguments execHandler {T Row} sess qc.
Arguments execResult {T} qr.
Arguments exec {T Row W} sess c qc w.
Arguments around {T W} before after.

(** ** A running example: the model of the README *)

Definition testModel : Entity :=
  {| entKind := PtrToStruct;
     entName := "TestModel";
     entFields :=
       [ {| sfName := "Id"; sfTag := ""; sfType := "int64"; sfOffset := 0 |};
         {| sfName := "FirstName"; sfTag := ""; sfType := "string";
            sfOffset := 8 |};
         {| sfName := "Age"; sfTag := ""; sfType := "int8"; sfOffset := 24 |};
         {| sfName := "LastName"; sfTag := ""; sfType := "string";
            sfOffset := 32 |} ];
     entTableName := None |}.

Definition emptyRegistry : registry := {| models := ∅ |}.


Definition noModel : Model :=
  {| TableName := ""; Fields := []; FieldMap := ∅; ColumnMap := ∅ |}.

(** The model [TestModel] registers as. *)
Definition testModelMeta : Model :=
  match parseModel testModel with
  | OK m => m
  | Err _ => noModel
  end.

(** The builder of a statement over [TestModel], as [Build] sets it up. *)
Definition testBuilder : builder :=
  {| r := emptyRegistry; sb := ""; args := []; dialect := MySQL;
     quoter := "`"; model := Some testModelMeta |}.

(** A builder as [NewSelector] and its siblings make it, once [Build] has
    resolved the model of the statement. *)
Definition newBuilder (reg : registry) (d : Dialect) (val : Entity)
  : result builder :=
  q <- dialectQuoter d ;;
  m <- getModel reg val ;;
  OK {| r := reg; sb := ""; args := []; dialect := d; quoter := q;
        model := Some m |}.

(** The text and the arguments an expression compiles to. *)
Definition compile (reg : registry) (d : Dialect) (val : Entity)
    (e : Expression) : result (string * list any) :=
  b <- newBuilder reg d val ;;
  b <- buildExpression e b ;;
  OK (sb b, args b).

Definition orderModel : Entity :=
  {| entKind := PtrToStruct;
     entName := "Order";
     entFields :=
       [ {| sfName := "Id"; sfTag := "column=order_id"; sfType := "int64";
            sfOffset := 0 |};
         {| sfName := "UserId"; sfTag := ""; sfType := "int64";
            sfOffset := 8 |} ];
     entTableName := Some "orders" |}.

(** ** Notions the statements below are phrased with *)

(** Appending a text and its arguments to a builder, and the builder
    with its output emptied. *)
Definition emit (t : string) (a : list any) (b : builder) : builder :=
  {| r := r b; sb := sb b +:+ t; args := args b ++ a; dialect := dialect b;
     quoter := quoter b; model := model b |}.

Definition reset (b : builder) : builder :=
  {| r := r b; sb := ""; args := []; dialect := dialect b;
     quoter := quoter b; model := model b |}.

(** The text [quote] writes. *)
Definition quoted (q : ascii) (name : string) : string :=
  String q (name +:+ String q "").

(** A step of the compiler is an emitter when running it on a builder
    amounts to running it on the emptied builder and appending what that
    wrote. *)
Definition emitter (f : builder -> result builder) : Prop :=
  forall b,
    f b = match f (reset b) with
          | OK p => OK (emit (sb p) (args p) b)
          | Err e => Err e
          end.

(** The binary struct behind an operand that is a MathExpr, a Predicate
    or a generic binary node. *)
Definition asBinary (e : Expression) : option binaryExpr :=
  match e with
  | EMath m => Some m
  | EPredicate p => Some p
  | EBinary x => Some x
  | _ => None
  end.

(** The text of a sub-operand: in parentheses when the operand is a
    binary node. *)
Definition parenthesized (e : Expression) (t : string) : string :=
  match asBinary e with
  | Some _ => "(" +:+ t +:+ ")"
  | None => t
  end.

(** Snake case as the specification words it: an uppercase letter is
    lower-cased, and preceded by an underscore unless it is the first
    character; any other character is kept.  The letters are given by
    their table, A to Z against a to z. *)
Fixpoint lowerIn (uppers lowers : string) (c : ascii) : option ascii :=
  match uppers, lowers with
  | String u uppers', String l lowers' =>
      if Ascii.eqb c u then Some l else lowerIn uppers' lowers' c
  | _, _ => None
  end.

Definition lowerLetter : ascii -> option ascii :=
  lowerIn "ABCDEFGHIJKLMNOPQRSTUVWXYZ" "abcdefghijklmnopqrstuvwxyz".

Definition snakeChar (first : bool) (c : ascii) : string :=
  match lowerLetter c with
  | Some l => if first then String l "" else String "_" (String l "")
  | None => String c ""
  end.

Fixpoint snakeRest (s : string) : string :=
  match s with
  | EmptyString => EmptyString
  | String c s' => snakeChar false c +:+ snakeRest s'
  end.

Definition snakeCase (s : string) : string :=
  match s with
  | EmptyString => EmptyString
  | String c s' => snakeChar true c +:+ snakeRest s'
  end.

(** A name of ASCII characters only: every byte is below 128. *)
Fixpoint isASCII (s : string) : bool :=
  match s with
  | EmptyString => true
  | String c s' => inRange 0 127 c && isASCII s'
  end.




(** The field a struct field is reflected into, at index [i]. *)
Definition fieldOf (i : nat) (sf : StructField) (tags : gmap string string)
  : Field :=
  {| ColName := columnOf tags (sfName sf); Type_ := sfType sf;
     GoName := sfName sf; Offset := sfOffset sf; Index := i |}.

(** A text without placeholders. *)
Definition clean (s : string) : bool := (placeholders s =? 0)%nat.

(** An expression is balanced for a builder when every piece of text the
    compiler copies into the statement carries as many placeholders as
    the arguments it brings along: none for an identifier, an operator, a
    function name or a subquery predicate, [len(args)] for a raw
    fragment and for the text of a subquery. *)
Definition balancedColumn (reg : registry) (m : option Model)
    (table : TableReference) (fd : string) : bool :=
  clean (tableAlias table)
  && match colNameIn reg m table fd with
     | OK n => clean n
     | Err _ => true
     end.

Definition balancedSubquery (s : Subquery) : bool :=
  match s with
  | mkSubquery qb _ _ _ =>
      match Build qb with
      | OK q => (placeholders (dropLast (SQL q)) =? List.length (Args q))%nat
      | Err _ => true
      end
  end.

Fixpoint balancedIn (reg : registry) (md : option Model) (e : Expression)
    {struct e} : bool :=
  match e with
  | ENil => true
  | EColumn (mkColumn t n _) => balancedColumn reg md t n
  | EAggregate (mkAggregate fn arg t _) =>
      clean fn && balancedColumn reg md t arg
  | EValue _ => true
  | ERaw x => (placeholders (raw x) =? List.length (r_args x))%nat
  | EMath m => balancedBinary reg md m
  | EPredicate m => balancedBinary reg md m
  | EBinary m => balancedBinary reg md m
  | ESubqueryExpr (mkSubqueryExpr s pred) => clean pred && balancedSubquery s
  | ESubquery s => balancedSubquery s
  | EOther => true
  end
with balancedBinary (reg : registry) (md : option Model) (m : binaryExpr)
    {struct m} : bool :=
  match m with
  | mkBinary left_ o right_ =>
      balancedIn reg md left_ && clean o && balancedIn reg md right_
  end.

Definition balanced (b : builder) (e : Expression) : bool :=
  balancedIn (r b) (model b) e.

(** *** Balanced statements *)

(** The column a field resolves to carries no placeholder. *)
Definition cleanColName (reg : registry) (md : option Model)
    (table : TableReference) (fd : string) : bool :=
  match colNameIn reg md table fd with
  | OK n => clean n
  | Err _ => true
  end.

Definition balancedPredicates (reg : registry) (md : option Model)
    (ps : list Predicate) : bool :=
  match ps with
  | [] => true
  | p0 :: rest => balancedIn reg md (EPredicate (fold_left And rest p0))
  end.

Definition balancedSelectable (reg : registry) (md : option Model)
    (c : Selectable) : bool :=
  match c with
  | SelColumn (mkColumn t n a) => balancedColumn reg md t n && clean a
  | SelAggregate (mkAggregate fn arg t a) =>
      clean fn && balancedColumn reg md t arg && clean a
  | SelRaw x => (placeholders (raw x) =? List.length (r_args x))%nat
  | SelOther _ _ _ => true
  end.

Fixpoint balancedTable (reg : registry) (md : option Model)
    (table : TableReference) {struct table} : bool :=
  match table with
  | TRNil =>
      match md with
      | Some m => clean (TableName m)
      | None => true
      end
  | TRTable tab =>
      clean (t_alias tab)
      && match getModel reg (entity tab) with
         | OK m => clean (TableName m)
         | Err _ => true
         end
  | TRJoin j => balancedJoin reg md j
  | TRSubquery s => balancedSubquery s && clean (sq_alias s)
  | TROther _ => true
  end
with balancedJoin (reg : registry) (md : option Model) (j : Join)
    {struct j} : bool :=
  match j with
  | mkJoin left_ right_ typ on using_ =>
      balancedTable reg md left_ && clean typ && balancedTable reg md right_
      && forallb (balancedColumn reg md TRNil) using_
      && balancedPredicates reg md on
  end.

Definition balancedSelector (s : Selector) : bool :=
  let reg := r (s_builder s) in
  match getModel reg (s_T s) with
  | Err _ => true
  | OK m =>
      let md := Some m in
      forallb (balancedSelectable reg md) (s_columns s)
      && balancedTable reg md (s_table s)
      && balancedPredicates reg md (s_where s)
      && forallb (fun c => balancedColumn reg md (c_table c) (c_name c))
           (s_groupBy s)
      && balancedPredicates reg md (s_having s)
  end.

Definition balancedAssignable (reg : registry) (md : option Model)
    (a : Assignable) : bool :=
  match a with
  | AsgColumn c => balancedColumn reg md (c_table c) (c_name c)
  | AsgAssignment x =>
      balancedColumn reg md TRNil (column x) && balancedIn reg md (a_val x)
  | _ => true
  end.

Definition balancedUpdater (u : Updater) : bool :=
  let reg := r (u_builder u) in
  match getModel reg (u_T u) with
  | Err _ => true
  | OK m =>
      clean (TableName m)
      && forallb (balancedAssignable reg (Some m)) (u_assigns u)
      && balancedPredicates reg (Some m) (u_where u)
  end.

(** In an upsert a self-reference writes the resolved column twice and
    no table alias. *)
Definition balancedUpsertAssign (reg : registry) (md : option Model)
    (a : Assignable) : bool :=
  match a with
  | AsgColumn c => cleanColName reg md (c_table c) (c_name c)
  | AsgAssignment x =>
      balancedColumn reg md TRNil (column x) && balancedIn reg md (a_val x)
  | _ => true
  end.

Definition balancedUpsert (reg : registry) (md : option Model) (odk : Upsert)
  : bool :=
  forallb (balancedColumn reg md TRNil) (conflictColumns odk)
  && forallb (balancedUpsertAssign reg md) (assigns odk).

Definition balancedInserter (i : Inserter) : bool :=
  let reg := r (i_builder i) in
  match getModel reg (i_T i) with
  | Err _ => true
  | OK m =>
      clean (TableName m)
      && match (if negb (List.length (i_columns i) =? 0)%nat
                then insertFields m (i_columns i) []
                else OK (Fields m)) with
         | OK fields => forallb (fun fd => clean (ColName fd)) fields
         | Err _ => true
         end
      && match i_upsert i with
         | Some odk => balancedUpsert reg (Some m) odk
         | None => true
         end
  end.

Fixpoint deleterBalanced (e : Expression) : bool :=
  match e with
  | EColumn c => clean (c_name c)
  | EPredicate (mkBinary left_ o right_) =>
      deleterBalanced left_ && clean o && deleterBalanced right_
  | _ => true
  end.

Definition balancedDeleter (d : Deleter) : bool :=
  clean (if String.eqb (d_table d) "" then d_T d else d_table d)
  && forallb (fun p => deleterBalanced (EPredicate p)) (d_where d).

(** A statement is balanced when every piece of text its builder copies
    into the statement is: the pieces of its expressions as above, table
    and column names, aliases and join kinds without placeholders, and a
    raw query with as many placeholders as arguments. *)
Definition balancedStatement (st : Statement) : bool :=
  match st with
  | SelectOf s => balancedSelector s
  | UpdateOf u => balancedUpdater u
  | InsertOf i => balancedInserter i
  | DeleteOf d => balancedDeleter d
  | RawOf q => (placeholders (rq_sql q) =? List.length (rq_args q))%nat
  end.

(** What a builder holds before [Build]: a quote character that is not
    the placeholder, and as many placeholders as arguments (none of
    either when it is new).  [Inserter.Build] empties the arguments and
    keeps the text, so its text must hold no placeholder. *)
Definition balancedState (b : builder) : Prop :=
  placeholders (sb b) = List.length (args b).

Definition startsBalanced (st : Statement) : Prop :=
  match st with
  | SelectOf s =>
      quoter (s_builder s) <> "?"%char /\ balancedState (s_builder s)
  | UpdateOf u =>
      quoter (u_builder u) <> "?"%char /\ balancedState (u_builder u)
  | InsertOf i =>
      quoter (i_builder i) <> "?"%char /\ placeholders (sb (i_builder i)) = 0
  | DeleteOf d => placeholders (d_sb d) = List.length (d_args d)
  | RawOf _ => True
  end.

(** A builder grows in balance when a text and arguments are appended
    to it, the text with as many placeholders as there are arguments. *)
Definition grows (b b' : builder) : Prop :=
  exists (t : string) (a : list any),
    b' = emit t a b /\ placeholders t = List.length a.

(** The arguments an expression binds, read off its leaves from left to
    right: the literal of a value, the arguments of a raw fragment, the
    arguments of a subquery. *)
Definition subqueryArgs (s : Subquery) : list any :=
  match s with
  | mkSubquery qb _ _ _ =>
      match Build qb with
      | OK q => Args q
      | Err _ => []
      end
  end.

Fixpoint boundArgs (e : Expression) {struct e} : list any :=
  match e with
  | EValue v => [val v]
  | ERaw x => r_args x
  | EMath m => boundArgsBinary m
  | EPredicate m => boundArgsBinary m
  | EBinary m => boundArgsBinary m
  | ESubqueryExpr (mkSubqueryExpr s _) => subqueryArgs s
  | ESubquery s => subqueryArgs s
  | _ => []
  end
with boundArgsBinary (m : binaryExpr) {struct m} : list any :=
  match m with
  | mkBinary left_ _ right_ => boundArgs left_ ++ boundArgs right_
  end.

(** A step of the compiler binds [bound] in balance when, on a builder
    that satisfies [bal], it appends [bound] to the arguments and, to the
    text, a piece with as many placeholders. *)
Definition bindsBalanced (f : builder -> result builder) (bal : builder -> bool)
    (bound : list any) : Prop :=
  forall b b',
    quoter b <> "?"%char -> bal b = true -> f b = OK b' ->
    exists t, b' = emit t bound b /\ placeholders t = List.length bound.

(** The chain of handlers as the specification words it: the first
    middleware of the list is the outermost. *)
Definition chain {T W : Type} (ms : list (Middleware T W))
    (inner : HandleFunc T W) : HandleFunc T W :=
  foldr (fun m h => m h) inner ms.

(** What the DELETE builder accepts and what it writes for it: a column
    as its quoted name, a value as a placeholder, a predicate as its two
    operands around the operator, nothing for nil. *)
Fixpoint deleterSupported (e : Expression) : bool :=
  match e with
  | ENil | EColumn _ | EValue _ => true
  | EPredicate (mkBinary left_ _ right_) =>
      deleterSupported left_ && deleterSupported right_
  | _ => false
  end.

Fixpoint deleterText (e : Expression) : string :=
  match e with
  | EColumn c => "`" +:+ c_name c +:+ "`"
  | EValue _ => "?"
  | EPredicate (mkBinary left_ o right_) =>
      deleterText left_ +:+ " " +:+ o +:+ " " +:+ deleterText right_
  | _ => ""
  end.

Fixpoint deleterArgs (e : Expression) : list any :=
  match e with
  | EValue v => [val v]
  | EPredicate (mkBinary left_ _ right_) =>
      deleterArgs left_ ++ deleterArgs right_
  | _ => []
  end.

(** [strings.Join(parts, sep)]. *)
Fixpoint Join_ (parts : list string) (sep : string) : string :=
  match parts with
  | [] => ""
  | [p] => p
  | p :: rest => p +:+ sep +:+ Join_ rest sep
  end.

(** ** Further examples and notions *)

(** [TestModel JOIN Order ON TestModel.Id = Order.UserId]. *)
Definition userOrders : Join :=
  On (TableJoin (TableOf testModel) (TRTable (TableOf orderModel)))
     [EQ (TableC (TableOf testModel) "Id")
         (DExpr (EColumn (TableC (TableOf orderModel) "UserId")))].

(** [t1.C("Id")] for [t1 := TableOf(&TestModel{}).As("t1")]. *)
Definition t1Id : Column := TableC (TableAs (TableOf testModel) "t1") "Id".

(** An upsert whose first assignment is computed and whose second is a
    self-reference, and the same two the other way round. *)
Definition ageThenName : Upsert :=
  {| conflictColumns := ["Id"];
     assigns := [AsgAssignment (Assign "Age" (DVal (AInt 1)));
                 AsgColumn (C "FirstName")] |}.

Definition nameThenAge : Upsert :=
  {| conflictColumns := ["Id"];
     assigns := [AsgColumn (C "FirstName");
                 AsgAssignment (Assign "Age" (DVal (AInt 1)))] |}.

Definition ageThenUnsupported : Upsert :=
  {| conflictColumns := ["Id"];
     assigns := [AsgAssignment (Assign "Age" (DVal (AInt 1))); AsgOther] |}.

Definition nameOnly : Upsert :=
  {| conflictColumns := ["Id"]; assigns := [AsgColumn (C "FirstName")] |}.

(** A session whose queries match no row, a core without middleware
    whose value creator reads the first column, and a query context over
    a raw query. *)
Definition emptySession : session (list any) :=
  {| queryContext := fun _ _ => OK {| rows := []; rowsErr := None |};
     execContext := fun _ _ =>
       (Some {| lastInsertId := 0; rowsAffected := 0 |}, None) |}.

Definition firstColumn (m : Model) (row : list any) : any * option error :=
  match row with
  | v :: _ => (v, None)
  | [] => (ANil, Some (ErrDriver "sql: expected 1 destination arguments"))
  end.

Definition plainCore (W : Type) (ms : list (Middleware any W))
  : core any (list any) W :=
  {| c_r := emptyRegistry; c_dialect := MySQL; valCreator := firstColumn;
     ms := ms |}.

Definition rawContext : QueryContext :=
  {| qc_Type := "RAW";
     Builder := {| Build := OK {| SQL := "SELECT * FROM `test_model`;";
                                  Args := [] |} |};
     qc_Model := None |}.

(** Two observers that write to a log when the call enters and leaves. *)
Definition logging (name : string) : (list string -> list string)
                                     * (list string -> list string) :=
  (fun w => w ++ [name +:+ " in"], fun w => w ++ [name +:+ " out"]).

(** Appending a text and its arguments to a DELETE builder. *)
Definition dEmit (t : string) (a : list any) (d : Deleter) : Deleter :=
  {| d_sb := d_sb d +:+ t; d_where := d_where d; d_table := d_table d;
     d_args := d_args d ++ a; d_T := d_T d |}.

(** The table a DELETE statement names: the given one, or the quoted
    name of the type. *)
Definition deleterTarget (d : Deleter) : string :=
  if String.eqb (d_table d) "" then "`" +:+ d_T d +:+ "`" else d_table d.

Definition whereTexts (ps : list Predicate) : list string :=
  map (fun p => deleterText (EPredicate p)) ps.

Definition whereArgs (ps : list Predicate) : list any :=
  List.concat (map (fun p => deleterArgs (EPredicate p)) ps).

Definition whereSupported (ps : list Predicate) : bool :=
  forallb (fun p => deleterSupported (EPredicate p)) ps.

(** [DELETE ... WHERE (age > 2 AND age < 7), id = 1] on [TestModel]. *)
Definition deleteExample : Deleter :=
  DeleterWhere (NewDeleter "TestModel")
    [And (GT (C "Age") (DVal (AInt 2))) (LT (C "Age") (DVal (AInt 7)));
     EQ (C "Id") (DVal (AInt 1))].

(** The builder [NewSelector] makes on a data source without registered
    models. *)
Definition freshBuilder : builder :=
  {| r := emptyRegistry; sb := ""; args := []; dialect := MySQL;
     quoter := "`"; model := None |}.

(** [NewSelector[TestModel](db).Where(C("Age").GT(2).And(C("Age").LT(7)))]. *)
Definition selectExample : Selector :=
  {| s_builder := freshBuilder; s_T := testModel; s_table := TRNil;
     s_where := [And (GT (C "Age") (DVal (AInt 2)))
                     (LT (C "Age") (DVal (AInt 7)))];
     s_having := []; s_columns := []; s_groupBy := [];
     s_offset := 0; s_limit := 0 |}.

(** [Where(Raw("`age` < ?").AsPredicate())], a raw fragment without its
    argument. *)
Definition rawWhereExample : Selector :=
  {| s_builder := freshBuilder; s_T := testModel; s_table := TRNil;
     s_where := [AsPredicate (Raw "`age` < ?" [])];
     s_having := []; s_columns := []; s_groupBy := [];
     s_offset := 0; s_limit := 0 |}.

(** ** More of the sources: options, results, transactions *)

(** registry.go: the option that names the table. *)
Definition WithTableName (tableName : string) : Option :=
  fun m =>
    OK {| TableName := tableName; Fields := Fields m;
          FieldMap := FieldMap m; ColumnMap := ColumnMap m |}.

(** result.go: the accessors of a [Result]; calling a method of the nil
    driver result panics. *)
Definition ResultErr (x : Result) : option error := res_err x.

Definition LastInsertId (x : Result) : result Z :=
  match res_err x with
  | Some err => Err err
  | None =>
      match res x with
      | Some y => OK (lastInsertId y)
      | None => Err (Panic "nil pointer dereference")
      end
  end.

Definition RowsAffected (x : Result) : result Z :=
  match res_err x with
  | Some err => Err err
  | None =>
      match res x with
      | Some y => OK (rowsAffected y)
      | None => Err (Panic "nil pointer dereference")
      end
  end.

(** select.go: the setters of the pagination. *)
Definition SelectorLimit (s : Selector) (limit : Z) : Selector :=
  {| s_builder := s_builder s; s_T := s_T s; s_table := s_table s;
     s_where := s_where s; s_having := s_having s; s_columns := s_columns s;
     s_groupBy := s_groupBy s; s_offset := s_offset s; s_limit := limit |}.

Definition SelectorOffset (s : Selector) (offset : Z) : Selector :=
  {| s_builder := s_builder s; s_T := s_T s; s_table := s_table s;
     s_where := s_where s; s_having := s_having s; s_columns := s_columns s;
     s_groupBy := s_groupBy s; s_offset := offset; s_limit := s_limit s |}.

(** db.go, transaction.go: [DoTx].  What the driver and the callback do
    is given: the error of [BeginTx], how [fn] ends, the errors of
    [Rollback] and [Commit].  The model returns the calls made on the
    transaction, in order, and how [DoTx] ends: the deferred function
    runs on a return and on a panic, and a panic of [fn] is not
    recovered, so it goes on to the caller. *)
Inductive fnEnd : Type :=
| FnReturns (err : option error)
| FnPanics (msg : string).

Inductive txCall : Type := CallBegin | CallFn | CallRollback | CallCommit.

(** The errors [DoTx] returns: an error handed through, or
    [NewErrFailToRollbackTx(bizErr, rbErr, panicked)]. *)
Inductive txError : Type :=
| TxErr (err : error)
| TxFailToRollback (bizErr : option error) (rbErr : error) (panicked : bool).

Inductive txEnd : Type :=
| TxReturns (err : option txError)
| TxPanics (msg : string).

Definition DoTx (begin : option error) (fn : fnEnd)
    (rollback commit : option error) : list txCall * txEnd :=
  match begin with
  | Some err => ([CallBegin], TxReturns (Some (TxErr err)))
  | None =>
      match fn with
      | FnPanics msg => ([CallBegin; CallFn; CallRollback], TxPanics msg)
      | FnReturns (Some err) =>
          ([CallBegin; CallFn; CallRollback],
           TxReturns
             (Some match rollback with
                   | Some e => TxFailToRollback (Some err) e false
                   | None => TxErr err
                   end))
      | FnReturns None =>
          ([CallBegin; CallFn; CallCommit],
           TxReturns (option_map TxErr commit))
      end
  end.

(** ** Notions for the further properties *)

(** Occurrences of a byte in a string. *)
Fixpoint countChar (c : ascii) (s : string) : nat :=
  match s with
  | EmptyString => 0
  | String x s' => (if Ascii.eqb x c then 1 else 0) + countChar c s'
  end.

(** No character of the string is one of the letters A to Z. *)
Fixpoint noUpper (s : string) : bool :=
  match s with
  | EmptyString => true
  | String c s' =>
      match lowerLetter c with
      | Some _ => false
      | None => noUpper s'
      end
  end.

(** Two builders with the same registry, model, dialect and quote
    character: they differ at most in what they have written. *)
Definition sameEnv (b1 b2 : builder) : Prop :=
  r b1 = r b2 /\ model b1 = model b2 /\ dialect b1 = dialect b2 /\
  quoter b1 = quoter b2.

(** The fields [Inserter.Build] inserts: those of the given columns, or
    all the fields of the model. *)
Definition insertedFields (m : Model) (columns : list string)
  : result (list Field) :=
  if negb (List.length columns =? 0)%nat then insertFields m columns []
  else OK (Fields m).

(** The values of one row, in the order of the fields. *)
Fixpoint rowValues (field : string -> result any) (fields : list Field)
  : result (list any) :=
  match fields with
  | [] => OK []
  | fd :: rest =>
      v <- field (GoName fd) ;;
      vs <- rowValues field rest ;;
      OK (v :: vs)
  end.

(** The text of one row of placeholders. *)
Definition rowText (fields : list Field) : string :=
  "(" +:+ Join_ (map (fun _ : Field => "?") fields) "," +:+ ")".

(** ** A statement as a sequence of pieces *)

(** What the specification says of placeholders and arguments, worded
    over one sequence: a statement is made of pieces of text, of
    placeholders that carry the value bound to them, and of fragments
    copied with the arguments they came with (a raw expression, the text
    of a subquery, what the builder held before).  The text of the
    statement is the texts of the pieces in order, a placeholder being
    written [?]; its arguments are the values of the pieces in order. *)
Inductive piece : Type :=
| Text (s : string)
| Hole (v : any)
| Frag (s : string) (a : list any).

Definition pieceText (p : piece) : string :=
  match p with
  | Text s => s
  | Hole _ => "?"
  | Frag s _ => s
  end.

Definition pieceArgs (p : piece) : list any :=
  match p with
  | Text _ => []
  | Hole v => [v]
  | Frag _ a => a
  end.

Fixpoint render (ps : list piece) : string :=
  match ps with
  | [] => ""
  | p :: rest => pieceText p +:+ render rest
  end.

Fixpoint bound (ps : list piece) : list any :=
  match ps with
  | [] => []
  | p :: rest => pieceArgs p ++ bound rest
  end.

(** A piece is well placed when its text holds as many placeholders as
    it carries arguments: none for a text, one for a placeholder. *)
Definition wellPlaced (p : piece) : bool :=
  (placeholders (pieceText p) =? List.length (pieceArgs p))%nat.

(** What the pieces of a statement depend on: the quote character, the
    registry, the model of the statement and the dialect. *)
Record env : Type := {
  e_quoter : ascii;
  e_r : registry;
  e_model : option Model;
  e_dialect : Dialect
}.

Definition envOf (b : builder) : env :=
  {| e_quoter := quoter b; e_r := r b; e_model := model b;
     e_dialect := dialect b |}.

Definition withModel (m : Model) (en : env) : env :=
  {| e_quoter := e_quoter en; e_r := e_r en; e_model := Some m;
     e_dialect := e_dialect en |}.

Definition resolve (en : env) (table : TableReference) (fd : string)
  : result string :=
  colNameIn (e_r en) (e_model en) table fd.

Definition quotedIn (en : env) (name : string) : piece :=
  Text (quoted (e_quoter en) name).

(** A column: its table alias and a dot when it has one, and its name,
    both quoted. *)
Definition columnPieces (en : env) (table : TableReference) (fd : string)
  : result (list piece) :=
  n <- resolve en table fd ;;
  OK ((if String.eqb (tableAlias table) "" then []
       else [quotedIn en (tableAlias table); Text "."])
      ++ [quotedIn en n]).

Definition asPieces (en : env) (alias : string) : list piece :=
  if String.eqb alias "" then [] else [Text " AS "; quotedIn en alias].

Definition aggregatePieces (en : env) (a : Aggregate) (useAlias : bool)
  : result (list piece) :=
  match a with
  | mkAggregate fn arg table alias =>
      c <- columnPieces en table arg ;;
      OK ([Text fn; Text "("] ++ c ++ [Text ")"]
          ++ (if useAlias then asPieces en alias else []))
  end.

(** A subquery: its text without the closing semicolon, in parentheses,
    with the arguments it was built with. *)
Definition subqueryPieces (en : env) (tab : Subquery) (useAlias : bool)
  : result (list piece) :=
  match tab with
  | mkSubquery s _ alias _ =>
      q <- Build s ;;
      if String.eqb (SQL q) "" then Err (Panic "slice bounds out of range")
      else OK ([Text "("; Frag (dropLast (SQL q)) (Args q); Text ") "]
               ++ (if useAlias then [Text " AS "; quotedIn en alias] else []))
  end.

(** An operand stands in parentheses when it is a binary node. *)
Definition operandPieces (e : Expression) (ps : list piece) : list piece :=
  match asBinary e with
  | Some _ => [Text "("] ++ ps ++ [Text ")"]
  | None => ps
  end.

(** An expression: a value is a placeholder that carries the value, a
    raw expression is a fragment with its arguments, a binary node is
    its left operand, its operator and its right operand. *)
Fixpoint exprPieces (en : env) (e : Expression) {struct e}
  : result (list piece) :=
  match e with
  | ENil => OK []
  | EColumn c => columnPieces en (c_table c) (c_name c)
  | EAggregate a => aggregatePieces en a false
  | EValue v => OK [Hole (val v)]
  | ERaw x => OK [Frag (raw x) (r_args x)]
  | EMath m => binaryPieces en m
  | EPredicate m => binaryPieces en m
  | ESubqueryExpr (mkSubqueryExpr s pred) =>
      ps <- subqueryPieces en s false ;; OK ([Text pred; Text " "] ++ ps)
  | ESubquery s => subqueryPieces en s false
  | EBinary m => binaryPieces en m
  | EOther => Err ErrUnsupportedExpressionType
  end
with binaryPieces (en : env) (m : binaryExpr) {struct m}
  : result (list piece) :=
  match m with
  | mkBinary left_ o right_ =>
      pl <- exprPieces en left_ ;;
      pr <- exprPieces en right_ ;;
      OK (operandPieces left_ pl
          ++ (if String.eqb o "" then [] else [Text " "; Text o])
          ++ (if isNil right_ then []
              else [Text " "] ++ operandPieces right_ pr))
  end.

Definition predicatesPieces (en : env) (ps : list Predicate)
  : result (list piece) :=
  match ps with
  | [] => Err (Panic "index out of range")
  | p0 :: rest => binaryPieces en (fold_left And rest p0)
  end.

(** A list of items separated by commas. *)
Fixpoint commaPieces {A : Type} (item : A -> result (list piece))
    (first : bool) (xs : list A) : result (list piece) :=
  match xs with
  | [] => OK []
  | x :: rest =>
      p <- item x ;;
      ps <- commaPieces item false rest ;;
      OK ((if first then [] else [Text ","]) ++ p ++ ps)
  end.

(** A clause that is written only when it is present. *)
Definition clausePieces (present : bool) (keyword : string)
    (body : result (list piece)) : result (list piece) :=
  if present then ps <- body ;; OK ([Text keyword] ++ ps) else OK [].

(** *** SELECT *)

Definition selectColumnPieces (en : env) (c : Column) (useAlias : bool)
  : result (list piece) :=
  ps <- columnPieces en (c_table c) (c_name c) ;;
  OK (ps ++ (if useAlias then asPieces en (c_alias c) else [])).

Definition selectablePieces (en : env) (c : Selectable)
  : result (list piece) :=
  match c with
  | SelColumn v => selectColumnPieces en v true
  | SelAggregate v => aggregatePieces en v true
  | SelRaw v => OK [Frag (raw v) (r_args v)]
  | SelOther _ _ _ => Err ErrUnsupportedSelectable
  end.

Definition columnsPieces (en : env) (columns : list Selectable)
  : result (list piece) :=
  if (List.length columns =? 0)%nat then OK [Text "*"]
  else commaPieces (selectablePieces en) true columns.

Fixpoint tablePieces (en : env) (table : TableReference) {struct table}
  : result (list piece) :=
  match table with
  | TRNil =>
      match e_model en with
      | None => Err (Panic "nil pointer dereference")
      | Some m => OK [quotedIn en (TableName m)]
      end
  | TRTable tab =>
      m <- getModel (e_r en) (entity tab) ;;
      OK ([quotedIn en (TableName m)]
          ++ (if String.eqb (t_alias tab) "" then []
              else [Text " AS "; quotedIn en (t_alias tab)]))
  | TRJoin tab => joinPieces en tab
  | TRSubquery tab => subqueryPieces en tab true
  | TROther _ => Err ErrUnsupportedExpressionType
  end
with joinPieces (en : env) (tab : Join) {struct tab} : result (list piece) :=
  match tab with
  | mkJoin left_ right_ typ on using_ =>
      pl <- tablePieces en left_ ;;
      pr <- tablePieces en right_ ;;
      pu <- (if (0 <? List.length using_)%nat then
               ps <- commaPieces
                       (fun col => selectColumnPieces en
                                     (mkColumn TRNil col "") false)
                       true using_ ;;
               OK ([Text " USING ("] ++ ps ++ [Text ")"])
             else OK []) ;;
      po <- clausePieces (0 <? List.length on)%nat " ON "
              (predicatesPieces en on) ;;
      OK ([Text "("] ++ pl ++ [Text " "; Text typ; Text " "] ++ pr
          ++ pu ++ po ++ [Text ")"])
  end.

(** The placeholder of LIMIT carries the limit and that of OFFSET the
    offset; both are written only when positive. *)
Definition paginationPieces (limit offset : Z) : list piece :=
  (if (0 <? limit)%Z then [Text " LIMIT "; Hole (AInt limit)] else [])
  ++ (if (0 <? offset)%Z then [Text " OFFSET "; Hole (AInt offset)] else []).

Definition selectorPieces (s : Selector) : result (list piece) :=
  m <- getModel (r (s_builder s)) (s_T s) ;;
  let en := withModel m (envOf (s_builder s)) in
  cols <- columnsPieces en (s_columns s) ;;
  tbl <- tablePieces en (s_table s) ;;
  wh <- clausePieces (0 <? List.length (s_where s))%nat " WHERE "
          (predicatesPieces en (s_where s)) ;;
  gb <- clausePieces (0 <? List.length (s_groupBy s))%nat " GROUP BY "
          (commaPieces (fun c => selectColumnPieces en c false) true
             (s_groupBy s)) ;;
  hv <- clausePieces (0 <? List.length (s_having s))%nat " HAVING "
          (predicatesPieces en (s_having s)) ;;
  OK ([Frag (sb (s_builder s)) (args (s_builder s)); Text "SELECT "]
      ++ cols ++ [Text " FROM "] ++ tbl ++ wh ++ gb ++ hv
      ++ paginationPieces (s_limit s) (s_offset s) ++ [Text ";"]).

(** *** UPDATE *)

(** [SET col=?] carries the value of the field of that name; an
    assignment carries what its expression binds. *)
Definition assignPieces (en : env) (field : string -> result any)
    (a : Assignable) : result (list piece) :=
  match a with
  | AsgColumn c =>
      ps <- columnPieces en (c_table c) (c_name c) ;;
      arg <- field (c_name c) ;;
      OK (ps ++ [Text "="; Hole arg])
  | AsgAssignment assign =>
      ps <- columnPieces en TRNil (column assign) ;;
      pv <- exprPieces en (a_val assign) ;;
      OK (ps ++ [Text "="] ++ pv)
  | _ => Err ErrUnsupportedAssignableType
  end.

Definition updaterPieces (u : Updater) : result (list piece) :=
  if (List.length (u_assigns u) =? 0)%nat then Err ErrNoUpdatedColumns
  else
    m <- getModel (r (u_builder u)) (u_T u) ;;
    let en := withModel m (envOf (u_builder u)) in
    set_ <- commaPieces (assignPieces en (u_Field u m)) true (u_assigns u) ;;
    wh <- clausePieces (0 <? List.length (u_where u))%nat " WHERE "
            (predicatesPieces en (u_where u)) ;;
    OK ([Frag (sb (u_builder u)) (args (u_builder u)); Text "UPDATE ";
         quotedIn en (TableName m); Text " SET "]
        ++ set_ ++ wh ++ [Text ";"]).

(** *** INSERT *)

(** One row: a placeholder for each field, carrying the value of the
    field. *)
Definition rowPieces (field : string -> result any) (fields : list Field)
  : result (list piece) :=
  ps <- commaPieces (fun fd => v <- field (GoName fd) ;; OK [Hole v])
          true fields ;;
  OK ([Text "("] ++ ps ++ [Text ")"]).

(** The assignments of an upsert, as the dialects write them: a column
    refers to the inserted value of the same column; an assignment is
    the last item written. *)
Fixpoint upsertAssignPieces (en : env) (self : string -> list piece)
    (first : bool) (assigns : list Assignable) : result (list piece) :=
  match assigns with
  | [] => OK []
  | a :: rest =>
      let comma := if first then [] else [Text ","] in
      match a with
      | AsgColumn c =>
          n <- resolve en (c_table c) (c_name c) ;;
          ps <- upsertAssignPieces en self false rest ;;
          OK (comma ++ self n ++ ps)
      | AsgAssignment assign =>
          pc <- columnPieces en TRNil (column assign) ;;
          pv <- exprPieces en (a_val assign) ;;
          OK (comma ++ pc ++ [Text "="] ++ pv)
      | _ => Err ErrUnsupportedAssignableType
      end
  end.

Definition upsertPieces (en : env) (odk : Upsert) : result (list piece) :=
  match e_dialect en with
  | standardSQL => Err (Panic "implement me")
  | mysqlDialect =>
      ps <- upsertAssignPieces en
              (fun n => [quotedIn en n; Text "=VALUES("; quotedIn en n;
                         Text ")"])
              true (assigns odk) ;;
      OK ([Text " ON DUPLICATE KEY UPDATE "] ++ ps)
  | sqlite3Dialect =>
      pc <- (if (0 <? List.length (conflictColumns odk))%nat then
               ps <- commaPieces (fun col => columnPieces en TRNil col)
                       true (conflictColumns odk) ;;
               OK ([Text "("] ++ ps ++ [Text ")"])
             else OK []) ;;
      ps <- upsertAssignPieces en
              (fun n => [quotedIn en n; Text "=excluded."; quotedIn en n])
              true (assigns odk) ;;
      OK ([Text " ON CONFLICT"] ++ pc ++ [Text " DO UPDATE SET "] ++ ps)
  end.

Definition inserterPieces (i : Inserter) : result (list piece) :=
  if (List.length (i_values i) =? 0)%nat then Err ErrInsertZeroRow
  else
    m <- getModel (r (i_builder i)) (i_T i) ;;
    let en := withModel m (envOf (i_builder i)) in
    fields <- (if negb (List.length (i_columns i) =? 0)%nat
               then insertFields m (i_columns i) []
               else OK (Fields m)) ;;
    names <- commaPieces (fun fd => OK [quotedIn en (ColName fd)]) true
               fields ;;
    rows_ <- commaPieces (fun v => rowPieces (v m) fields) true
               (i_values i) ;;
    up <- match i_upsert i with
          | Some odk => upsertPieces en odk
          | None => OK []
          end ;;
    OK ([Text (sb (i_builder i)); Text "INSERT INTO ";
         quotedIn en (TableName m); Text "("]
        ++ names ++ [Text ") VALUES"] ++ rows_ ++ up ++ [Text ";"]).

(** *** DELETE *)

Fixpoint deleterExprPieces (e : Expression) : list piece :=
  match e with
  | EColumn c => [Text "`"; Text (c_name c); Text "`"]
  | EValue v => [Hole (val v)]
  | EPredicate (mkBinary left_ o right_) =>
      deleterExprPieces left_ ++ [Text " "; Text o; Text " "]
      ++ deleterExprPieces right_
  | _ => []
  end.

Fixpoint deleterWherePieces (first : bool) (ps : list Predicate)
  : list piece :=
  match ps with
  | [] => []
  | p :: rest =>
      (if first then [] else [Text " AND "])
      ++ deleterExprPieces (EPredicate p) ++ deleterWherePieces false rest
  end.

Definition deleterPieces (d : Deleter) : result (list piece) :=
  if whereSupported (d_where d) then
    OK ([Frag (d_sb d) (d_args d); Text "DELETE FROM ";
         Text (deleterTarget d)]
        ++ (if (0 <? List.length (d_where d))%nat
            then [Text " WHERE "] ++ deleterWherePieces true (d_where d)
            else [])
        ++ [Text ";"])
  else Err ErrDeleterUnsupported.

(** *** Every statement *)

Definition statementPieces (st : Statement) : result (list piece) :=
  match st with
  | SelectOf s => selectorPieces s
  | UpdateOf u => updaterPieces u
  | InsertOf i => inserterPieces i
  | DeleteOf d => deleterPieces d
  | RawOf q => OK [Frag (rq_sql q) (rq_args q)]
  end.

Definition queryOf (ps : list piece) : Query :=
  {| SQL := render ps; Args := bound ps |}.

(** A sequence is well placed when each of its pieces is; the
    placeholders written up to any point are then as many as the
    arguments bound up to that point. *)
Definition wellPlacedAll (ps : list piece) : bool := forallb wellPlaced ps.

(** A step of a builder writes the pieces [fp] gives when running it
    appends their text and their arguments, and fails as [fp] does. *)
Definition writes (f : builder -> result builder)
    (fp : env -> result (list piece)) : Prop :=
  forall b,
    f b = (ps <- fp (envOf b) ;; OK (emit (render ps) (bound ps) b)).

(** [NewSelector[TestModel](db).Where(C("Age").GT(2)).Limit(10).Offset(20)]. *)
Definition pagedExample : Selector :=
  {| s_builder := freshBuilder; s_T := testModel; s_table := TRNil;
     s_where := [GT (C "Age") (DVal (AInt 2))];
     s_having := []; s_columns := []; s_groupBy := [];
     s_offset := 20; s_limit := 10 |}.

(** ** Further notions and examples *)

(** A pair of a tag is malformed when it does not hold exactly one [=]. *)
Definition badPair (p : string) : bool := negb (countChar "=" p =? 1)%nat.

(** The three containers of a model agree: a field stands at its index
    and is found in both maps, and each map sends a key to a field that
    carries the key and stands in the list. *)
Definition consistent (fields : list Field) (fm cm : gmap string Field)
  : Prop :=
  (forall k f, fields !! k = Some f ->
     Index f = k /\ is_Some (fm !! GoName f) /\ is_Some (cm !! ColName f)) /\
  (forall name f, fm !! name = Some f ->
     GoName f = name /\ fields !! Index f = Some f) /\
  (forall col f, cm !! col = Some f ->
     ColName f = col /\ fields !! Index f = Some f).

(** A step of the compiler appends [bound] when, wherever it succeeds,
    it adds some text and exactly these arguments. *)
Definition appends (f : builder -> result builder) (bound : list any)
  : Prop :=
  forall b b', f b = OK b' -> exists t, b' = emit t bound b.

(** The comma a loop writes before its first item when it starts at a
    later index. *)
Definition commaBefore {A : Type} (i : nat) (xs : list A) : string :=
  if (0 <? i)%nat && negb (List.length xs =? 0)%nat then "," else "".

(** The model [Order] registers as, its first field, the registry after
    [TestModel] has been registered, and the model of [TestModel] under
    the table name [users]. *)
Definition orderModelMeta : Model :=
  match parseModel orderModel with
  | OK m => m
  | Err _ => noModel
  end.

Definition orderIdField : StructField :=
  {| sfName := "Id"; sfTag := "column=order_id"; sfType := "int64";
     sfOffset := 0 |}.

Definition testRegistry : registry :=
  {| models := <[entName testModel := testModelMeta]> (models emptyRegistry) |}.

Definition usersMeta : Model :=
  {| TableName := "users"; Fields := Fields testModelMeta;
     FieldMap := FieldMap testModelMeta;
     ColumnMap := ColumnMap testModelMeta |}.

(** The predicates of the README, [age > 2] and [age < 7]. *)
Definition ageAbove : Predicate := GT (C "Age") (DVal (AInt 2)).
Definition ageBelow : Predicate := LT (C "Age") (DVal (AInt 7)).

(** A field reader that returns the name of the field, an INSERT of two
    values read that way, and one that names a column the model lacks. *)
Definition echoField : Model -> string -> result any :=
  fun _ name => OK (AStr name).

Definition insertExample : Inserter :=
  {| i_builder := freshBuilder; i_T := testModel;
     i_values := [echoField; echoField]; i_columns := ["Id"; "Age"];
     i_upsert := None |}.

Definition badInsertExample : Inserter :=
  {| i_builder := freshBuilder; i_T := testModel;
     i_values := [echoField]; i_columns := ["Id"; "Nope"; "Age"];
     i_upsert := None |}.

(** Cursors of two rows, and of three rows the second of which has no
    column; a query context whose statement does not build. *)
Definition twoRows : Rows (list any) :=
  {| rows := [[AInt 1]; [AInt 2]]; rowsErr := None |}.

Definition brokenRows : Rows (list any) :=
  {| rows := [[AInt 1]; []; [AInt 3]]; rowsErr := None |}.

Definition sessionOf (rs : Rows (list any)) : session (list any) :=
  {| queryContext := fun _ _ => OK rs;
     execContext := fun _ _ =>
       (Some {| lastInsertId := 7; rowsAffected := 1 |}, None) |}.

Definition failingContext : QueryContext :=
  {| qc_Type := "INSERT";
     Builder := {| Build := Err ErrInsertZeroRow |};
     qc_Model := None |}.

Definition observedCore : core any (list any) (list string) :=
  plainCore (list string)
    (map (fun p => around (fst p) (snd p)) [logging "A"]).

(** ** Strings *)

Ltac split_conj := repeat match goal with |- _ /\ _ => split end.

(** Closed equations are settled by evaluation; a quantified statement
    is left to the proof. *)
Ltac by_evaluation :=
  split_conj;
  match goal with
  | |- forall _, _ => idtac
  | |- _ => vm_compute; reflexivity
  end.

Lemma append_nil_l (s : string) : "" +:+ s = s.
Proof. reflexivity. Qed.

Lemma append_cons (x : ascii) (s t : string) :
  String x s +:+ t = String x (s +:+ t).
Proof. reflexivity. Qed.

Lemma append_assoc (a b c : string) : (a +:+ b) +:+ c = a +:+ (b +:+ c).
Proof.
  induction a as [|x a IH]; [reflexivity|].
  rewrite !append_cons. now rewrite IH.
Qed.

Lemma append_nil_r (s : string) : s +:+ "" = s.
Proof.
  induction s as [|x s IH]; [reflexivity|].
  rewrite append_cons. now rewrite IH.
Qed.

Lemma placeholders_app (s t : string) :
  placeholders (s +:+ t) = placeholders s + placeholders t.
Proof.
  induction s as [|x s IH]; [reflexivity|].
  rewrite append_cons. simpl. rewrite IH. lia.
Qed.

(** ** The model registry *)

Lemma appendRune_ascii (c : ascii) (i : nat) (rest : string) :
  inRange 0 127 c = true ->
  appendRune i (N_of_ascii c) rest
  = snakeChar (i =? 0)%nat c +:+ rest.
Proof.
  destruct c as [[] [] [] [] [] [] [] []]; intros H; try discriminate H;
    destruct (i =? 0)%nat eqn:Hi; unfold appendRune; rewrite Hi;
    vm_compute; reflexivity.
Qed.

Lemma underscoreFrom_ascii (s : string) :
  forall i : nat,
    isASCII s = true ->
    underscoreFrom (S i) s = snakeRest s.
Proof.
  induction s as [|c s IH]; intros i H; [reflexivity|].
  simpl in H. apply andb_prop in H as [Hc Hs].
  cbn [underscoreFrom snakeRest]. rewrite Hc.
  rewrite (appendRune_ascii c (S i) _ Hc).
  replace (S i + 1) with (S (S i)) by lia. now rewrite IH.
Qed.

Lemma underscoreName_snakeCase (s : string) :
  isASCII s = true -> underscoreName s = snakeCase s.
Proof.
  destruct s as [|c s]; [reflexivity|]. intros H.
  simpl in H. apply andb_prop in H as [Hc Hs].
  unfold underscoreName. cbn [underscoreFrom snakeCase]. rewrite Hc.
  rewrite (appendRune_ascii c 0 _ Hc).
  change (0 + 1) with 1. now rewrite underscoreFrom_ascii.
Qed.

Lemma parseFields_fields (fds : list StructField) :
  forall i fields fm cm fields' fm' cm',
    parseFields i fds fields fm cm = OK (fields', fm', cm') ->
    exists fs,
      fields' = fields ++ fs /\
      forall k sf, fds !! k = Some sf ->
        exists tags, parseTag (sfTag sf) = OK tags /\
                     fs !! k = Some (fieldOf (i + k) sf tags).
Proof.
  induction fds as [|fd rest IH]; intros i fields fm cm fields' fm' cm' H.
  - simpl in H. injection H as <- <- <-. exists []. split.
    + now rewrite app_nil_r.
    + intros k sf Hk. discriminate.
  - simpl in H. destruct (parseTag (sfTag fd)) as [tags|e] eqn:Htags;
      simpl in H; [|discriminate].
    apply IH in H as (fs & -> & Hfs).
    exists (fieldOf i fd tags :: fs). split.
    + now rewrite <- app_assoc.
    + intros [|k] sf Hk; simpl in Hk.
      * injection Hk as <-. exists tags. split; [assumption|].
        simpl. now rewrite Nat.add_0_r.
      * destruct (Hfs k sf Hk) as (tg & Htg & Hlook).
        exists tg. split; [assumption|]. simpl.
        now replace (i + S k) with (S i + k) by lia.
Qed.





(** A lookup that succeeds leaves a registry in which the same lookup
    returns the same model and changes nothing more. *)
Lemma Get_again (reg reg' : registry) (val : Entity) (m : Model) :
  Get reg val = OK (m, reg') -> Get reg' val = OK (m, reg').
Proof.
  unfold Get, Register. intros H.
  destruct (models reg !! entName val) as [m0|] eqn:Hm.
  - injection H as <- <-. now rewrite Hm.
  - destruct (parseModel val) as [m1|e]; simpl in H; [|discriminate].
    injection H as <- <-. simpl. now rewrite lookup_insert_eq.
Qed.

Example underscoreName_README :
  underscoreName "FirstName" = "first_name" /\ underscoreName "ID" = "i_d" /\
  underscoreName "TestModel" = "test_model".
Proof. split_conj; vm_compute; reflexivity. Qed.

Example testBuilder_is_new :
  newBuilder emptyRegistry MySQL testModel = OK testBuilder.
Proof. vm_compute. reflexivity. Qed.

(** ** The builder only appends *)

Lemma emit_nil (b : builder) : emit "" [] b = b.
Proof. destruct b. unfold emit. simpl. now rewrite append_nil_r, app_nil_r. Qed.

Lemma emit_emit (t1 t2 : string) (a1 a2 : list any) (b : builder) :
  emit t2 a2 (emit t1 a1 b) = emit (t1 +:+ t2) (a1 ++ a2) b.
Proof. unfold emit. simpl. now rewrite append_assoc, <- app_assoc. Qed.

Lemma WriteString_emit (s : string) (b : builder) :
  WriteString s b = emit s [] b.
Proof. unfold WriteString, emit. now rewrite app_nil_r. Qed.

Lemma WriteByte_emit (c : ascii) (b : builder) :
  WriteByte c b = emit (String c "") [] b.
Proof. apply WriteString_emit. Qed.

Lemma addArgs_emit (xs : list any) (b : builder) :
  addArgs xs b = emit "" xs b.
Proof. unfold addArgs, emit. now rewrite append_nil_r. Qed.

Lemma quote_emit (name : string) (b : builder) :
  quote name b = emit (quoted (quoter b) name) [] b.
Proof.
  unfold quote. rewrite !WriteByte_emit, WriteString_emit, !emit_emit.
  reflexivity.
Qed.

Ltac norm_text :=
  unfold quoted;
  repeat first
    [ rewrite append_assoc | rewrite append_cons | rewrite append_nil_l
    | rewrite append_nil_r | rewrite app_nil_r | rewrite <- app_assoc
    | rewrite app_nil_l ].

Ltac emit_eq :=
  rewrite ?emit_emit; simpl; norm_text; try reflexivity.

Lemma buildRaw_emit (x : RawExpr) (b : builder) :
  buildRaw x b = emit (raw x) (r_args x) b.
Proof.
  unfold buildRaw. rewrite WriteString_emit.
  destruct (r_args x) as [|v vs]; simpl; [reflexivity|].
  now rewrite addArgs_emit, emit_emit, append_nil_r.
Qed.

Lemma buildAs_emit (alias : string) (b : builder) :
  buildAs alias b =
  emit (if String.eqb alias "" then "" else " AS " +:+ quoted (quoter b) alias)
       [] b.
Proof.
  unfold buildAs. destruct (String.eqb alias ""); simpl.
  - now rewrite emit_nil.
  - now rewrite quote_emit, WriteString_emit, emit_emit.
Qed.

Lemma reset_emit (t : string) (a : list any) (b : builder) :
  reset (emit t a b) = reset b.
Proof. reflexivity. Qed.

Lemma emitter_emit (t : builder -> string) (a : builder -> list any) :
  (forall b, t b = t (reset b)) -> (forall b, a b = a (reset b)) ->
  emitter (fun b => OK (emit (t b) (a b) b)).
Proof.
  intros Ht Ha b. simpl. now rewrite <- Ht, <- Ha.
Qed.

Lemma emitter_fixed (p : builder) (f : builder -> result builder) (b : builder) :
  emitter f -> f (reset b) = OK p -> p = emit (sb p) (args p) (reset b).
Proof.
  intros Hf Hp. pose proof (Hf (reset b)) as H.
  change (reset (reset b)) with (reset b) in H. rewrite Hp in H.
  now injection H.
Qed.

Lemma emitter_bind (f g : builder -> result builder) :
  emitter f -> emitter g -> emitter (fun b => x <- f b ;; g x).
Proof.
  intros Hf Hg b. rewrite (Hf b).
  destruct (f (reset b)) as [p|e] eqn:Hp; simpl; [|reflexivity].
  assert (Hreset : reset p = reset b).
  { rewrite (emitter_fixed p f b Hf Hp). reflexivity. }
  rewrite (Hg (emit (sb p) (args p) b)), reset_emit.
  rewrite (Hg p), Hreset.
  destruct (g (reset b)) as [q|e]; [|reflexivity].
  rewrite emit_emit. reflexivity.
Qed.

Lemma emitter_pre (t : string) (a : list any) (g : builder -> result builder) :
  emitter g -> emitter (fun b => g (emit t a b)).
Proof.
  intros Hg. apply (emitter_bind (fun b => OK (emit t a b)) g); [|assumption].
  now apply (emitter_emit (fun _ => t) (fun _ => a)).
Qed.

Lemma emitter_post (t : string) (a : list any) (f : builder -> result builder) :
  emitter f -> emitter (fun b => x <- f b ;; OK (emit t a x)).
Proof.
  intros Hf. apply emitter_bind; [assumption|].
  now apply (emitter_emit (fun _ => t) (fun _ => a)).
Qed.

Lemma emitter_ext (f g : builder -> result builder) :
  (forall b, f b = g b) -> emitter g -> emitter f.
Proof. intros H Hg b. rewrite !H. apply Hg. Qed.

Lemma buildColumn_emitter (table : TableReference) (fd : string) :
  emitter (buildColumn table fd).
Proof.
  intros b. unfold buildColumn.
  rewrite !quote_emit, !WriteByte_emit, !emit_emit.
  destruct (negb (String.eqb (tableAlias table) "")); unfold colName; simpl;
    destruct (colNameIn (r b) (model b) table fd) as [n|e]; simpl;
    try reflexivity; rewrite !quote_emit; emit_eq.
Qed.

Lemma buildAggregate_emitter (a : Aggregate) (useAlias : bool) :
  emitter (buildAggregate a useAlias).
Proof.
  destruct a as [fn arg table alias]. unfold buildAggregate.
  pose (close := fun b2 : builder =>
          OK (if useAlias then buildAs alias (WriteByte ")" b2)
              else WriteByte ")" b2)).
  pose (g := fun b1 : builder => x <- buildColumn table arg b1 ;; close x).
  apply (emitter_ext _ (fun b => g (emit (fn +:+ "(") [] b))).
  { intros b. now rewrite WriteByte_emit, WriteString_emit, emit_emit. }
  apply (emitter_pre _ _ g).
  apply (emitter_bind _ close); [apply buildColumn_emitter|].
  intros b. unfold close. rewrite !WriteByte_emit. destruct useAlias.
  - rewrite !buildAs_emit. emit_eq.
  - reflexivity.
Qed.

Lemma buildSubquery_emitter (tab : Subquery) (useAlias : bool) :
  emitter (buildSubquery tab useAlias).
Proof.
  destruct tab as [s cols alias tbl]. intros b. unfold buildSubquery.
  destruct (Build s) as [q|e]; simpl; [|reflexivity].
  destruct (String.eqb (SQL q) ""); [reflexivity|].
  rewrite !WriteByte_emit, !WriteString_emit, !addArgs_emit, !emit_emit.
  destruct (0 <? List.length (Args q))%nat, useAlias;
    rewrite ?quote_emit, ?WriteByte_emit, ?WriteString_emit; emit_eq.
Qed.

Scheme Expression_bin_ind := Induction for Expression Sort Prop
  with binaryExpr_bin_ind := Induction for binaryExpr Sort Prop.
Combined Scheme expression_mutind from Expression_bin_ind, binaryExpr_bin_ind.

Lemma buildSubExpr_binary (sub : Expression) (m : binaryExpr) (b : builder) :
  asBinary sub = Some m ->
  buildSubExpr sub b =
  (x <- buildBinaryExpr m (WriteByte "(" b) ;; OK (WriteByte ")" x)).
Proof. destruct sub; intros H; try discriminate; now injection H as ->. Qed.

Lemma buildSubExpr_leaf (sub : Expression) (b : builder) :
  asBinary sub = None -> buildSubExpr sub b = buildExpression sub b.
Proof. destruct sub; intros H; try discriminate; reflexivity. Qed.

Lemma buildExpression_binary (e : Expression) (m : binaryExpr) (b : builder) :
  asBinary e = Some m -> buildExpression e b = buildBinaryExpr m b.
Proof. destruct e; intros H; try discriminate; now injection H as ->. Qed.

Lemma buildBinaryExpr_eq (left_ right_ : Expression) (o : op) (b : builder) :
  buildBinaryExpr (mkBinary left_ o right_) b =
  (x <- buildSubExpr left_ b ;;
   let x := if negb (String.eqb o "")
            then WriteString o (WriteByte " " x) else x in
   if negb (isNil right_) then buildSubExpr right_ (WriteByte " " x)
   else OK x).
Proof. reflexivity. Qed.

Lemma buildSubExpr_emitter (e : Expression) :
  emitter (buildExpression e) -> emitter (buildSubExpr e).
Proof.
  intros He. destruct (asBinary e) as [m|] eqn:Hm.
  - apply (emitter_ext _
      (fun b => (fun b1 => x <- buildBinaryExpr m b1 ;;
                           OK (emit ")" [] x)) (emit "(" [] b))).
    { intros b. rewrite (buildSubExpr_binary e m b Hm), WriteByte_emit.
      destruct (buildBinaryExpr m (emit "(" [] b)); simpl;
        [now rewrite WriteByte_emit | reflexivity]. }
    apply (emitter_pre _ _
      (fun b1 => x <- buildBinaryExpr m b1 ;; OK (emit ")" [] x))).
    apply emitter_post.
    apply (emitter_ext _ (buildExpression e)); [|assumption].
    intros b. symmetry. now apply buildExpression_binary.
  - apply (emitter_ext _ (buildExpression e)); [|assumption].
    intros b. now apply buildSubExpr_leaf.
Qed.

Lemma compiler_emitter :
  (forall e, emitter (buildExpression e)) /\
  (forall m, emitter (buildBinaryExpr m)).
Proof.
  apply expression_mutind.
  - intros b. simpl. now rewrite emit_nil.
  - intros c. apply buildColumn_emitter.
  - intros a. apply buildAggregate_emitter.
  - intros v b. simpl. rewrite !addArgs_emit, !WriteByte_emit. emit_eq.
  - intros x b. simpl. rewrite !buildRaw_emit. emit_eq.
  - intros m Hm. exact Hm.
  - intros m Hm. exact Hm.
  - intros [s pred].
    apply (emitter_ext _
      (fun b => buildSubquery s false (emit (pred +:+ " ") [] b))).
    { intros b. simpl. now rewrite WriteByte_emit, WriteString_emit, emit_emit. }
    apply (emitter_pre _ _ (buildSubquery s false)).
    apply buildSubquery_emitter.
  - intros s. apply buildSubquery_emitter.
  - intros m Hm. exact Hm.
  - intros b. reflexivity.
  - intros left_ Hl o right_ Hr.
    pose (sep := if negb (String.eqb o "") then " " +:+ o else "").
    pose (g := fun x : builder =>
      if negb (isNil right_)
      then buildSubExpr right_ (emit (sep +:+ " ") [] x)
      else OK (emit sep [] x)).
    apply (emitter_ext _ (fun b => x <- buildSubExpr left_ b ;; g x)).
    { intros b. rewrite buildBinaryExpr_eq.
      destruct (buildSubExpr left_ b) as [x|e]; [|reflexivity].
      unfold g, sep. simpl.
      destruct (negb (String.eqb o "")), (negb (isNil right_));
        rewrite ?WriteByte_emit, ?WriteString_emit, ?emit_emit, ?emit_nil;
        reflexivity. }
    apply (emitter_bind _ g); [now apply buildSubExpr_emitter|].
    unfold g. destruct (negb (isNil right_)).
    + apply (emitter_pre _ _ (buildSubExpr right_)).
      now apply buildSubExpr_emitter.
    + now apply (emitter_emit (fun _ => sep) (fun _ => [])).
Qed.

Lemma buildSubExpr_out (e : Expression) (b p : builder) :
  buildExpression e (reset b) = OK p ->
  buildSubExpr e b = OK (emit (parenthesized e (sb p)) (args p) b).
Proof.
  intros Hp. destruct compiler_emitter as [Hexp Hbin].
  unfold parenthesized. destruct (asBinary e) as [m|] eqn:Hm.
  - rewrite (buildSubExpr_binary e m b Hm), WriteByte_emit.
    rewrite (Hbin m (emit "(" [] b)), reset_emit.
    rewrite <- (buildExpression_binary e m (reset b) Hm), Hp. simpl.
    rewrite WriteByte_emit. f_equal. emit_eq.
  - rewrite (buildSubExpr_leaf e b Hm), (Hexp e b), Hp. reflexivity.
Qed.

(** C3: a binary expression compiles to the text of its left operand,
    the operator and the text of its right operand, where every operand
    that is itself a binary node (MathExpr, Predicate or generic binary)
    stands in parentheses, whatever the operator; the arguments of the
    left operand come before those of the right one. *)
Theorem C3_nested_binary_operands_are_parenthesized :
  forall (b : builder) (left_ right_ : Expression) (o : op) (pl pr : builder),
    buildExpression left_ (reset b) = OK pl ->
    buildExpression right_ (reset b) = OK pr ->
    buildBinaryExpr (mkBinary left_ o right_) b =
    OK (emit (parenthesized left_ (sb pl)
              +:+ (if String.eqb o "" then "" else " " +:+ o)
              +:+ (if isNil right_ then ""
                   else " " +:+ parenthesized right_ (sb pr)))
             (args pl ++ args pr) b).
Proof.
  intros b left_ right_ o pl pr Hl Hr.
  rewrite buildBinaryExpr_eq, (buildSubExpr_out left_ b pl Hl). simpl.
  destruct (isNil right_) eqn:Hnil; simpl.
  - destruct right_; try discriminate. simpl in Hr. injection Hr as <-.
    destruct (String.eqb o ""); simpl;
      rewrite ?WriteByte_emit, ?WriteString_emit; f_equal; emit_eq.
  - destruct (String.eqb o ""); simpl;
      rewrite ?WriteByte_emit, ?WriteString_emit, ?emit_emit;
      rewrite (buildSubExpr_out right_ (emit _ _ b) pr Hr); f_equal; emit_eq.
Qed.

Lemma C3_witness :
  buildBinaryExpr
    (And (GT (C "Age") (DVal (AInt 2))) (LT (C "Age") (DVal (AInt 7))))
    testBuilder
  = OK (emit "(`age` > ?) AND (`age` < ?)" [AInt 2; AInt 7] testBuilder).
Proof.
  apply (C3_nested_binary_operands_are_parenthesized testBuilder
           (EPredicate (GT (C "Age") (DVal (AInt 2))))
           (EPredicate (LT (C "Age") (DVal (AInt 7)))) opAND
           (emit "`age` > ?" [AInt 2] (reset testBuilder))
           (emit "`age` < ?" [AInt 7] (reset testBuilder)));
    vm_compute; reflexivity.
Defined.


(** ** Placeholders and arguments *)

Lemma clean_placeholders (s : string) : clean s = true -> placeholders s = 0.
Proof. unfold clean. intros H. now apply Nat.eqb_eq in H. Qed.

Lemma placeholders_quoted (q : ascii) (name : string) :
  q <> "?"%char -> placeholders (quoted q name) = placeholders name.
Proof.
  intros Hq. unfold quoted. simpl. rewrite placeholders_app. simpl.
  destruct (Ascii.eqb q "?") eqn:E; [apply Ascii.eqb_eq in E; contradiction|].
  lia.
Qed.

Lemma buildColumn_out (table : TableReference) (fd : string) (b b' : builder) :
  buildColumn table fd b = OK b' ->
  exists n, colName b table fd = OK n /\
    b' = emit ((if String.eqb (tableAlias table) "" then ""
                else quoted (quoter b) (tableAlias table) +:+ ".")
               +:+ quoted (quoter b) n) [] b.
Proof.
  unfold buildColumn. intros H.
  destruct (String.eqb (tableAlias table) "") eqn:Ha; simpl in H.
  - destruct (colName b table fd) as [n|e] eqn:Hn; simpl in H; [|discriminate].
    injection H as <-. exists n. split; [reflexivity|].
    rewrite quote_emit. reflexivity.
  - rewrite quote_emit, WriteByte_emit, emit_emit in H.
    change (colName (emit _ _ b) table fd) with (colName b table fd) in H.
    destruct (colName b table fd) as [n|e] eqn:Hn; simpl in H; [|discriminate].
    injection H as <-. exists n. split; [reflexivity|].
    rewrite quote_emit. emit_eq.
Qed.

Lemma balancedColumn_count (b b' : builder) (table : TableReference)
    (fd : string) :
  quoter b <> "?"%char ->
  balancedColumn (r b) (model b) table fd = true ->
  buildColumn table fd b = OK b' ->
  exists t, b' = emit t [] b /\ placeholders t = 0.
Proof.
  intros Hq Hbal H. apply buildColumn_out in H as (n & Hn & ->).
  eexists. split; [reflexivity|].
  unfold balancedColumn in Hbal. apply andb_prop in Hbal as [Ha Hc].
  unfold colName in Hn. rewrite Hn in Hc.
  rewrite placeholders_app, placeholders_quoted by assumption.
  rewrite (clean_placeholders n Hc).
  destruct (String.eqb (tableAlias table) ""); [reflexivity|].
  rewrite placeholders_app, placeholders_quoted by assumption.
  now rewrite (clean_placeholders _ Ha).
Qed.

Lemma buildSubquery_out (tab : Subquery) (b b' : builder) :
  buildSubquery tab false b = OK b' ->
  exists t, b' = emit t (subqueryArgs tab) b /\
            (balancedSubquery tab = true ->
             placeholders t = List.length (subqueryArgs tab)).
Proof.
  destruct tab as [s cols alias tbl]. unfold buildSubquery. simpl.
  destruct (Build s) as [q|e]; simpl; [|discriminate].
  destruct (String.eqb (SQL q) ""); [discriminate|].
  intros H. injection H as <-.
  exists ("(" +:+ dropLast (SQL q) +:+ ") "). split.
  - rewrite !WriteByte_emit, WriteString_emit.
    destruct (Args q) as [|v vs]; simpl; rewrite ?addArgs_emit; emit_eq.
  - intros Hbal. apply Nat.eqb_eq in Hbal.
    rewrite !placeholders_app. simpl. lia.
Qed.

Lemma buildSubExpr_balanced (e : Expression) :
  bindsBalanced (buildExpression e) (fun b => balanced b e) (boundArgs e) ->
  bindsBalanced (buildSubExpr e) (fun b => balanced b e) (boundArgs e).
Proof.
  intros He b b' Hq Hbal H. destruct (asBinary e) as [m|] eqn:Hm.
  - rewrite (buildSubExpr_binary e m b Hm) in H.
    destruct (buildBinaryExpr m (WriteByte "(" b)) as [x|err] eqn:Hx;
      simpl in H; [|discriminate].
    injection H as <-.
    rewrite <- (buildExpression_binary e m _ Hm), WriteByte_emit in Hx.
    apply He in Hx as (t & -> & Ht); [|assumption|assumption].
    exists ("(" +:+ t +:+ ")"). split.
    + rewrite WriteByte_emit. emit_eq.
    + rewrite !placeholders_app. simpl. lia.
  - rewrite (buildSubExpr_leaf e b Hm) in H. now apply He.
Qed.

Lemma compiler_balanced :
  (forall e,
     bindsBalanced (buildExpression e) (fun b => balanced b e) (boundArgs e)) /\
  (forall m,
     bindsBalanced (buildBinaryExpr m)
       (fun b => balancedBinary (r b) (model b) m) (boundArgsBinary m)).
Proof.
  apply expression_mutind.
  - intros b b' _ _ H. injection H as <-. exists "". split; [|reflexivity].
    now rewrite emit_nil.
  - intros [t n a] b b' Hq Hbal H. simpl in H.
    now apply (balancedColumn_count b b' t n).
  - intros [fn arg t alias] b b' Hq Hbal H. simpl in H.
    unfold balanced in Hbal. simpl in Hbal.
    apply andb_prop in Hbal as [Hfn Hcol].
    rewrite WriteByte_emit, WriteString_emit, emit_emit in H.
    destruct (buildColumn t arg (emit _ _ b)) as [x|err] eqn:Hx;
      simpl in H; [|discriminate].
    injection H as <-.
    apply (balancedColumn_count (emit _ _ b) x t arg) in Hx
      as (tx & -> & Htx); [|assumption|assumption].
    eexists. split; [rewrite WriteByte_emit, !emit_emit; reflexivity|].
    rewrite !placeholders_app, Htx, (clean_placeholders fn Hfn). reflexivity.
  - intros v b b' _ _ H. injection H as <-. exists "?". split; [|reflexivity].
    rewrite addArgs_emit, WriteByte_emit. emit_eq.
  - intros x b b' _ Hbal H. injection H as <-. exists (raw x). split.
    + apply buildRaw_emit.
    + unfold balanced in Hbal. simpl in Hbal. now apply Nat.eqb_eq in Hbal.
  - intros m Hm. exact Hm.
  - intros m Hm. exact Hm.
  - intros [s pred] b b' Hq Hbal H. simpl in H.
    unfold balanced in Hbal. simpl in Hbal.
    apply andb_prop in Hbal as [Hpred Hs].
    rewrite WriteByte_emit, WriteString_emit, emit_emit in H.
    apply buildSubquery_out in H as (t & -> & Ht).
    eexists. split; [rewrite emit_emit; reflexivity|].
    rewrite !placeholders_app, (clean_placeholders pred Hpred), (Ht Hs).
    reflexivity.
  - intros s b b' Hq Hbal H. simpl in H.
    apply buildSubquery_out in H as (t & -> & Ht).
    exists t. split; [reflexivity|]. now apply Ht.
  - intros m Hm. exact Hm.
  - intros b b' _ _ H. discriminate.
  - intros left_ Hl o right_ Hr b b' Hq Hbal H.
    rewrite buildBinaryExpr_eq in H. simpl in Hbal.
    apply andb_prop in Hbal as [Hbal Hbr].
    apply andb_prop in Hbal as [Hbl Ho].
    destruct (buildSubExpr left_ b) as [x|err] eqn:Hx; simpl in H;
      [|discriminate].
    apply (buildSubExpr_balanced left_ Hl) in Hx as (tl & -> & Htl);
      [|assumption|assumption].
    set (sep := if negb (String.eqb o "") then " " +:+ o else "").
    assert (Hsep : placeholders sep = 0).
    { unfold sep. destruct (negb (String.eqb o "")); [|reflexivity].
      rewrite placeholders_app, (clean_placeholders o Ho). reflexivity. }
    assert (Hmid : (if negb (String.eqb o "")
                    then WriteString o (WriteByte " " (emit tl (boundArgs left_) b))
                    else emit tl (boundArgs left_) b)
                   = emit (tl +:+ sep) (boundArgs left_) b).
    { unfold sep. destruct (negb (String.eqb o ""));
        rewrite ?WriteByte_emit, ?WriteString_emit; emit_eq. }
    rewrite Hmid in H. clear Hmid.
    destruct (isNil right_) eqn:Hnil; simpl in H.
    + injection H as <-. destruct right_; try discriminate.
      exists (tl +:+ sep). simpl. rewrite app_nil_r. split; [reflexivity|].
      rewrite placeholders_app. lia.
    + rewrite WriteByte_emit, emit_emit in H.
      apply (buildSubExpr_balanced right_ Hr) in H as (tr & -> & Htr);
        [|assumption|assumption].
      exists (((tl +:+ sep) +:+ " ") +:+ tr). split.
      * rewrite emit_emit. simpl. now rewrite app_nil_r.
      * rewrite !placeholders_app. simpl. rewrite length_app. lia.
Qed.

Example compile_README :
  compile emptyRegistry MySQL testModel
    (EPredicate (And (GT (C "Age") (DVal (AInt 2)))
                     (LT (C "Age") (DVal (AInt 7)))))
  = OK ("(`age` > ?) AND (`age` < ?)", [AInt 2; AInt 7]) /\
  compile emptyRegistry MySQL testModel
    (EPredicate (Not (EQ (C "Id") (DVal (AInt 1)))))
  = OK (" NOT (`id` = ?)", [AInt 1]) /\
  compile emptyRegistry MySQL testModel
    (EPredicate (In (C "Id") [AInt 1; AInt 2]))
  = OK ("`id` IN ?", [ASlice [AInt 1; AInt 2]]).
Proof. split_conj; vm_compute; reflexivity. Qed.

(** ** Column resolution through a join *)

(** C2 (the code departs from it): on [TestModel JOIN Order], a field of
    the left relation alone is reported unknown (the right lookup
    decides), a field of both resolves to the column of the right
    relation, and a field of the right relation alone resolves to the
    empty name without an error; each side on its own resolves as
    expected.  In general, whenever the left lookup succeeds the result
    is that of the right lookup. *)
Theorem C2_join_resolution_returns_right_side_and_swallows_left_failure :
  colName testBuilder (TRTable (TableOf testModel)) "Age" = OK "age" /\
  colName testBuilder (TRTable (TableOf testModel)) "Id" = OK "id" /\
  colName testBuilder (TRTable (TableOf orderModel)) "Id" = OK "order_id" /\
  colName testBuilder (TRTable (TableOf orderModel)) "UserId" = OK "user_id" /\
  colName testBuilder (TRJoin userOrders) "Age" = Err (ErrUnknownField "Age") /\
  colName testBuilder (TRJoin userOrders) "Id" = OK "order_id" /\
  colName testBuilder (TRJoin userOrders) "UserId" = OK "" /\
  (forall (b : builder) (left_ right_ : TableReference) (typ : string)
          (on : list Predicate) (using_ : list string) (fd n : string),
     colName b left_ fd = OK n ->
     colName b (TRJoin (mkJoin left_ right_ typ on using_)) fd
     = colName b right_ fd).
Proof.
  by_evaluation.
  intros b left_ right_ typ on using_ fd n H.
  unfold colName in *. simpl. now rewrite H.
Qed.

(** ** Upsert clauses *)

(** C4 (the code departs from it): both dialects compile the single
    self-reference of the specification's example, and a computed
    assignment that comes last; but the branch of a computed assignment
    returns from the loop, so whatever follows it in the list is neither
    compiled nor, when of an unsupported shape, rejected. *)
Theorem C4_upsert_stops_at_first_computed_assignment :
  buildUpsert MySQL testBuilder nameOnly
  = OK (emit " ON DUPLICATE KEY UPDATE `first_name`=VALUES(`first_name`)" []
          testBuilder) /\
  buildUpsert SQLite3 testBuilder nameOnly
  = OK (emit " ON CONFLICT(`id`) DO UPDATE SET `first_name`=excluded.`first_name`"
          [] testBuilder) /\
  buildUpsert MySQL testBuilder nameThenAge
  = OK (emit " ON DUPLICATE KEY UPDATE `first_name`=VALUES(`first_name`),`age`=?"
          [AInt 1] testBuilder) /\
  buildUpsert MySQL testBuilder ageThenName
  = OK (emit " ON DUPLICATE KEY UPDATE `age`=?" [AInt 1] testBuilder) /\
  buildUpsert SQLite3 testBuilder ageThenName
  = OK (emit " ON CONFLICT(`id`) DO UPDATE SET `age`=?" [AInt 1] testBuilder) /\
  buildUpsert MySQL testBuilder ageThenUnsupported
  = OK (emit " ON DUPLICATE KEY UPDATE `age`=?" [AInt 1] testBuilder) /\
  buildUpsert SQLite3 testBuilder ageThenUnsupported
  = OK (emit " ON CONFLICT(`id`) DO UPDATE SET `age`=?" [AInt 1] testBuilder) /\
  (forall (b : builder) (a : Assignment) (rest : list Assignable) (idx : nat),
     mysqlAssigns idx (AsgAssignment a :: rest) b
     = mysqlAssigns idx [AsgAssignment a] b /\
     sqliteAssigns idx (AsgAssignment a :: rest) b
     = sqliteAssigns idx [AsgAssignment a] b).
Proof.
  by_evaluation. intros b a rest idx. split; reflexivity.
Qed.

(** ** The builders of a column *)

(** C7 (the code departs from it): [As] keeps the name and sets the
    alias, but the copy has no table reference: [t1.C("Id").As("my_id")]
    compiles to the bare column where [t1.C("Id")] compiles to the
    qualified one. *)
Theorem C7_As_drops_the_table_reference :
  c_name (As t1Id "my_id") = c_name t1Id /\
  c_alias (As t1Id "my_id") = "my_id" /\
  c_table t1Id = TRTable (TableAs (TableOf testModel) "t1") /\
  c_table (As t1Id "my_id") = TRNil /\
  buildExpression (EColumn t1Id) testBuilder
  = OK (emit "`t1`.`id`" [] testBuilder) /\
  buildExpression (EColumn (As t1Id "my_id")) testBuilder
  = OK (emit "`id`" [] testBuilder) /\
  (forall (c : Column) (alias : string), c_table (As c alias) = TRNil).
Proof. split_conj; vm_compute; reflexivity. Qed.

(** C8 (the code departs from it): the multiplication builder of a
    column produces the same MathExpr as its addition builder, operator
    [+], and compiles to a sum; the multiplication builder of a MathExpr
    produces [*]. *)
Theorem C8_Column_Multi_builds_an_addition :
  (forall (c : Column) (delta : Z),
     Multi c delta = Add c delta /\ be_op (Multi c delta) = "+") /\
  buildExpression (EMath (Multi (C "Age") 2)) testBuilder
  = OK (emit "`age` + ?" [AInt 2] testBuilder) /\
  be_op (MathMulti (Add (C "Age") 1) (AInt 3)) = "*" /\
  buildExpression (EMath (MathMulti (Add (C "Age") 1) (AInt 3))) testBuilder
  = OK (emit "(`age` + ?) * ?" [AInt 1; AInt 3] testBuilder).
Proof. by_evaluation. intros c delta. split; reflexivity. Qed.

(** ** The execution pipeline *)

(** C5: when the statement builds and the query runs, a fetch-one over a
    cursor that yields no row returns [ErrNoRows]; a fetch-many over a
    cursor that yields no row and reports no error returns the empty
    slice and no error; and a fetch-many whose rows all materialize but
    whose cursor reports an error afterwards returns that error and no
    slice. *)
Theorem C5_zero_rows_and_iteration_errors :
  forall (T Row W : Type) (entT : Entity) (sess : session Row)
         (c : core T Row W) (qc : QueryContext) (q : Query) (rs : Rows Row),
    Build (Builder qc) = OK q ->
    queryContext sess (SQL q) (Args q) = OK rs ->
    (rows rs = [] -> getHandler entT sess c qc = failed ErrNoRows) /\
    (rows rs = [] -> rowsErr rs = None ->
     getMultiHandler entT sess c qc
     = {| qr_Result := PMany []; qr_Err := None |}) /\
    (forall (err : error) (results : list T),
       getMultiRows entT c (rows rs) [] = inr results ->
       rowsErr rs = Some err ->
       getMultiHandler entT sess c qc = failed err).
Proof.
  intros T Row W entT sess c qc q rs Hq Hrs.
  unfold getHandler, getMultiHandler. rewrite Hq, Hrs.
  split; [|split].
  - now intros ->.
  - intros -> ->. reflexivity.
  - intros err results -> ->. reflexivity.
Qed.

Lemma C5_witness :
  (rows {| rows := @nil (list any); rowsErr := None |} = [] ->
   getHandler testModel emptySession (plainCore unit []) rawContext
   = failed ErrNoRows) /\
  (rows {| rows := @nil (list any); rowsErr := None |} = [] ->
   rowsErr {| rows := @nil (list any); rowsErr := None |} = None ->
   getMultiHandler testModel emptySession (plainCore unit []) rawContext
   = {| qr_Result := PMany []; qr_Err := None |}) /\
  (forall (err : error) (results : list any),
     getMultiRows testModel (plainCore unit [])
       (rows {| rows := @nil (list any); rowsErr := None |}) [] = inr results ->
     rowsErr {| rows := @nil (list any); rowsErr := None |} = Some err ->
     getMultiHandler testModel emptySession (plainCore unit []) rawContext
     = failed err).
Proof.
  apply (C5_zero_rows_and_iteration_errors any (list any) unit testModel
           emptySession (plainCore unit []) rawContext
           {| SQL := "SELECT * FROM `test_model`;"; Args := [] |}
           {| rows := []; rowsErr := None |}); reflexivity.
Defined.

Lemma wrap_take {T W : Type} (ms : list (Middleware T W)) (n : nat) :
  forall handler : HandleFunc T W,
    n <= List.length ms -> wrap n ms handler = chain (take n ms) handler.
Proof.
  induction n as [|i IH]; intros handler Hn; [reflexivity|].
  simpl. destruct (ms !! i) as [m|] eqn:Hm.
  - rewrite IH by lia. rewrite (take_S_r ms i m Hm).
    unfold chain. now rewrite foldr_app.
  - apply lookup_ge_None in Hm. unfold Middleware in *. exfalso. lia.
Qed.

Lemma wrap_chain {T W : Type} (ms : list (Middleware T W))
    (handler : HandleFunc T W) :
  wrap (List.length ms) ms handler = chain ms handler.
Proof. rewrite wrap_take by lia. now rewrite firstn_all. Qed.

Lemma chain_around {T W : Type} (obs : list ((W -> W) * (W -> W)))
    (inner : HandleFunc T W) (qc : QueryContext) :
  forall w : W,
    chain (map (fun p => around (fst p) (snd p)) obs) inner qc w
    = (fst (inner qc (fold_left (fun acc p => fst p acc) obs w)),
       foldr (fun p acc => snd p acc)
         (snd (inner qc (fold_left (fun acc p => fst p acc) obs w))) obs).
Proof.
  induction obs as [|[before after] obs IH]; intros w.
  - simpl. now destruct (inner qc w).
  - change (chain (map (fun p => around (fst p) (snd p))
                     ((before, after) :: obs)) inner qc w)
      with (around before after
              (chain (map (fun p => around (fst p) (snd p)) obs) inner) qc w).
    unfold around. rewrite IH. reflexivity.
Qed.

(** What [exec] makes of the result of its chain. *)
Lemma exec_chain {T Row W : Type} (sess : session Row) (c : core T Row W)
    (qc : QueryContext) (w : W) :
  exec sess c qc w
  = (let (qr, w') :=
       chain (ms c) (fun qc w => (execHandler sess qc, w)) qc w in
     (execResult qr, w')).
Proof.
  unfold exec. rewrite wrap_chain.
  destruct (chain (ms c) _ qc w) as [qr w'].
  unfold execResult. now destruct (qr_Result qr).
Qed.

(** C6: [get], [getMulti] and [exec] run the chain in which the
    first-registered middleware is the outermost one, around their
    innermost handler.  When the registered middleware are observers,
    each with an action before and an action after the call it wraps,
    the actions before run in registration order, then the innermost
    handler, then the actions after in reverse registration order. *)
Theorem C6_first_registered_middleware_is_outermost :
  forall (T Row W : Type) (entT : Entity) (sess : session Row)
         (c : core T Row W) (qc : QueryContext) (w : W),
    get entT c sess qc w
    = chain (ms c) (fun qc w => (getHandler entT sess c qc, w)) qc w /\
    getMulti entT c sess qc w
    = chain (ms c) (fun qc w => (getMultiHandler entT sess c qc, w)) qc w /\
    exec sess c qc w
    = (let (qr, w') :=
         chain (ms c) (fun qc w => (execHandler sess qc, w)) qc w in
       (execResult qr, w')) /\
    (forall m rest, ms c = m :: rest ->
       get entT c sess qc w
       = m (chain rest (fun qc w => (getHandler entT sess c qc, w))) qc w) /\
    (forall obs : list ((W -> W) * (W -> W)),
       ms c = map (fun p => around (fst p) (snd p)) obs ->
       get entT c sess qc w
       = (getHandler entT sess c qc,
          foldr (fun p acc => snd p acc)
            (fold_left (fun acc p => fst p acc) obs w) obs) /\
       exec sess c qc w
       = (execResult (execHandler (T:=T) sess qc),
          foldr (fun p acc => snd p acc)
            (fold_left (fun acc p => fst p acc) obs w) obs)).
Proof.
  intros T Row W entT sess c qc w.
  split; [|split; [|split; [|split]]].
  - unfold get. now rewrite wrap_chain.
  - unfold getMulti. now rewrite wrap_chain.
  - apply exec_chain.
  - intros m rest Hms. unfold get. now rewrite wrap_chain, Hms.
  - intros obs Hms. split.
    + unfold get. rewrite wrap_chain, Hms, chain_around. reflexivity.
    + rewrite exec_chain, Hms, chain_around. reflexivity.
Qed.

Lemma C6_witness :
  let c := plainCore (list string)
             (map (fun p => around (fst p) (snd p))
                [logging "A"; logging "B"]) in
  get testModel c emptySession rawContext []
  = (getHandler testModel emptySession c rawContext,
     ["A in"; "B in"; "B out"; "A out"]) /\
  exec emptySession c rawContext []
  = (OK {| res_err := None;
           res := Some {| lastInsertId := 0; rowsAffected := 0 |} |},
     ["A in"; "B in"; "B out"; "A out"]).
Proof.
  exact (proj2 (proj2 (proj2 (proj2
           (C6_first_registered_middleware_is_outermost any (list any)
              (list string) testModel emptySession
              (plainCore (list string)
                 (map (fun p => around (fst p) (snd p))
                    [logging "A"; logging "B"]))
              rawContext []))))
           [logging "A"; logging "B"] eq_refl).
Defined.

(** ** The DELETE builder *)

Lemma dEmit_nil (d : Deleter) : dEmit "" [] d = d.
Proof. destruct d. unfold dEmit. simpl. now rewrite append_nil_r, app_nil_r. Qed.

Lemma dEmit_dEmit (t1 t2 : string) (a1 a2 : list any) (d : Deleter) :
  dEmit t2 a2 (dEmit t1 a1 d) = dEmit (t1 +:+ t2) (a1 ++ a2) d.
Proof. unfold dEmit. simpl. now rewrite append_assoc, <- app_assoc. Qed.

Lemma dWrite_dEmit (s : string) (d : Deleter) : dWrite s d = dEmit s [] d.
Proof. unfold dWrite, dEmit. now rewrite app_nil_r. Qed.

Lemma dAppendArg_dEmit (v : any) (d : Deleter) :
  dAppendArg v d = dEmit "" [v] d.
Proof. unfold dAppendArg, dEmit. now rewrite append_nil_r. Qed.

Ltac demit_eq :=
  rewrite ?dWrite_dEmit, ?dAppendArg_dEmit, ?dEmit_dEmit; simpl; norm_text;
  try reflexivity.

Lemma deleterBuildExpression_out :
  (forall e d,
     deleterBuildExpression e d =
     if deleterSupported e
     then OK (dEmit (deleterText e) (deleterArgs e) d)
     else Err ErrDeleterUnsupported) /\
  (forall m d,
     deleterBuildExpression (EPredicate m) d =
     if deleterSupported (EPredicate m)
     then OK (dEmit (deleterText (EPredicate m)) (deleterArgs (EPredicate m)) d)
     else Err ErrDeleterUnsupported).
Proof.
  apply expression_mutind.
  - intros d. cbn. now rewrite dEmit_nil.
  - intros c d. cbn; f_equal; demit_eq.
  - intros a d. reflexivity.
  - intros v d. cbn; f_equal; demit_eq.
  - intros x d. reflexivity.
  - intros m _ d. reflexivity.
  - intros p Hp. exact Hp.
  - intros s d. reflexivity.
  - intros s d. reflexivity.
  - intros m _ d. reflexivity.
  - intros d. reflexivity.
  - intros left_ Hl o right_ Hr d. cbn. rewrite Hl.
    destruct (deleterSupported left_); cbn; [|reflexivity].
    rewrite Hr. destruct (deleterSupported right_); cbn; [|reflexivity].
    f_equal; demit_eq.
Qed.

Lemma whereSupported_cons (p : Predicate) (rest : list Predicate) :
  whereSupported (p :: rest)
  = deleterSupported (EPredicate p) && whereSupported rest.
Proof. reflexivity. Qed.

Lemma deleterWhere_cons (i : nat) (p : Predicate) (rest : list Predicate)
    (d : Deleter) :
  deleterWhere i (p :: rest) d =
  (x <- deleterBuildExpression (EPredicate p)
          (if (0 <? i)%nat then dWrite " AND " d else d) ;;
   deleterWhere (S i) rest x).
Proof. reflexivity. Qed.

Lemma deleterWhere_out (ps : list Predicate) :
  forall (i : nat) (d : Deleter),
    deleterWhere i ps d =
    if whereSupported ps
    then OK (dEmit ((if (0 <? i)%nat && negb (List.length ps =? 0)%nat
                     then " AND " else "")
                    +:+ Join_ (whereTexts ps) " AND ")
               (whereArgs ps) d)
    else Err ErrDeleterUnsupported.
Proof.
  destruct deleterBuildExpression_out as [_ Hpred].
  induction ps as [|p rest IH]; intros i d.
  - cbn. rewrite andb_false_r. now rewrite dEmit_nil.
  - rewrite deleterWhere_cons, Hpred, whereSupported_cons.
    destruct (deleterSupported (EPredicate p)); [|reflexivity].
    cbn [rbind andb]. rewrite IH.
    destruct (whereSupported rest); [|reflexivity].
    f_equal. unfold whereArgs, whereTexts.
    destruct rest as [|p' rest]; destruct (0 <? i)%nat; cbn;
      rewrite ?dWrite_dEmit, ?dEmit_dEmit; cbn; norm_text; reflexivity.
Qed.

Lemma deleterText_count :
  (forall e,
     deleterBalanced e = true ->
     placeholders (deleterText e) = List.length (deleterArgs e)) /\
  (forall m,
     deleterBalanced (EPredicate m) = true ->
     placeholders (deleterText (EPredicate m))
     = List.length (deleterArgs (EPredicate m))).
Proof.
  apply expression_mutind; try (intros; reflexivity).
  - intros c H. cbn in *. rewrite !placeholders_app. cbn.
    rewrite (clean_placeholders _ H). reflexivity.
  - intros p Hp. exact Hp.
  - intros left_ Hl o right_ Hr H. cbn in H.
    apply andb_prop in H as [H Hright]. apply andb_prop in H as [Hleft Ho].
    cbn. rewrite !placeholders_app, length_app, (Hl Hleft), (Hr Hright),
      (clean_placeholders _ Ho). cbn. lia.
Qed.

Lemma whereTexts_count (ps : list Predicate) :
  forallb (fun p => deleterBalanced (EPredicate p)) ps = true ->
  placeholders (Join_ (whereTexts ps) " AND ") = List.length (whereArgs ps).
Proof.
  destruct deleterText_count as [_ Hpred].
  induction ps as [|p rest IH]; intros H; [reflexivity|].
  cbn [forallb] in H. apply andb_prop in H as [Hp Hrest].
  specialize (IH Hrest). specialize (Hpred p Hp).
  unfold whereArgs, whereTexts in *. cbn [map List.concat].
  rewrite length_app, <- Hpred, <- IH.
  destruct rest as [|p' rest]; cbn [map Join_].
  - cbn. lia.
  - rewrite !placeholders_app. cbn. lia.
Qed.

Lemma DeleterBuild_out (d : Deleter) :
  DeleterBuild d =
  if whereSupported (d_where d)
  then OK {| SQL := d_sb d +:+ "DELETE FROM " +:+ deleterTarget d
                    +:+ (if (0 <? List.length (d_where d))%nat
                         then " WHERE " +:+ Join_ (whereTexts (d_where d)) " AND "
                         else "")
                    +:+ ";";
             Args := d_args d ++ whereArgs (d_where d) |}
  else Err ErrDeleterUnsupported.
Proof.
  unfold DeleterBuild. cbv zeta.
  set (d1 := if String.eqb (d_table (dWrite "DELETE FROM " d)) "" then _ else _).
  assert (Hd1 : d1 = dEmit ("DELETE FROM " +:+ deleterTarget d) [] d).
  { unfold d1, deleterTarget. cbn [d_table dWrite d_T].
    destruct (String.eqb (d_table d) ""); demit_eq. }
  rewrite Hd1. cbn [d_where dEmit].
  destruct (d_where d) as [|p ps] eqn:Hw.
  - cbn. f_equal. f_equal; norm_text; reflexivity.
  - assert (Hpos : (0 <? List.length (p :: ps))%nat = true) by reflexivity.
    rewrite Hpos, dWrite_dEmit, dEmit_dEmit, deleterWhere_out.
    destruct (whereSupported (p :: ps)); [|reflexivity].
    cbn [rbind]. rewrite dWrite_dEmit, dEmit_dEmit. cbn [d_sb d_args dEmit].
    f_equal. f_equal; cbn; norm_text; reflexivity.
Qed.

Lemma DeleterBuild_balanced (d : Deleter) (q : Query) :
  placeholders (d_sb d) = List.length (d_args d) ->
  balancedDeleter d = true ->
  DeleterBuild d = OK q ->
  placeholders (SQL q) = List.length (Args q).
Proof.
  intros Hstate Hbal H. rewrite DeleterBuild_out in H.
  destruct (whereSupported (d_where d)); [|discriminate].
  injection H as <-. cbn [SQL Args].
  unfold balancedDeleter in Hbal. apply andb_prop in Hbal as [Ht Hw].
  apply whereTexts_count in Hw.
  assert (Htarget : placeholders (deleterTarget d) = 0).
  { unfold deleterTarget. destruct (String.eqb (d_table d) "").
    - rewrite !placeholders_app, (clean_placeholders _ Ht). reflexivity.
    - now apply clean_placeholders. }
  rewrite !placeholders_app, length_app, Hstate, Htarget.
  destruct (0 <? List.length (d_where d))%nat eqn:Hlen.
  - rewrite placeholders_app, Hw. cbn. lia.
  - apply Nat.ltb_ge in Hlen.
    destruct (d_where d); [cbn; lia | cbn in Hlen; lia].
Qed.

(** C10: with at least two WHERE predicates, [Build] succeeds exactly
    when every predicate is made of columns, values and predicates only,
    and fails otherwise; on success the statement is [DELETE FROM], the
    table, [ WHERE ], the texts of the predicates joined by [ AND ] and a
    semicolon, where the text of a predicate is its left operand, the
    operator and its right operand with no parentheses around a nested
    predicate, and the arguments are the values in that order. *)
Theorem C10_deleter_joins_predicates_without_parentheses :
  forall d : Deleter,
    2 <= List.length (d_where d) ->
    DeleterBuild d =
    if whereSupported (d_where d)
    then OK {| SQL := d_sb d +:+ "DELETE FROM " +:+ deleterTarget d
                      +:+ " WHERE "
                      +:+ Join_ (whereTexts (d_where d)) " AND " +:+ ";";
               Args := d_args d ++ whereArgs (d_where d) |}
    else Err ErrDeleterUnsupported.
Proof.
  intros d Hlen. rewrite DeleterBuild_out.
  assert (Hpos : (0 <? List.length (d_where d))%nat = true).
  { apply Nat.ltb_lt. lia. }
  rewrite Hpos. destruct (whereSupported (d_where d)); [|reflexivity].
  f_equal; f_equal; norm_text; reflexivity.
Qed.

Lemma C10_witness :
  DeleterBuild deleteExample =
  if whereSupported (d_where deleteExample)
  then OK {| SQL := d_sb deleteExample +:+ "DELETE FROM "
                    +:+ deleterTarget deleteExample +:+ " WHERE "
                    +:+ Join_ (whereTexts (d_where deleteExample)) " AND "
                    +:+ ";";
             Args := d_args deleteExample ++ whereArgs (d_where deleteExample) |}
  else Err ErrDeleterUnsupported.
Proof.
  apply (C10_deleter_joins_predicates_without_parentheses deleteExample).
  vm_compute. lia.
Defined.

Example deleter_and_compiler_differ :
  DeleterBuild deleteExample
  = OK {| SQL := "DELETE FROM `TestModel` WHERE `Age` > ? AND `Age` < ? AND `Id` = ?;";
          Args := [AInt 2; AInt 7; AInt 1] |} /\
  buildPredicates (d_where deleteExample) testBuilder
  = OK (emit "((`age` > ?) AND (`age` < ?)) AND (`id` = ?)"
          [AInt 2; AInt 7; AInt 1] testBuilder).
Proof. split; vm_compute; reflexivity. Qed.

(** ** Statements grow in balance *)

Lemma grows_refl (b : builder) : grows b b.
Proof. exists "", []. split; [now rewrite emit_nil | reflexivity]. Qed.

Lemma grows_emit (t : string) (a : list any) (b : builder) :
  placeholders t = List.length a -> grows b (emit t a b).
Proof. intros H. now exists t, a. Qed.

Lemma grows_trans (b1 b2 b3 : builder) :
  grows b1 b2 -> grows b2 b3 -> grows b1 b3.
Proof.
  intros (t1 & a1 & -> & H1) (t2 & a2 & -> & H2).
  exists (t1 +:+ t2), (a1 ++ a2). split; [apply emit_emit|].
  rewrite placeholders_app, length_app. lia.
Qed.

Lemma grows_state (b b' : builder) :
  grows b b' -> balancedState b -> balancedState b'.
Proof.
  intros (t & a & -> & H) Hb. unfold balancedState in *. simpl.
  rewrite placeholders_app, length_app. lia.
Qed.

Lemma grows_quoter (b b' : builder) : grows b b' -> quoter b' = quoter b.
Proof. now intros (t & a & -> & _). Qed.

Lemma grows_r (b b' : builder) : grows b b' -> r b' = r b.
Proof. now intros (t & a & -> & _). Qed.

Lemma grows_model (b b' : builder) : grows b b' -> model b' = model b.
Proof. now intros (t & a & -> & _). Qed.

Lemma grows_WriteString (s : string) (b : builder) :
  placeholders s = 0 -> grows b (WriteString s b).
Proof. intros H. rewrite WriteString_emit. now apply grows_emit. Qed.

Lemma grows_WriteByte (c : ascii) (b : builder) :
  c <> "?"%char -> grows b (WriteByte c b).
Proof.
  intros H. apply grows_WriteString. simpl.
  destruct (Ascii.eqb c "?") eqn:E; [apply Ascii.eqb_eq in E; contradiction|].
  reflexivity.
Qed.

Lemma grows_placeholder (v : any) (b : builder) :
  grows b (addArgs [v] (WriteByte "?" b)).
Proof.
  rewrite addArgs_emit, WriteByte_emit, emit_emit. now apply grows_emit.
Qed.

Lemma grows_quote (name : string) (b : builder) :
  quoter b <> "?"%char -> clean name = true -> grows b (quote name b).
Proof.
  intros Hq Hn. rewrite quote_emit. apply grows_emit.
  rewrite placeholders_quoted by assumption. now apply clean_placeholders.
Qed.

Lemma grows_buildAs (alias : string) (b : builder) :
  quoter b <> "?"%char -> clean alias = true -> grows b (buildAs alias b).
Proof.
  intros Hq Ha. rewrite buildAs_emit. apply grows_emit.
  destruct (String.eqb alias ""); [reflexivity|].
  rewrite placeholders_app, placeholders_quoted by assumption.
  now rewrite (clean_placeholders alias Ha).
Qed.

(** Transport along [grows]: the registry, the model and the quote
    character stay. *)
Ltac grows_env H :=
  rewrite ?(grows_quoter _ _ H), ?(grows_r _ _ H), ?(grows_model _ _ H).

Lemma buildExpression_grows (e : Expression) (b b' : builder) :
  quoter b <> "?"%char -> balancedIn (r b) (model b) e = true ->
  buildExpression e b = OK b' -> grows b b'.
Proof.
  intros Hq Hbal H. destruct compiler_balanced as [Hexp _].
  destruct (Hexp e b b' Hq Hbal H) as (t & -> & Ht). now apply grows_emit.
Qed.

Lemma buildColumn_grows (table : TableReference) (fd : string)
    (b b' : builder) :
  quoter b <> "?"%char -> balancedColumn (r b) (model b) table fd = true ->
  buildColumn table fd b = OK b' -> grows b b'.
Proof.
  intros Hq Hbal H.
  destruct (balancedColumn_count b b' table fd Hq Hbal H) as (t & -> & Ht).
  now apply grows_emit.
Qed.

Lemma buildPredicates_grows (ps : list Predicate) (b b' : builder) :
  quoter b <> "?"%char -> balancedPredicates (r b) (model b) ps = true ->
  buildPredicates ps b = OK b' -> grows b b'.
Proof.
  destruct ps as [|p0 rest]; [discriminate|].
  intros Hq Hbal H. now apply (buildExpression_grows _ b b' Hq Hbal).
Qed.

Lemma selectColumn_grows (c : Column) (useAlias : bool) (b b' : builder) :
  quoter b <> "?"%char ->
  balancedColumn (r b) (model b) (c_table c) (c_name c) = true ->
  (useAlias = true -> clean (c_alias c) = true) ->
  selectColumn c useAlias b = OK b' -> grows b b'.
Proof.
  intros Hq Hbal Ha H. unfold selectColumn in H.
  destruct (buildColumn (c_table c) (c_name c) b) as [b1|e] eqn:H1;
    simpl in H; [|discriminate].
  injection H as <-.
  apply (buildColumn_grows _ _ b b1 Hq Hbal) in H1.
  eapply grows_trans; [exact H1|].
  destruct useAlias; [|apply grows_refl].
  apply grows_buildAs; [now grows_env H1 | now apply Ha].
Qed.

Lemma buildAggregate_grows (a : Aggregate) (useAlias : bool) (b b' : builder) :
  quoter b <> "?"%char ->
  match a with
  | mkAggregate fn arg t alias =>
      clean fn && balancedColumn (r b) (model b) t arg
      && (if useAlias then clean alias else true)
  end = true ->
  buildAggregate a useAlias b = OK b' -> grows b b'.
Proof.
  destruct a as [fn arg t alias]. intros Hq Hbal H.
  apply andb_prop in Hbal as [Hbal Halias].
  apply andb_prop in Hbal as [Hfn Hcol].
  unfold buildAggregate in H.
  set (b0 := WriteByte "(" (WriteString fn b)) in H.
  assert (H0 : grows b b0).
  { eapply grows_trans; [|now apply grows_WriteByte].
    apply grows_WriteString. now apply clean_placeholders. }
  destruct (buildColumn t arg b0) as [b1|e] eqn:H1; simpl in H; [|discriminate].
  injection H as <-.
  apply (buildColumn_grows t arg) in H1; [|exact Hq|exact Hcol].
  eapply grows_trans; [exact H0|]. eapply grows_trans; [exact H1|].
  assert (Hq1 : quoter b1 <> "?"%char) by now grows_env H1.
  destruct useAlias.
  - eapply grows_trans; [|now apply grows_buildAs].
    now apply grows_WriteByte.
  - now apply grows_WriteByte.
Qed.

Lemma rangeComma_grows {A : Type} (body : A -> builder -> result builder)
    (ok : A -> registry -> option Model -> bool) :
  (forall x b b',
     quoter b <> "?"%char -> ok x (r b) (model b) = true ->
     body x b = OK b' -> grows b b') ->
  forall (xs : list A) (i : nat) (b b' : builder),
    quoter b <> "?"%char ->
    forallb (fun x => ok x (r b) (model b)) xs = true ->
    rangeComma body i xs b = OK b' -> grows b b'.
Proof.
  intros Hbody. induction xs as [|x rest IH]; intros i b b' Hq Hbal H.
  - injection H as <-. apply grows_refl.
  - simpl in Hbal. apply andb_prop in Hbal as [Hx Hrest].
    simpl in H.
    set (b0 := if (0 <? i)%nat then WriteByte "," b else b) in H.
    assert (H0 : grows b b0).
    { unfold b0. destruct (0 <? i)%nat; [now apply grows_WriteByte|].
      apply grows_refl. }
    destruct (body x b0) as [b1|e] eqn:H1; simpl in H; [|discriminate].
    apply Hbody in H1; [| now grows_env H0 | now grows_env H0].
    eapply grows_trans; [exact H0|]. eapply grows_trans; [exact H1|].
    apply (IH (S i) b1 b'); [| |exact H].
    + grows_env H1. now grows_env H0.
    + grows_env H1. grows_env H0. exact Hrest.
Qed.

Lemma selectOne_grows (c : Selectable) (b b' : builder) :
  quoter b <> "?"%char -> balancedSelectable (r b) (model b) c = true ->
  selectOne c b = OK b' -> grows b b'.
Proof.
  intros Hq Hc H. destruct c as [[t n a]|[fn arg t a]|x|]; simpl in H.
  - simpl in Hc. apply andb_prop in Hc as [Hcol Ha].
    apply (selectColumn_grows (mkColumn t n a) true b b' Hq);
      [exact Hcol | now intros _ | exact H].
  - now apply (buildAggregate_grows (mkAggregate fn arg t a) true b b' Hq).
  - injection H as <-. rewrite buildRaw_emit. apply grows_emit.
    simpl in Hc. now apply Nat.eqb_eq in Hc.
  - discriminate.
Qed.

Lemma buildColumns_grows (cols : list Selectable) (b b' : builder) :
  quoter b <> "?"%char ->
  forallb (balancedSelectable (r b) (model b)) cols = true ->
  buildColumns cols b = OK b' -> grows b b'.
Proof.
  intros Hq Hbal H. unfold buildColumns in H.
  destruct (List.length cols =? 0)%nat.
  - injection H as <-. now apply grows_WriteByte.
  - apply (rangeComma_grows selectOne
             (fun c reg md => balancedSelectable reg md c)
             selectOne_grows cols 0 b b' Hq Hbal H).
Qed.

Lemma usingColumns_grows (cols : list string) (b b' : builder) :
  quoter b <> "?"%char ->
  forallb (balancedColumn (r b) (model b) TRNil) cols = true ->
  usingColumns cols b = OK b' -> grows b b'.
Proof.
  intros Hq Hbal H.
  apply (rangeComma_grows _ (fun col reg md => balancedColumn reg md TRNil col))
    in H; [exact H| |exact Hq|exact Hbal].
  intros col b0 b1 Hq0 Hc H1.
  apply (selectColumn_grows (mkColumn TRNil col "") false b0 b1 Hq0);
    [exact Hc | discriminate | exact H1].
Qed.

Lemma groupByColumns_grows (cols : list Column) (b b' : builder) :
  quoter b <> "?"%char ->
  forallb (fun c => balancedColumn (r b) (model b) (c_table c) (c_name c)) cols
  = true ->
  groupByColumns cols b = OK b' -> grows b b'.
Proof.
  intros Hq Hbal H.
  apply (rangeComma_grows _
           (fun c reg md => balancedColumn reg md (c_table c) (c_name c)))
    in H; [exact H| |exact Hq|exact Hbal].
  intros c b0 b1 Hq0 Hc H1.
  apply (selectColumn_grows c false b0 b1 Hq0);
    [exact Hc | discriminate | exact H1].
Qed.

Lemma buildSubquery_grows (tab : Subquery) (useAlias : bool) (b b' : builder) :
  quoter b <> "?"%char ->
  balancedSubquery tab = true ->
  (useAlias = true -> clean (sq_alias tab) = true) ->
  buildSubquery tab useAlias b = OK b' -> grows b b'.
Proof.
  destruct tab as [s cols alias tbl]. intros Hq Hbal Ha H.
  unfold buildSubquery in H. simpl in Hbal, Ha.
  destruct (Build s) as [q|e]; simpl in H; [|discriminate].
  destruct (String.eqb (SQL q) ""); [discriminate|].
  injection H as <-. apply Nat.eqb_eq in Hbal.
  set (b1 := WriteByte " " (WriteByte ")" _)).
  assert (H1 : grows b b1).
  { unfold b1. exists ("(" +:+ dropLast (SQL q) +:+ ") "), (Args q). split.
    - rewrite !WriteByte_emit, WriteString_emit.
      destruct (Args q) as [|v vs]; simpl; rewrite ?addArgs_emit; emit_eq.
    - rewrite !placeholders_app. simpl. lia. }
  destruct useAlias; [|exact H1].
  eapply grows_trans; [exact H1|].
  assert (Hq1 : quoter b1 <> "?"%char) by now grows_env H1.
  eapply grows_trans; [|apply grows_quote; [exact Hq1 | now apply Ha]].
  now apply grows_WriteString.
Qed.

Scheme TableReference_join_ind := Induction for TableReference Sort Prop
  with Join_table_ind := Induction for Join Sort Prop.
Combined Scheme table_mutind from TableReference_join_ind, Join_table_ind.

Lemma buildTable_grows :
  (forall table b b',
     quoter b <> "?"%char -> balancedTable (r b) (model b) table = true ->
     buildTable table b = OK b' -> grows b b') /\
  (forall j b b',
     quoter b <> "?"%char -> balancedJoin (r b) (model b) j = true ->
     buildJoin j b = OK b' -> grows b b').
Proof.
  apply table_mutind.
  - intros b b' Hq Hbal H. simpl in H, Hbal.
    destruct (model b) as [m|]; [|discriminate].
    injection H as <-. now apply grows_quote.
  - intros tab b b' Hq Hbal H. simpl in H, Hbal.
    apply andb_prop in Hbal as [Ha Hm].
    destruct (getModel (r b) (entity tab)) as [m|e]; simpl in H; [|discriminate].
    injection H as <-.
    assert (H1 : grows b (quote (TableName m) b)) by now apply grows_quote.
    destruct (negb (String.eqb (t_alias tab) "")); [|exact H1].
    eapply grows_trans; [exact H1|].
    eapply grows_trans; [|now apply grows_quote].
    now apply grows_WriteString.
  - intros j Hj b b' Hq Hbal H. now apply (Hj b b').
  - intros s b b' Hq Hbal H. simpl in H, Hbal.
    apply andb_prop in Hbal as [Hs Ha].
    apply (buildSubquery_grows s true b b' Hq Hs); [now intros _ | exact H].
  - intros alias b b' _ _ H. discriminate.
  - intros left_ Hl right_ Hr typ on using_ b b' Hq Hbal H.
    simpl in Hbal.
    apply andb_prop in Hbal as [Hbal Hon].
    apply andb_prop in Hbal as [Hbal Husing].
    apply andb_prop in Hbal as [Hbal Hright].
    apply andb_prop in Hbal as [Hleft Htyp].
    simpl in H.
    set (b0 := WriteByte "(" b) in H.
    assert (G0 : grows b b0) by now apply grows_WriteByte.
    destruct (buildTable left_ b0) as [b1|e] eqn:H1; simpl in H; [|discriminate].
    apply Hl in H1; [|exact Hq|exact Hleft].
    set (b2 := WriteString " " (WriteString typ (WriteString " " b1))) in H.
    assert (G2 : grows b1 b2).
    { unfold b2. eapply grows_trans; [|now apply grows_WriteString].
      eapply grows_trans; [|apply grows_WriteString; now apply clean_placeholders].
      now apply grows_WriteString. }
    assert (G02 : grows b b2).
    { eapply grows_trans; [exact G0|]. eapply grows_trans; [exact H1|]. exact G2. }
    destruct (buildTable right_ b2) as [b3|e] eqn:H3; simpl in H; [|discriminate].
    apply Hr in H3; [| now grows_env G02 | now grows_env G02].
    assert (G03 : grows b b3) by (eapply grows_trans; [exact G02|exact H3]).
    destruct (if (0 <? List.length using_)%nat
              then b4 <- usingColumns using_ (WriteString " USING (" b3) ;;
                   OK (WriteString ")" b4)
              else OK b3) as [b5|e] eqn:H5; simpl in H; [|discriminate].
    assert (G35 : grows b3 b5).
    { destruct (0 <? List.length using_)%nat; [|injection H5 as <-; apply grows_refl].
      set (b3' := WriteString " USING (" b3) in H5.
      assert (G3' : grows b3 b3') by now apply grows_WriteString.
      destruct (usingColumns using_ b3') as [b4|e] eqn:H4; simpl in H5;
        [|discriminate].
      injection H5 as <-.
      apply usingColumns_grows in H4.
      - eapply grows_trans; [exact G3'|]. eapply grows_trans; [exact H4|].
        now apply grows_WriteString.
      - grows_env G3'. now grows_env G03.
      - grows_env G3'. grows_env G03. exact Husing. }
    assert (G05 : grows b b5) by (eapply grows_trans; [exact G03|exact G35]).
    destruct (if (0 <? List.length on)%nat
              then buildPredicates on (WriteString " ON " b5)
              else OK b5) as [b6|e] eqn:H6; simpl in H; [|discriminate].
    injection H as <-.
    assert (G56 : grows b5 b6).
    { destruct (0 <? List.length on)%nat; [|injection H6 as <-; apply grows_refl].
      set (b5' := WriteString " ON " b5) in H6.
      assert (G5' : grows b5 b5') by now apply grows_WriteString.
      apply buildPredicates_grows in H6.
      - eapply grows_trans; [exact G5'|exact H6].
      - grows_env G5'. now grows_env G05.
      - grows_env G5'. grows_env G05. exact Hon. }
    eapply grows_trans; [exact G05|]. eapply grows_trans; [exact G56|].
    now apply grows_WriteByte.
Qed.

(** An optional clause: a keyword, then what [f] writes. *)
Lemma clause_grows (present : bool) (kw : string)
    (f : builder -> result builder) (b b' : builder) :
  placeholders kw = 0 ->
  (forall b0 b1, grows b b0 -> f b0 = OK b1 -> grows b0 b1) ->
  (if present then f (WriteString kw b) else OK b) = OK b' ->
  grows b b'.
Proof.
  intros Hkw Hf H. destruct present; [|injection H as <-; apply grows_refl].
  assert (H0 : grows b (WriteString kw b)) by now apply grows_WriteString.
  eapply grows_trans; [exact H0|]. now apply Hf.
Qed.

Lemma SelectorBuild_balanced (s : Selector) (q : Query) :
  quoter (s_builder s) <> "?"%char ->
  balancedState (s_builder s) ->
  balancedSelector s = true ->
  SelectorBuild s = OK q ->
  placeholders (SQL q) = List.length (Args q).
Proof.
  intros Hq Hstate Hbal H. unfold SelectorBuild in H. unfold balancedSelector in Hbal.
  destruct (getModel (r (s_builder s)) (s_T s)) as [m|e]; simpl in H;
    [|discriminate].
  cbv zeta in Hbal.
  apply andb_prop in Hbal as [Hbal Hhaving].
  apply andb_prop in Hbal as [Hbal Hgroup].
  apply andb_prop in Hbal as [Hbal Hwhere].
  apply andb_prop in Hbal as [Hcols Htable].
  set (b0 := setModel m (s_builder s)) in H.
  assert (Hq0 : quoter b0 <> "?"%char) by exact Hq.
  assert (Hs0 : balancedState b0) by exact Hstate.
  change (r (s_builder s)) with (r b0) in *.
  change (Some m) with (model b0) in *.
  clearbody b0. clear Hq Hstate.
  set (b1 := WriteString "SELECT " b0) in H.
  assert (G1 : grows b0 b1) by now apply grows_WriteString.
  destruct (buildColumns (s_columns s) b1) as [b2|e] eqn:H2; simpl in H;
    [|discriminate].
  apply buildColumns_grows in H2; [|exact Hq0|exact Hcols].
  assert (G2 : grows b0 b2) by (eapply grows_trans; [exact G1|exact H2]).
  set (b3 := WriteString " FROM " b2) in H.
  assert (G3 : grows b0 b3).
  { eapply grows_trans; [exact G2|]. now apply grows_WriteString. }
  destruct (buildTable (s_table s) b3) as [b4|e] eqn:H4; simpl in H;
    [|discriminate].
  destruct buildTable_grows as [Htab _].
  apply Htab in H4; [| now grows_env G3 | now grows_env G3].
  assert (G4 : grows b0 b4) by (eapply grows_trans; [exact G3|exact H4]).
  destruct (if (0 <? List.length (s_where s))%nat
            then buildPredicates (s_where s) (WriteString " WHERE " b4)
            else OK b4) as [b5|e] eqn:H5; simpl in H; [|discriminate].
  apply (clause_grows _ " WHERE " (buildPredicates (s_where s))) in H5;
    [|reflexivity|].
  2:{ intros x y Gx Hx. apply buildPredicates_grows in Hx; [exact Hx| |].
      - grows_env Gx. now grows_env G4.
      - grows_env Gx. grows_env G4. exact Hwhere. }
  assert (G5 : grows b0 b5) by (eapply grows_trans; [exact G4|exact H5]).
  destruct (if (0 <? List.length (s_groupBy s))%nat
            then groupByColumns (s_groupBy s) (WriteString " GROUP BY " b5)
            else OK b5) as [b6|e] eqn:H6; simpl in H; [|discriminate].
  apply (clause_grows _ " GROUP BY " (groupByColumns (s_groupBy s))) in H6;
    [|reflexivity|].
  2:{ intros x y Gx Hx. apply groupByColumns_grows in Hx; [exact Hx| |].
      - grows_env Gx. now grows_env G5.
      - grows_env Gx. grows_env G5. exact Hgroup. }
  assert (G6 : grows b0 b6) by (eapply grows_trans; [exact G5|exact H6]).
  destruct (if (0 <? List.length (s_having s))%nat
            then buildPredicates (s_having s) (WriteString " HAVING " b6)
            else OK b6) as [b7|e] eqn:H7; simpl in H; [|discriminate].
  apply (clause_grows _ " HAVING " (buildPredicates (s_having s))) in H7;
    [|reflexivity|].
  2:{ intros x y Gx Hx. apply buildPredicates_grows in Hx; [exact Hx| |].
      - grows_env Gx. now grows_env G6.
      - grows_env Gx. grows_env G6. exact Hhaving. }
  assert (G7 : grows b0 b7) by (eapply grows_trans; [exact G6|exact H7]).
  injection H as <-. simpl.
  set (b8 := if (0 <? s_limit s)%Z then _ else b7).
  assert (G8 : grows b7 b8).
  { unfold b8. destruct (0 <? s_limit s)%Z; [|apply grows_refl].
    rewrite addArgs_emit, WriteString_emit, emit_emit. now apply grows_emit. }
  set (b9 := if (0 <? s_offset s)%Z then _ else b8).
  assert (G9 : grows b8 b9).
  { unfold b9. destruct (0 <? s_offset s)%Z; [|apply grows_refl].
    rewrite addArgs_emit, WriteString_emit, emit_emit. now apply grows_emit. }
  assert (G : grows b0 (WriteString ";" b9)).
  { eapply grows_trans; [exact G7|]. eapply grows_trans; [exact G8|].
    eapply grows_trans; [exact G9|]. now apply grows_WriteString. }
  exact (grows_state _ _ G Hs0).
Qed.

Lemma buildAssignment_grows (assign : Assignment) (b b' : builder) :
  quoter b <> "?"%char ->
  balancedColumn (r b) (model b) TRNil (column assign)
  && balancedIn (r b) (model b) (a_val assign) = true ->
  buildAssignment assign b = OK b' -> grows b b'.
Proof.
  intros Hq Hbal H. apply andb_prop in Hbal as [Hcol Hval].
  unfold buildAssignment in H.
  destruct (buildColumn TRNil (column assign) b) as [b1|e] eqn:H1; simpl in H;
    [|discriminate].
  apply buildColumn_grows in H1; [|exact Hq|exact Hcol].
  set (b2 := WriteByte "=" b1) in H.
  assert (G2 : grows b b2).
  { eapply grows_trans; [exact H1|]. now apply grows_WriteByte. }
  apply buildExpression_grows in H; [| now grows_env G2 | now grows_env G2].
  eapply grows_trans; [exact G2|exact H].
Qed.

Lemma updateOne_grows (field : string -> result any) (a : Assignable)
    (b b' : builder) :
  quoter b <> "?"%char -> balancedAssignable (r b) (model b) a = true ->
  updateOne field a b = OK b' -> grows b b'.
Proof.
  intros Hq Hbal H. destruct a as [c|x|x|]; simpl in H; try discriminate.
  - simpl in Hbal.
    destruct (buildColumn (c_table c) (c_name c) b) as [b1|e] eqn:H1;
      simpl in H; [|discriminate].
    apply buildColumn_grows in H1; [|exact Hq|exact Hbal].
    destruct (field (c_name c)) as [arg|e]; simpl in H; [|discriminate].
    injection H as <-.
    eapply grows_trans; [exact H1|].
    rewrite addArgs_emit, WriteString_emit, emit_emit. now apply grows_emit.
  - now apply (buildAssignment_grows x b b' Hq).
Qed.

Lemma UpdaterBuild_balanced (u : Updater) (q : Query) :
  quoter (u_builder u) <> "?"%char ->
  balancedState (u_builder u) ->
  balancedUpdater u = true ->
  UpdaterBuild u = OK q ->
  placeholders (SQL q) = List.length (Args q).
Proof.
  intros Hq Hstate Hbal H. unfold UpdaterBuild in H.
  unfold balancedUpdater in Hbal.
  destruct (List.length (u_assigns u) =? 0)%nat; [discriminate|].
  destruct (getModel (r (u_builder u)) (u_T u)) as [m|e]; simpl in H;
    [|discriminate].
  cbv zeta in Hbal.
  apply andb_prop in Hbal as [Hbal Hwhere].
  apply andb_prop in Hbal as [Hname Hassigns].
  set (field := u_Field u m) in H. clearbody field.
  set (tn := TableName m) in *. clearbody tn.
  set (b0 := setModel m (u_builder u)) in H.
  assert (Hq0 : quoter b0 <> "?"%char) by exact Hq.
  assert (Hs0 : balancedState b0) by exact Hstate.
  change (r (u_builder u)) with (r b0) in *.
  change (Some m) with (model b0) in *.
  clearbody b0. clear Hq Hstate.
  set (b1 := WriteString " SET " (quote tn (WriteString "UPDATE " b0))) in H.
  assert (G1 : grows b0 b1).
  { unfold b1. eapply grows_trans; [|now apply grows_WriteString].
    eapply grows_trans; [|now apply grows_quote].
    now apply grows_WriteString. }
  destruct (updateAssigns field (u_assigns u) b1) as [b2|e] eqn:H2;
    simpl in H; [|discriminate].
  apply (rangeComma_grows (updateOne field)
           (fun a reg md => balancedAssignable reg md a)
           (updateOne_grows field)) in H2;
    [| now grows_env G1 | grows_env G1; exact Hassigns].
  assert (G2 : grows b0 b2) by (eapply grows_trans; [exact G1|exact H2]).
  destruct (if (0 <? List.length (u_where u))%nat
            then buildPredicates (u_where u) (WriteString " WHERE " b2)
            else OK b2) as [b3|e] eqn:H3; simpl in H; [|discriminate].
  apply (clause_grows _ " WHERE " (buildPredicates (u_where u))) in H3;
    [|reflexivity|].
  2:{ intros x y Gx Hx. apply buildPredicates_grows in Hx; [exact Hx| |].
      - grows_env Gx. now grows_env G2.
      - grows_env Gx. grows_env G2. exact Hwhere. }
  injection H as <-. simpl.
  assert (G : grows b0 (WriteByte ";" b3)).
  { eapply grows_trans; [exact G2|]. eapply grows_trans; [exact H3|].
    now apply grows_WriteByte. }
  exact (grows_state _ _ G Hs0).
Qed.

Lemma mysqlAssigns_grows (assigns : list Assignable) :
  forall (idx : nat) (b b' : builder),
    quoter b <> "?"%char ->
    forallb (balancedUpsertAssign (r b) (model b)) assigns = true ->
    mysqlAssigns idx assigns b = OK b' -> grows b b'.
Proof.
  induction assigns as [|a rest IH]; intros idx b b' Hq Hbal H.
  - injection H as <-. apply grows_refl.
  - simpl in Hbal. apply andb_prop in Hbal as [Ha Hrest]. simpl in H.
    set (b0 := if (0 <? idx)%nat then WriteByte "," b else b) in H.
    assert (G0 : grows b b0).
    { unfold b0. destruct (0 <? idx)%nat; [now apply grows_WriteByte|].
      apply grows_refl. }
    assert (Hq0 : quoter b0 <> "?"%char) by now grows_env G0.
    eapply grows_trans; [exact G0|].
    destruct a as [c|x|x|]; try discriminate.
    + simpl in Ha. unfold cleanColName in Ha.
      change (colName b0 (c_table c) (c_name c))
        with (colNameIn (r b0) (model b0) (c_table c) (c_name c)) in H.
      rewrite (grows_r _ _ G0), (grows_model _ _ G0) in H.
      destruct (colNameIn (r b) (model b) (c_table c) (c_name c)) as [n|e];
        simpl in H; [|discriminate].
      set (b1 := WriteByte ")" (quote n (WriteString "=VALUES(" (quote n b0)))) in H.
      assert (G1 : grows b0 b1).
      { unfold b1. eapply grows_trans; [|now apply grows_WriteByte].
        eapply grows_trans; [|now apply grows_quote].
        eapply grows_trans; [|now apply grows_WriteString].
        now apply grows_quote. }
      eapply grows_trans; [exact G1|].
      apply (IH (S idx) b1 b'); [| |exact H].
      * grows_env G1. exact Hq0.
      * grows_env G1. grows_env G0. exact Hrest.
    + simpl in Ha. apply andb_prop in Ha as [Hcol Hval].
      destruct (buildColumn TRNil (column x) b0) as [b1|e] eqn:H1; simpl in H;
        [|discriminate].
      apply buildColumn_grows in H1; [|exact Hq0|now grows_env G0].
      set (b2 := WriteString "=" b1) in H.
      assert (G2 : grows b0 b2).
      { eapply grows_trans; [exact H1|]. now apply grows_WriteString. }
      apply buildExpression_grows in H.
      * eapply grows_trans; [exact G2|exact H].
      * grows_env G2. exact Hq0.
      * grows_env G2. grows_env G0. exact Hval.
Qed.

Lemma sqliteAssigns_grows (assigns : list Assignable) :
  forall (idx : nat) (b b' : builder),
    quoter b <> "?"%char ->
    forallb (balancedUpsertAssign (r b) (model b)) assigns = true ->
    sqliteAssigns idx assigns b = OK b' -> grows b b'.
Proof.
  induction assigns as [|a rest IH]; intros idx b b' Hq Hbal H.
  - injection H as <-. apply grows_refl.
  - simpl in Hbal. apply andb_prop in Hbal as [Ha Hrest]. simpl in H.
    set (b0 := if (0 <? idx)%nat then WriteByte "," b else b) in H.
    assert (G0 : grows b b0).
    { unfold b0. destruct (0 <? idx)%nat; [now apply grows_WriteByte|].
      apply grows_refl. }
    assert (Hq0 : quoter b0 <> "?"%char) by now grows_env G0.
    eapply grows_trans; [exact G0|].
    destruct a as [c|x|x|]; try discriminate.
    + simpl in Ha. unfold cleanColName in Ha.
      change (colName b0 (c_table c) (c_name c))
        with (colNameIn (r b0) (model b0) (c_table c) (c_name c)) in H.
      rewrite (grows_r _ _ G0), (grows_model _ _ G0) in H.
      destruct (colNameIn (r b) (model b) (c_table c) (c_name c)) as [n|e];
        simpl in H; [|discriminate].
      set (b1 := quote n (WriteString "=excluded." (quote n b0))) in H.
      assert (G1 : grows b0 b1).
      { unfold b1. eapply grows_trans; [|now apply grows_quote].
        eapply grows_trans; [|now apply grows_WriteString].
        now apply grows_quote. }
      eapply grows_trans; [exact G1|].
      apply (IH (S idx) b1 b'); [| |exact H].
      * grows_env G1. exact Hq0.
      * grows_env G1. grows_env G0. exact Hrest.
    + simpl in Ha. apply andb_prop in Ha as [Hcol Hval].
      destruct (buildColumn TRNil (column x) b0) as [b1|e] eqn:H1; simpl in H;
        [|discriminate].
      apply buildColumn_grows in H1; [|exact Hq0|now grows_env G0].
      set (b2 := WriteString "=" b1) in H.
      assert (G2 : grows b0 b2).
      { eapply grows_trans; [exact H1|]. now apply grows_WriteString. }
      apply buildExpression_grows in H.
      * eapply grows_trans; [exact G2|exact H].
      * grows_env G2. exact Hq0.
      * grows_env G2. grows_env G0. exact Hval.
Qed.

Lemma buildUpsert_grows (d : Dialect) (odk : Upsert) (b b' : builder) :
  quoter b <> "?"%char ->
  balancedUpsert (r b) (model b) odk = true ->
  buildUpsert d b odk = OK b' -> grows b b'.
Proof.
  intros Hq Hbal H. unfold balancedUpsert in Hbal.
  apply andb_prop in Hbal as [Hconf Hassigns].
  destruct d; simpl in H; [discriminate| |].
  - set (b0 := WriteString " ON DUPLICATE KEY UPDATE " b) in H.
    assert (G0 : grows b b0) by now apply grows_WriteString.
    eapply grows_trans; [exact G0|].
    now apply (mysqlAssigns_grows (assigns odk) 0 b0 b').
  - set (b0 := WriteString " ON CONFLICT" b) in H.
    assert (G0 : grows b b0) by now apply grows_WriteString.
    destruct (if (0 <? List.length (conflictColumns odk))%nat
              then x <- conflictCols (conflictColumns odk) (WriteByte "(" b0) ;;
                   OK (WriteByte ")" x)
              else OK b0) as [b1|e] eqn:H1; simpl in H; [|discriminate].
    assert (G1 : grows b0 b1).
    { destruct (0 <? List.length (conflictColumns odk))%nat;
        [|injection H1 as <-; apply grows_refl].
      set (b0' := WriteByte "(" b0) in H1.
      assert (G0' : grows b0 b0') by now apply grows_WriteByte.
      destruct (conflictCols (conflictColumns odk) b0') as [x|e] eqn:Hx;
        simpl in H1; [|discriminate].
      injection H1 as <-.
      apply (rangeComma_grows _
               (fun col reg md => balancedColumn reg md TRNil col)) in Hx.
      - eapply grows_trans; [exact G0'|]. eapply grows_trans; [exact Hx|].
        now apply grows_WriteByte.
      - intros col x0 x1 Hq0 Hc Hb. now apply (buildColumn_grows TRNil col).
      - exact Hq.
      - exact Hconf. }
    set (b2 := WriteString " DO UPDATE SET " b1) in H.
    assert (G2 : grows b b2).
    { eapply grows_trans; [exact G0|]. eapply grows_trans; [exact G1|].
      now apply grows_WriteString. }
    eapply grows_trans; [exact G2|].
    apply (sqliteAssigns_grows (assigns odk) 0 b2 b'); [| |exact H].
    + now grows_env G2.
    + grows_env G2. exact Hassigns.
Qed.

Lemma insertRow_grows (field : string -> result any) (fields : list Field)
    (b b' : builder) :
  quoter b <> "?"%char -> insertRow field fields b = OK b' -> grows b b'.
Proof.
  intros Hq H.
  apply (rangeComma_grows _ (fun _ _ _ => true)) in H; [exact H| |exact Hq|].
  - intros fd x y _ _ Hx. cbv beta zeta in Hx.
    destruct (field (GoName fd)) as [v|e]; simpl in Hx; [|discriminate].
    injection Hx as <-. apply grows_placeholder.
  - now apply forallb_forall.
Qed.

Lemma insertRows_grows (m : Model) (fields : list Field)
    (values : list (Model -> string -> result any)) (b b' : builder) :
  quoter b <> "?"%char -> insertRows m fields values b = OK b' -> grows b b'.
Proof.
  intros Hq H.
  apply (rangeComma_grows _ (fun _ _ _ => true)) in H; [exact H| |exact Hq|].
  - intros v x y Hqx _ Hx. cbv beta zeta in Hx.
    set (x0 := WriteByte "(" x) in Hx.
    assert (G0 : grows x x0) by now apply grows_WriteByte.
    destruct (insertRow (v m) fields x0) as [x1|e] eqn:H1; simpl in Hx;
      [|discriminate].
    injection Hx as <-.
    apply insertRow_grows in H1; [|now grows_env G0].
    eapply grows_trans; [exact G0|]. eapply grows_trans; [exact H1|].
    now apply grows_WriteByte.
  - now apply forallb_forall.
Qed.

Lemma InserterBuild_balanced (i : Inserter) (q : Query) :
  quoter (i_builder i) <> "?"%char ->
  placeholders (sb (i_builder i)) = 0 ->
  balancedInserter i = true ->
  InserterBuild i = OK q ->
  placeholders (SQL q) = List.length (Args q).
Proof.
  intros Hq Hstate Hbal H. unfold InserterBuild in H.
  unfold balancedInserter in Hbal.
  destruct (List.length (i_values i) =? 0)%nat; [discriminate|].
  destruct (getModel (r (i_builder i)) (i_T i)) as [m|e]; simpl in H;
    [|discriminate].
  cbv zeta in Hbal.
  apply andb_prop in Hbal as [Hbal Hupsert].
  apply andb_prop in Hbal as [Hname Hfields].
  destruct (if negb (List.length (i_columns i) =? 0)%nat
            then insertFields m (i_columns i) []
            else OK (Fields m)) as [fields|e]; simpl in H; [|discriminate].
  set (b2 := setArgs [] _) in H.
  assert (Hq2 : quoter b2 <> "?"%char) by exact Hq.
  assert (Hs2 : balancedState b2).
  { unfold balancedState, b2. cbn [sb args setArgs].
    rewrite !WriteString_emit, quote_emit, !emit_emit. cbn [sb emit setModel].
    rewrite !placeholders_app, placeholders_quoted by exact Hq.
    rewrite (clean_placeholders _ Hname), Hstate. reflexivity. }
  assert (Hr2 : r b2 = r (i_builder i)) by reflexivity.
  assert (Hm2 : model b2 = Some m) by reflexivity.
  rewrite <- Hr2, <- Hm2 in Hupsert.
  clearbody b2. clear Hq Hstate Hr2 Hm2.
  destruct (insertColumnNames fields b2) as [b3|e] eqn:H3; simpl in H;
    [|discriminate].
  apply (rangeComma_grows _ (fun fd _ _ => clean (ColName fd))) in H3;
    [| |exact Hq2|exact Hfields].
  2:{ intros fd x y Hqx Hc Hx. injection Hx as <-. now apply grows_quote. }
  set (b4 := WriteString ") VALUES" b3) in H.
  assert (G4 : grows b2 b4).
  { eapply grows_trans; [exact H3|]. now apply grows_WriteString. }
  destruct (insertRows m fields (i_values i) b4) as [b5|e] eqn:H5; simpl in H;
    [|discriminate].
  apply insertRows_grows in H5; [|now grows_env G4].
  assert (G5 : grows b2 b5) by (eapply grows_trans; [exact G4|exact H5]).
  destruct (match i_upsert i with
            | Some odk => buildUpsert (dialect b5) b5 odk
            | None => OK b5
            end) as [b6|e] eqn:H6; simpl in H; [|discriminate].
  injection H as <-. simpl.
  assert (G6 : grows b5 b6).
  { destruct (i_upsert i) as [odk|]; [|injection H6 as <-; apply grows_refl].
    apply buildUpsert_grows in H6; [exact H6| |].
    - now grows_env G5.
    - grows_env G5. exact Hupsert. }
  assert (G : grows b2 (WriteString ";" b6)).
  { eapply grows_trans; [exact G5|]. eapply grows_trans; [exact G6|].
    now apply grows_WriteString. }
  exact (grows_state _ _ G Hs2).
Qed.

(** ** The statements as sequences of pieces *)

Lemma render_app (ps qs : list piece) :
  render (ps ++ qs) = render ps +:+ render qs.
Proof.
  induction ps as [|p ps IH]; [reflexivity|].
  simpl. now rewrite IH, append_assoc.
Qed.

Lemma bound_app (ps qs : list piece) : bound (ps ++ qs) = bound ps ++ bound qs.
Proof.
  induction ps as [|p ps IH]; [reflexivity|].
  simpl. now rewrite IH, app_assoc.
Qed.

Lemma envOf_emit (t : string) (a : list any) (b : builder) :
  envOf (emit t a b) = envOf b.
Proof. reflexivity. Qed.

Lemma quoter_emit (t : string) (a : list any) (b : builder) :
  quoter (emit t a b) = quoter b.
Proof. reflexivity. Qed.

Ltac pieces_eq :=
  cbn [rbind]; try apply (f_equal (@OK builder));
  rewrite ?quoter_emit, ?emit_emit, ?render_app, ?bound_app;
  cbn [render bound pieceText pieceArgs quotedIn envOf e_quoter app];
  rewrite ?render_app, ?bound_app;
  cbn [render bound pieceText pieceArgs quotedIn envOf e_quoter app];
  norm_text; try reflexivity.

Lemma buildColumn_pieces (table : TableReference) (fd : string) :
  writes (buildColumn table fd) (fun en => columnPieces en table fd).
Proof.
  intros b. unfold buildColumn, columnPieces, resolve, colName. cbn [envOf e_r e_model].
  destruct (String.eqb (tableAlias table) "") eqn:Ha; cbn [negb].
  - destruct (colNameIn (r b) (model b) table fd) as [n|e]; [|reflexivity].
    cbn [rbind]. rewrite quote_emit. pieces_eq.
  - rewrite WriteByte_emit, quote_emit, emit_emit.
    change (r (emit _ _ b)) with (r b). change (model (emit _ _ b)) with (model b).
    destruct (colNameIn (r b) (model b) table fd) as [n|e]; [|reflexivity].
    cbn [rbind]. rewrite quote_emit. pieces_eq.
Qed.

Lemma buildAs_pieces (alias : string) (b : builder) :
  buildAs alias b
  = emit (render (asPieces (envOf b) alias)) (bound (asPieces (envOf b) alias)) b.
Proof.
  rewrite buildAs_emit. unfold asPieces.
  destruct (String.eqb alias ""); pieces_eq.
Qed.

Lemma buildAggregate_pieces (a : Aggregate) (useAlias : bool) :
  writes (buildAggregate a useAlias) (fun en => aggregatePieces en a useAlias).
Proof.
  intros b. destruct a as [fn arg table alias].
  unfold buildAggregate, aggregatePieces.
  rewrite WriteByte_emit, WriteString_emit, emit_emit.
  rewrite (buildColumn_pieces table arg (emit _ _ b)), envOf_emit.
  destruct (columnPieces (envOf b) table arg) as [c|e]; [|reflexivity].
  cbn [rbind]. rewrite WriteByte_emit.
  destruct useAlias.
  - rewrite buildAs_pieces, !envOf_emit. pieces_eq.
  - pieces_eq.
Qed.

Lemma buildSubquery_pieces (tab : Subquery) (useAlias : bool) :
  writes (buildSubquery tab useAlias) (fun en => subqueryPieces en tab useAlias).
Proof.
  intros b. destruct tab as [s cols alias tbl].
  unfold buildSubquery, subqueryPieces.
  destruct (Build s) as [q|e]; [|reflexivity]. cbn [rbind].
  destruct (String.eqb (SQL q) ""); [reflexivity|].
  assert (Hargs : (if (0 <? List.length (Args q))%nat
                   then addArgs (Args q)
                          (WriteString (dropLast (SQL q)) (WriteByte "(" b))
                   else WriteString (dropLast (SQL q)) (WriteByte "(" b))
                  = emit ("(" +:+ dropLast (SQL q)) (Args q) b).
  { destruct (Args q) as [|x xs]; simpl;
      rewrite ?addArgs_emit, WriteString_emit, WriteByte_emit; emit_eq. }
  rewrite Hargs. rewrite !WriteByte_emit.
  destruct useAlias.
  - rewrite quote_emit, WriteString_emit. pieces_eq.
  - pieces_eq.
Qed.

Lemma buildSubExpr_pieces (e : Expression) :
  writes (buildExpression e) (fun en => exprPieces en e) ->
  writes (buildSubExpr e)
    (fun en => ps <- exprPieces en e ;; OK (operandPieces e ps)).
Proof.
  intros He b. unfold operandPieces.
  destruct (asBinary e) as [m|] eqn:Hm.
  - rewrite (buildSubExpr_binary e m b Hm), WriteByte_emit.
    rewrite <- (buildExpression_binary e m _ Hm), He, envOf_emit.
    destruct (exprPieces (envOf b) e) as [ps|err]; [|reflexivity].
    cbn [rbind]. rewrite WriteByte_emit. pieces_eq.
  - rewrite (buildSubExpr_leaf e b Hm), He.
    destruct (exprPieces (envOf b) e) as [ps|err]; reflexivity.
Qed.

Lemma compiler_pieces :
  (forall e, writes (buildExpression e) (fun en => exprPieces en e)) /\
  (forall m, writes (buildBinaryExpr m) (fun en => binaryPieces en m)).
Proof.
  apply expression_mutind.
  - intros b. simpl. now rewrite emit_nil.
  - intros c. apply buildColumn_pieces.
  - intros a. apply buildAggregate_pieces.
  - intros v b. simpl. rewrite addArgs_emit, WriteByte_emit. pieces_eq.
  - intros x b. simpl. rewrite buildRaw_emit. pieces_eq.
  - intros m Hm. exact Hm.
  - intros m Hm. exact Hm.
  - intros [s pred] b. cbn [buildExpression exprPieces].
    rewrite WriteByte_emit, WriteString_emit, emit_emit.
    rewrite (buildSubquery_pieces s false (emit _ _ b)), envOf_emit.
    destruct (subqueryPieces (envOf b) s false) as [ps|err]; [|reflexivity].
    cbn [rbind]. pieces_eq.
  - intros s. apply buildSubquery_pieces.
  - intros m Hm. exact Hm.
  - intros b. reflexivity.
  - intros left_ Hl o right_ Hr b.
    rewrite buildBinaryExpr_eq. cbn [binaryPieces].
    rewrite (buildSubExpr_pieces left_ Hl b).
    destruct (exprPieces (envOf b) left_) as [pl|err]; [|reflexivity].
    cbn [rbind].
    assert (Hop : forall x,
              (if negb (String.eqb o "") then WriteString o (WriteByte " " x)
               else x)
              = emit (render (if String.eqb o "" then []
                              else [Text " "; Text o]))
                  (bound (if String.eqb o "" then []
                          else [Text " "; Text o])) x).
    { intros x. destruct (String.eqb o ""); cbn [negb].
      - now rewrite emit_nil.
      - rewrite WriteString_emit, WriteByte_emit. pieces_eq. }
    rewrite Hop, emit_emit.
    destruct (isNil right_) eqn:Hnil; cbn [negb].
    + destruct right_; try discriminate. cbn [exprPieces rbind].
      pieces_eq.
    + rewrite WriteByte_emit, emit_emit.
      rewrite (buildSubExpr_pieces right_ Hr (emit _ _ b)), envOf_emit.
      destruct (exprPieces (envOf b) right_) as [pr|err]; [|reflexivity].
      cbn [rbind]. pieces_eq.
Qed.

Lemma buildPredicates_pieces (ps : list Predicate) :
  writes (buildPredicates ps) (fun en => predicatesPieces en ps).
Proof.
  intros b. destruct ps as [|p0 rest]; [reflexivity|].
  apply (proj2 compiler_pieces).
Qed.

Lemma rangeComma_pieces {A : Type} (body : A -> builder -> result builder)
    (item : env -> A -> result (list piece)) :
  (forall x, writes (body x) (fun en => item en x)) ->
  forall (xs : list A) (i : nat),
    writes (rangeComma body i xs)
      (fun en => commaPieces (item en) (i =? 0)%nat xs).
Proof.
  intros Hbody xs. induction xs as [|x rest IH]; intros i b.
  - simpl. now rewrite emit_nil.
  - cbn [rangeComma commaPieces].
    assert (Hpre : (if (0 <? i)%nat then WriteByte "," b else b)
                   = emit (render (if (i =? 0)%nat then [] else [Text ","]))
                       [] b).
    { destruct i; simpl; [now rewrite emit_nil|].
      rewrite WriteByte_emit. reflexivity. }
    rewrite Hpre, Hbody, envOf_emit.
    destruct (item (envOf b) x) as [p|err]; [|reflexivity].
    cbn [rbind]. rewrite IH, !envOf_emit.
    change (S i =? 0)%nat with false.
    destruct (commaPieces (item (envOf b)) false rest) as [ps|err];
      [|reflexivity].
    destruct (i =? 0)%nat; pieces_eq.
Qed.

(** *** SELECT *)

Lemma selectColumn_pieces (c : Column) (useAlias : bool) :
  writes (selectColumn c useAlias) (fun en => selectColumnPieces en c useAlias).
Proof.
  intros b. unfold selectColumn, selectColumnPieces.
  rewrite buildColumn_pieces.
  destruct (columnPieces (envOf b) (c_table c) (c_name c)) as [ps|e];
    [|reflexivity].
  cbn [rbind]. destruct useAlias.
  - rewrite buildAs_pieces, envOf_emit. pieces_eq.
  - pieces_eq.
Qed.

Lemma selectOne_pieces (c : Selectable) :
  writes (selectOne c) (fun en => selectablePieces en c).
Proof.
  intros b. destruct c as [v|v|v|a f t]; cbn [selectOne selectablePieces].
  - apply selectColumn_pieces.
  - apply buildAggregate_pieces.
  - rewrite buildRaw_emit. pieces_eq.
  - reflexivity.
Qed.

Lemma buildColumns_pieces (columns : list Selectable) :
  writes (buildColumns columns) (fun en => columnsPieces en columns).
Proof.
  intros b. unfold buildColumns, columnsPieces.
  destruct (List.length columns =? 0)%nat.
  - rewrite WriteByte_emit. pieces_eq.
  - apply (rangeComma_pieces selectOne selectablePieces selectOne_pieces).
Qed.

Lemma clause_pieces (present : bool) (keyword : string)
    (f : builder -> result builder) (fp : env -> result (list piece)) :
  writes f fp ->
  writes (fun b => if present then f (WriteString keyword b) else OK b)
    (fun en => clausePieces present keyword (fp en)).
Proof.
  intros Hf b. unfold clausePieces. destruct present.
  - rewrite WriteString_emit, Hf, envOf_emit.
    destruct (fp (envOf b)) as [ps|e]; [|reflexivity]. pieces_eq.
  - cbn [rbind]. now rewrite emit_nil.
Qed.

Lemma buildTable_pieces :
  (forall table, writes (buildTable table) (fun en => tablePieces en table)) /\
  (forall j, writes (buildJoin j) (fun en => joinPieces en j)).
Proof.
  apply table_mutind.
  - intros b. cbn [buildTable tablePieces envOf e_model].
    destruct (model b) as [m|]; [|reflexivity].
    rewrite quote_emit. pieces_eq.
  - intros tab b. cbn [buildTable tablePieces envOf e_r].
    destruct (getModel (r b) (entity tab)) as [m|e]; [|reflexivity].
    cbn [rbind]. destruct (String.eqb (t_alias tab) ""); cbn [negb].
    + rewrite quote_emit. pieces_eq.
    + rewrite !quote_emit, WriteString_emit. pieces_eq.
  - intros j Hj. exact Hj.
  - intros s. apply buildSubquery_pieces.
  - intros alias b. reflexivity.
  - intros left_ Hl right_ Hr typ on using_ b.
    cbn [buildJoin joinPieces].
    rewrite WriteByte_emit, Hl, envOf_emit.
    destruct (tablePieces (envOf b) left_) as [pl|e]; [|reflexivity].
    cbn [rbind]. rewrite !WriteString_emit, !emit_emit, Hr, envOf_emit.
    destruct (tablePieces (envOf b) right_) as [pr|e]; [|reflexivity].
    cbn [rbind]. rewrite emit_emit.
    assert (Hu : forall x,
              (if (0 <? List.length using_)%nat then
                 b0 <- usingColumns using_ (WriteString " USING (" x) ;;
                 OK (WriteString ")" b0)
               else OK x)
              = (ps <- (if (0 <? List.length using_)%nat then
                          ps <- commaPieces
                                  (fun col => selectColumnPieces (envOf x)
                                                (mkColumn TRNil col "") false)
                                  true using_ ;;
                          OK ([Text " USING ("] ++ ps ++ [Text ")"])
                        else OK []) ;;
                 OK (emit (render ps) (bound ps) x))).
    { intros x. destruct (0 <? List.length using_)%nat.
      - unfold usingColumns. rewrite WriteString_emit.
        rewrite (rangeComma_pieces
                   (fun col b => selectColumn (mkColumn TRNil col "") false b)
                   (fun en col => selectColumnPieces en
                                    (mkColumn TRNil col "") false)
                   (fun col => selectColumn_pieces _ false)), envOf_emit.
        change (0 =? 0)%nat with true.
        destruct (commaPieces _ true using_) as [ps|e]; [|reflexivity].
        cbn [rbind]. rewrite WriteString_emit. pieces_eq.
      - cbn [rbind]. now rewrite emit_nil. }
    rewrite Hu, envOf_emit.
    destruct (if (0 <? List.length using_)%nat then _ else _) as [pu|e];
      [|reflexivity].
    cbn [rbind]. rewrite emit_emit.
    rewrite (clause_pieces (0 <? List.length on)%nat " ON "
               (buildPredicates on) (fun en => predicatesPieces en on)
               (buildPredicates_pieces on)), envOf_emit.
    destruct (clausePieces _ " ON " _) as [po|e]; [|reflexivity].
    cbn [rbind]. rewrite WriteByte_emit. pieces_eq.
Qed.

Lemma pagination_pieces (limit offset : Z) (b : builder) :
  (let b1 := if (0 <? limit)%Z
             then addArgs [AInt limit] (WriteString " LIMIT ?" b) else b in
   if (0 <? offset)%Z
   then addArgs [AInt offset] (WriteString " OFFSET ?" b1) else b1)
  = emit (render (paginationPieces limit offset))
      (bound (paginationPieces limit offset)) b.
Proof.
  unfold paginationPieces. cbn zeta.
  destruct (0 <? limit)%Z, (0 <? offset)%Z;
    rewrite ?addArgs_emit, ?WriteString_emit, ?emit_emit; cbn [app];
    try (now rewrite emit_nil); pieces_eq.
Qed.

Lemma setModel_envOf (m : Model) (b : builder) :
  envOf (setModel m b) = withModel m (envOf b).
Proof. reflexivity. Qed.

Lemma SelectorBuild_pieces (s : Selector) :
  SelectorBuild s = (ps <- selectorPieces s ;; OK (queryOf ps)).
Proof.
  unfold SelectorBuild, selectorPieces.
  destruct (getModel (r (s_builder s)) (s_T s)) as [m|e]; [|reflexivity].
  cbn [rbind]. set (b0 := setModel m (s_builder s)).
  assert (Hen : envOf b0 = withModel m (envOf (s_builder s))) by reflexivity.
  rewrite <- Hen. rewrite WriteString_emit.
  rewrite buildColumns_pieces, envOf_emit.
  destruct (columnsPieces (envOf b0) (s_columns s)) as [cols|e]; [|reflexivity].
  cbn [rbind]. rewrite WriteString_emit, !emit_emit.
  rewrite (proj1 buildTable_pieces), envOf_emit.
  destruct (tablePieces (envOf b0) (s_table s)) as [tbl|e]; [|reflexivity].
  cbn [rbind]. rewrite emit_emit.
  rewrite (clause_pieces (0 <? List.length (s_where s))%nat " WHERE "
             (buildPredicates (s_where s))
             (fun en => predicatesPieces en (s_where s))
             (buildPredicates_pieces _)), envOf_emit.
  destruct (clausePieces _ " WHERE " _) as [wh|e]; [|reflexivity].
  cbn [rbind]. rewrite emit_emit.
  rewrite (clause_pieces (0 <? List.length (s_groupBy s))%nat " GROUP BY "
             (groupByColumns (s_groupBy s))
             (fun en => commaPieces (fun c => selectColumnPieces en c false)
                          true (s_groupBy s))
             (rangeComma_pieces (fun c b => selectColumn c false b)
                (fun en c => selectColumnPieces en c false)
                (fun c => selectColumn_pieces c false) _ 0)), envOf_emit.
  destruct (clausePieces _ " GROUP BY " _) as [gb|e]; [|reflexivity].
  cbn [rbind]. rewrite emit_emit.
  rewrite (clause_pieces (0 <? List.length (s_having s))%nat " HAVING "
             (buildPredicates (s_having s))
             (fun en => predicatesPieces en (s_having s))
             (buildPredicates_pieces _)), envOf_emit.
  destruct (clausePieces _ " HAVING " _) as [hv|e]; [|reflexivity].
  cbn [rbind]. rewrite emit_emit.
  rewrite (pagination_pieces (s_limit s) (s_offset s)).
  rewrite WriteString_emit, !emit_emit. unfold queryOf.
  cbn [sb args emit]. subst b0. cbn [setModel sb args].
  f_equal; pieces_eq.
Qed.

(** *** UPDATE *)

Lemma updateOne_pieces (field : string -> result any) (a : Assignable) :
  writes (updateOne field a) (fun en => assignPieces en field a).
Proof.
  intros b. destruct a as [c|assign|x|]; cbn [updateOne assignPieces];
    try reflexivity.
  - rewrite buildColumn_pieces.
    destruct (columnPieces (envOf b) (c_table c) (c_name c)) as [ps|e];
      [|reflexivity].
    cbn [rbind]. destruct (field (c_name c)) as [arg|e]; [|reflexivity].
    cbn [rbind]. rewrite addArgs_emit, WriteString_emit. pieces_eq.
  - unfold buildAssignment. rewrite buildColumn_pieces.
    destruct (columnPieces (envOf b) TRNil (column assign)) as [ps|e];
      [|reflexivity].
    cbn [rbind]. rewrite WriteByte_emit, emit_emit.
    rewrite (proj1 compiler_pieces), envOf_emit.
    destruct (exprPieces (envOf b) (a_val assign)) as [pv|e]; [|reflexivity].
    pieces_eq.
Qed.

Lemma UpdaterBuild_pieces (u : Updater) :
  UpdaterBuild u = (ps <- updaterPieces u ;; OK (queryOf ps)).
Proof.
  unfold UpdaterBuild, updaterPieces.
  destruct (List.length (u_assigns u) =? 0)%nat; [reflexivity|].
  destruct (getModel (r (u_builder u)) (u_T u)) as [m|e]; [|reflexivity].
  cbn [rbind]. set (b0 := setModel m (u_builder u)).
  assert (Hen : envOf b0 = withModel m (envOf (u_builder u))) by reflexivity.
  rewrite <- Hen. rewrite !WriteString_emit, quote_emit, !emit_emit.
  unfold updateAssigns.
  rewrite (rangeComma_pieces (updateOne (u_Field u m))
             (fun en => assignPieces en (u_Field u m))
             (updateOne_pieces (u_Field u m))), envOf_emit.
  change (0 =? 0)%nat with true.
  destruct (commaPieces _ true (u_assigns u)) as [set_|e]; [|reflexivity].
  cbn [rbind]. rewrite emit_emit.
  rewrite (clause_pieces (0 <? List.length (u_where u))%nat " WHERE "
             (buildPredicates (u_where u))
             (fun en => predicatesPieces en (u_where u))
             (buildPredicates_pieces _)), envOf_emit.
  destruct (clausePieces _ " WHERE " _) as [wh|e]; [|reflexivity].
  cbn [rbind]. rewrite WriteByte_emit, !emit_emit. unfold queryOf.
  cbn [sb args emit]. subst b0. cbn [setModel sb args quoter].
  f_equal; pieces_eq.
Qed.

(** *** INSERT *)

Lemma resolve_envOf (b : builder) (table : TableReference) (fd : string) :
  colName b table fd = resolve (envOf b) table fd.
Proof. reflexivity. Qed.

Lemma mysqlAssigns_pieces (assigns : list Assignable) :
  forall idx : nat,
    writes (mysqlAssigns idx assigns)
      (fun en => upsertAssignPieces en
                   (fun n => [quotedIn en n; Text "=VALUES("; quotedIn en n;
                              Text ")"])
                   (idx =? 0)%nat assigns).
Proof.
  induction assigns as [|a rest IH]; intros idx b.
  - simpl. now rewrite emit_nil.
  - cbn [mysqlAssigns upsertAssignPieces].
    assert (Hpre : (if (0 <? idx)%nat then WriteByte "," b else b)
                   = emit (render (if (idx =? 0)%nat then [] else [Text ","]))
                       (bound (if (idx =? 0)%nat then [] else [Text ","])) b).
    { destruct idx; simpl; [now rewrite emit_nil|].
      rewrite WriteByte_emit. reflexivity. }
    rewrite Hpre. destruct a as [c|assign|x|]; try reflexivity.
    + rewrite resolve_envOf, envOf_emit.
      destruct (resolve (envOf b) (c_table c) (c_name c)) as [n|e];
        [|reflexivity].
      cbn [rbind]. rewrite !quote_emit, WriteString_emit, WriteByte_emit.
      rewrite !emit_emit, IH, envOf_emit.
      change (S idx =? 0)%nat with false.
      destruct (upsertAssignPieces (envOf b) _ false rest) as [ps|e];
        [|reflexivity].
      pieces_eq.
    + rewrite buildColumn_pieces, envOf_emit.
      destruct (columnPieces (envOf b) TRNil (column assign)) as [pc|e];
        [|reflexivity].
      cbn [rbind]. rewrite WriteString_emit, !emit_emit.
      rewrite (proj1 compiler_pieces), envOf_emit.
      destruct (exprPieces (envOf b) (a_val assign)) as [pv|e]; [|reflexivity].
      pieces_eq.
Qed.

Lemma sqliteAssigns_pieces (assigns : list Assignable) :
  forall idx : nat,
    writes (sqliteAssigns idx assigns)
      (fun en => upsertAssignPieces en
                   (fun n => [quotedIn en n; Text "=excluded.";
                              quotedIn en n])
                   (idx =? 0)%nat assigns).
Proof.
  induction assigns as [|a rest IH]; intros idx b.
  - simpl. now rewrite emit_nil.
  - cbn [sqliteAssigns upsertAssignPieces].
    assert (Hpre : (if (0 <? idx)%nat then WriteByte "," b else b)
                   = emit (render (if (idx =? 0)%nat then [] else [Text ","]))
                       (bound (if (idx =? 0)%nat then [] else [Text ","])) b).
    { destruct idx; simpl; [now rewrite emit_nil|].
      rewrite WriteByte_emit. reflexivity. }
    rewrite Hpre. destruct a as [c|assign|x|]; try reflexivity.
    + rewrite resolve_envOf, envOf_emit.
      destruct (resolve (envOf b) (c_table c) (c_name c)) as [n|e];
        [|reflexivity].
      cbn [rbind]. rewrite !quote_emit, WriteString_emit.
      rewrite !emit_emit, IH, envOf_emit.
      change (S idx =? 0)%nat with false.
      destruct (upsertAssignPieces (envOf b) _ false rest) as [ps|e];
        [|reflexivity].
      pieces_eq.
    + rewrite buildColumn_pieces, envOf_emit.
      destruct (columnPieces (envOf b) TRNil (column assign)) as [pc|e];
        [|reflexivity].
      cbn [rbind]. rewrite WriteString_emit, !emit_emit.
      rewrite (proj1 compiler_pieces), envOf_emit.
      destruct (exprPieces (envOf b) (a_val assign)) as [pv|e]; [|reflexivity].
      pieces_eq.
Qed.

Lemma buildUpsert_pieces (odk : Upsert) (b : builder) :
  buildUpsert (dialect b) b odk
  = (ps <- upsertPieces (envOf b) odk ;;
     OK (emit (render ps) (bound ps) b)).
Proof.
  unfold buildUpsert, upsertPieces. cbn [envOf e_dialect].
  destruct (dialect b); [reflexivity| |].
  - rewrite WriteString_emit, mysqlAssigns_pieces, envOf_emit.
    change (0 =? 0)%nat with true.
    destruct (upsertAssignPieces (envOf b) _ true (assigns odk)) as [ps|e];
      [|reflexivity].
    pieces_eq.
  - rewrite WriteString_emit.
    assert (Hc : (if (0 <? List.length (conflictColumns odk))%nat then
                    b0 <- conflictCols (conflictColumns odk)
                            (WriteByte "(" (emit " ON CONFLICT" [] b)) ;;
                    OK (WriteByte ")" b0)
                  else OK (emit " ON CONFLICT" [] b))
                 = (pc <- (if (0 <? List.length (conflictColumns odk))%nat then
                             ps <- commaPieces
                                     (fun col => columnPieces (envOf b) TRNil col)
                                     true (conflictColumns odk) ;;
                             OK ([Text "("] ++ ps ++ [Text ")"])
                           else OK []) ;;
                    OK (emit (render ([Text " ON CONFLICT"] ++ pc))
                          (bound ([Text " ON CONFLICT"] ++ pc)) b))).
    { destruct (0 <? List.length (conflictColumns odk))%nat.
      - unfold conflictCols. rewrite WriteByte_emit, emit_emit.
        rewrite (rangeComma_pieces (fun col b => buildColumn TRNil col b)
                   (fun en col => columnPieces en TRNil col)
                   (fun col => buildColumn_pieces TRNil col)), envOf_emit.
        change (0 =? 0)%nat with true.
        destruct (commaPieces _ true (conflictColumns odk)) as [ps|e];
          [|reflexivity].
        cbn [rbind]. rewrite WriteByte_emit. pieces_eq.
      - pieces_eq. }
    rewrite Hc. clear Hc.
    destruct (if (0 <? List.length (conflictColumns odk))%nat then _ else _)
      as [pc|e]; [|reflexivity].
    cbn [rbind]. rewrite WriteString_emit, emit_emit.
    rewrite sqliteAssigns_pieces, envOf_emit.
    change (0 =? 0)%nat with true.
    destruct (upsertAssignPieces (envOf b) _ true (assigns odk)) as [ps|e];
      [|reflexivity].
    pieces_eq.
Qed.

Lemma insertRows_pieces (m : Model) (fields : list Field)
    (values : list (Model -> string -> result any)) :
  writes (insertRows m fields values)
    (fun _ => commaPieces (fun v => rowPieces (v m) fields) true values).
Proof.
  unfold insertRows.
  apply (rangeComma_pieces _ (fun _ v => rowPieces (v m) fields)).
  intros v b. unfold rowPieces, insertRow. rewrite WriteByte_emit.
  rewrite (rangeComma_pieces _
             (fun _ fd => x <- v m (GoName fd) ;; OK [Hole x])).
  - change (0 =? 0)%nat with true.
    destruct (commaPieces _ true fields) as [ps|e]; [|reflexivity].
    cbn [rbind]. rewrite WriteByte_emit. pieces_eq.
  - intros fd b0. destruct (v m (GoName fd)) as [x|e]; [|reflexivity].
    cbn [rbind]. rewrite addArgs_emit, WriteByte_emit. pieces_eq.
Qed.

Lemma InserterBuild_pieces (i : Inserter) :
  InserterBuild i = (ps <- inserterPieces i ;; OK (queryOf ps)).
Proof.
  unfold InserterBuild, inserterPieces.
  destruct (List.length (i_values i) =? 0)%nat; [reflexivity|].
  destruct (getModel (r (i_builder i)) (i_T i)) as [m|e]; [|reflexivity].
  cbn [rbind].
  destruct (if negb (List.length (i_columns i) =? 0)%nat then _ else _)
    as [fields|e]; [|reflexivity].
  cbn [rbind].
  set (b0 := setArgs []
               (WriteString "("
                  (quote (TableName m)
                     (WriteString "INSERT INTO "
                        (setModel m (i_builder i)))))).
  assert (Hen : envOf b0 = withModel m (envOf (i_builder i))) by reflexivity.
  rewrite <- Hen. unfold insertColumnNames.
  rewrite (rangeComma_pieces _ (fun en fd => OK [quotedIn en (ColName fd)])).
  2:{ intros fd b. rewrite quote_emit. pieces_eq. }
  change (0 =? 0)%nat with true.
  destruct (commaPieces _ true fields) as [names|e]; [|reflexivity].
  cbn [rbind]. rewrite WriteString_emit, emit_emit.
  rewrite insertRows_pieces.
  destruct (commaPieces _ true (i_values i)) as [rows_|e]; [|reflexivity].
  cbn [rbind]. rewrite emit_emit.
  match goal with |- context [buildUpsert _ ?x _] => set (bx := x) end.
  assert (Hup : match i_upsert i with
                | Some odk => buildUpsert (dialect bx) bx odk
                | None => OK bx
                end
                = (up <- match i_upsert i with
                         | Some odk => upsertPieces (envOf b0) odk
                         | None => OK []
                         end ;;
                   OK (emit (render up) (bound up) bx))).
  { destruct (i_upsert i) as [odk|].
    - now rewrite buildUpsert_pieces.
    - cbn [rbind]. now rewrite emit_nil. }
  rewrite Hup. clear Hup.
  destruct (match i_upsert i with Some odk => _ | None => _ end) as [up|e];
    [|reflexivity].
  cbn [rbind]. subst bx. rewrite WriteString_emit, !emit_emit. unfold queryOf.
  cbn [sb args emit]. subst b0.
  rewrite !WriteString_emit, quote_emit.
  cbn [setArgs setModel sb args quoter emit].
  f_equal; pieces_eq.
Qed.

(** *** DELETE *)

Lemma deleterExprPieces_out :
  (forall e, render (deleterExprPieces e) = deleterText e /\
             bound (deleterExprPieces e) = deleterArgs e) /\
  (forall m, render (deleterExprPieces (EPredicate m))
             = deleterText (EPredicate m) /\
             bound (deleterExprPieces (EPredicate m))
             = deleterArgs (EPredicate m)).
Proof.
  apply expression_mutind; try (intros; split; reflexivity).
  - intros m Hm. exact Hm.
  - intros left_ [Hl1 Hl2] o right_ [Hr1 Hr2].
    cbn [deleterExprPieces deleterText deleterArgs].
    rewrite !render_app, !bound_app, Hl1, Hl2, Hr1, Hr2. split.
    + cbn [render pieceText]. norm_text. reflexivity.
    + reflexivity.
Qed.

Lemma deleterWherePieces_out (ps : list Predicate) :
  forall first : bool,
    render (deleterWherePieces first ps)
    = (if first || (List.length ps =? 0)%nat then "" else " AND ")
      +:+ Join_ (whereTexts ps) " AND " /\
    bound (deleterWherePieces first ps) = whereArgs ps.
Proof.
  induction ps as [|p rest IH]; intros first.
  - split; [|reflexivity]. simpl. now rewrite orb_true_r.
  - cbn [deleterWherePieces].
    destruct (IH false) as [Ht Ha].
    destruct (proj2 deleterExprPieces_out p) as [Hp1 Hp2].
    rewrite !render_app, !bound_app, Ht, Ha, Hp1, Hp2. split.
    + cbn [orb List.length Nat.eqb].
      unfold whereTexts. cbn [map]. fold (whereTexts rest).
      destruct rest as [|p' rest']; destruct first; simpl; norm_text;
        reflexivity.
    + destruct first; reflexivity.
Qed.

Lemma DeleterBuild_pieces (d : Deleter) :
  DeleterBuild d = (ps <- deleterPieces d ;; OK (queryOf ps)).
Proof.
  rewrite DeleterBuild_out. unfold deleterPieces.
  destruct (whereSupported (d_where d)); [|reflexivity].
  cbn [rbind]. unfold queryOf. f_equal.
  destruct (deleterWherePieces_out (d_where d) true) as [Ht Ha].
  destruct (d_where d) as [|p rest] eqn:Hw.
  - simpl. f_equal; norm_text; reflexivity.
  - cbn [List.length Nat.ltb Nat.leb].
    rewrite !render_app, !bound_app, Ht, Ha.
    cbn [render bound pieceText pieceArgs orb app]. f_equal; norm_text;
      reflexivity.
Qed.

(** *** Every statement *)

Lemma BuildStatement_pieces (st : Statement) :
  BuildStatement st = (ps <- statementPieces st ;; OK (queryOf ps)).
Proof.
  destruct st as [s|u|i|d|q]; cbn [BuildStatement statementPieces].
  - apply SelectorBuild_pieces.
  - apply UpdaterBuild_pieces.
  - apply InserterBuild_pieces.
  - apply DeleterBuild_pieces.
  - unfold RawQuerierBuild, queryOf. cbn [rbind render bound pieceText pieceArgs].
    now rewrite append_nil_r, app_nil_r.
Qed.

(** *** Placement *)

Lemma wellPlaced_count (ps : list piece) :
  wellPlacedAll ps = true ->
  placeholders (render ps) = List.length (bound ps).
Proof.
  induction ps as [|p ps IH]; intros H; [reflexivity|].
  simpl in H. apply andb_prop in H as [Hp Hps].
  cbn [render bound]. rewrite placeholders_app, length_app, (IH Hps).
  apply Nat.eqb_eq in Hp. now rewrite Hp.
Qed.

Lemma wellPlacedAll_app (ps qs : list piece) :
  wellPlacedAll (ps ++ qs) = wellPlacedAll ps && wellPlacedAll qs.
Proof. unfold wellPlacedAll. apply forallb_app. Qed.

Lemma wellPlaced_prefix (ps : list piece) (k : nat) :
  wellPlacedAll ps = true ->
  placeholders (render (take k ps)) = List.length (bound (take k ps)).
Proof.
  intros H. apply wellPlaced_count.
  rewrite <- (take_drop k ps), wellPlacedAll_app in H.
  now apply andb_prop in H as [H _].
Qed.

(** C1 (amended): every statement that builds is the sequence of pieces
    the specification describes, and a statement or an expression fails
    exactly when its pieces do: its text is the texts of the pieces in
    order and its arguments are their values in order, where a compiled
    value is a placeholder carrying that value, LIMIT carries the limit
    and OFFSET the offset, [SET col=?] the value of the field, each row
    of an INSERT the values of its fields in order, and a raw expression
    or a subquery is a fragment copied with its own arguments.  When the
    pieces before a placeholder are well placed (no [?] in a text, as
    many [?] as arguments in a fragment), the placeholder written for a
    value is the i-th of the text exactly when the value is the i-th
    argument, and the arguments of a fragment stand at the indices of
    its placeholders.  A statement whose copied texts are balanced, built
    from a builder that holds as many placeholders as arguments, has as
    many placeholders as arguments; an expression binds the values of
    its leaves from left to right. *)
Theorem C1_placeholders_carry_their_arguments :
  (forall st : Statement,
     BuildStatement st = (ps <- statementPieces st ;; OK (queryOf ps))) /\
  (forall (e : Expression) (b : builder),
     buildExpression e b
     = (ps <- exprPieces (envOf b) e ;;
        OK (emit (render ps) (bound ps) b))) /\
  (forall (ps1 ps2 : list piece) (v : any),
     wellPlacedAll ps1 = true ->
     render (ps1 ++ Hole v :: ps2) = render ps1 +:+ "?" +:+ render ps2 /\
     bound (ps1 ++ Hole v :: ps2) = bound ps1 ++ v :: bound ps2 /\
     bound (ps1 ++ Hole v :: ps2) !! placeholders (render ps1) = Some v) /\
  (forall (ps1 ps2 : list piece) (t : string) (a : list any),
     wellPlacedAll ps1 = true ->
     render (ps1 ++ Frag t a :: ps2) = render ps1 +:+ t +:+ render ps2 /\
     bound (ps1 ++ Frag t a :: ps2) = bound ps1 ++ a ++ bound ps2 /\
     take (List.length a)
       (drop (placeholders (render ps1)) (bound (ps1 ++ Frag t a :: ps2)))
     = a) /\
  (forall (ps : list piece) (k : nat),
     wellPlacedAll ps = true ->
     placeholders (render (take k ps)) = List.length (bound (take k ps))) /\
  (forall (st : Statement) (q : Query),
     startsBalanced st ->
     balancedStatement st = true ->
     BuildStatement st = OK q ->
     placeholders (SQL q) = List.length (Args q)) /\
  (forall (b b' : builder) (e : Expression),
     quoter b <> "?"%char ->
     balanced b e = true ->
     buildExpression e b = OK b' ->
     exists t : string,
       sb b' = sb b +:+ t /\
       args b' = args b ++ boundArgs e /\
       placeholders t = List.length (boundArgs e)).
Proof.
  split; [exact BuildStatement_pieces|].
  split; [exact (proj1 compiler_pieces)|].
  split.
  { intros ps1 ps2 v H. rewrite render_app, bound_app.
    cbn [render bound pieceText pieceArgs app]. repeat split.
    rewrite (wellPlaced_count ps1 H).
    now rewrite lookup_app_r, Nat.sub_diag by lia. }
  split.
  { intros ps1 ps2 t a H. rewrite render_app, bound_app.
    cbn [render bound pieceText pieceArgs]. repeat split.
    rewrite (wellPlaced_count ps1 H), drop_app_length.
    now rewrite take_app_length. }
  split; [intros ps k H; now apply wellPlaced_prefix|].
  split.
  - intros [s|u|i|d|x] q Hstart Hbal H; simpl in *.
    + destruct Hstart as [Hq Hs]. now apply (SelectorBuild_balanced s q).
    + destruct Hstart as [Hq Hs]. now apply (UpdaterBuild_balanced u q).
    + destruct Hstart as [Hq Hs]. now apply (InserterBuild_balanced i q).
    + now apply (DeleterBuild_balanced d q).
    + injection H as <-. now apply Nat.eqb_eq in Hbal.
  - intros b b' e Hq Hbal H.
    destruct compiler_balanced as [Hexp _].
    destruct (Hexp e b b' Hq Hbal H) as (t & -> & Ht).
    exists t. repeat split. exact Ht.
Qed.

Lemma C1_witness :
  BuildStatement (SelectOf pagedExample)
  = OK (queryOf [Frag "" []; Text "SELECT "; Text "*"; Text " FROM ";
                 Text "`test_model`"; Text " WHERE "; Text "`age`"; Text " ";
                 Text ">"; Text " "; Hole (AInt 2); Text " LIMIT ";
                 Hole (AInt 10); Text " OFFSET "; Hole (AInt 20); Text ";"]) /\
  queryOf [Frag "" []; Text "SELECT "; Text "*"; Text " FROM ";
           Text "`test_model`"; Text " WHERE "; Text "`age`"; Text " ";
           Text ">"; Text " "; Hole (AInt 2); Text " LIMIT ";
           Hole (AInt 10); Text " OFFSET "; Hole (AInt 20); Text ";"]
  = {| SQL := "SELECT * FROM `test_model` WHERE `age` > ? LIMIT ? OFFSET ?;";
       Args := [AInt 2; AInt 10; AInt 20] |} /\
  [AInt 2; AInt 10; AInt 20]
    !! placeholders "SELECT * FROM `test_model` WHERE `age` > ? LIMIT "
  = Some (AInt 10) /\
  take 1 (drop (placeholders "SELECT * FROM `test_model` WHERE ")
            [AInt 7; AInt 10]) = [AInt 7] /\
  placeholders "SELECT * FROM `test_model` WHERE `age` > ?"
  = List.length [AInt 2] /\
  placeholders "SELECT * FROM `test_model` WHERE (`age` > ?) AND (`age` < ?);"
  = List.length [AInt 2; AInt 7] /\
  exists t : string,
    sb (emit "(`age` > ?) AND (`age` < ?)" [AInt 2; AInt 7] testBuilder)
    = sb testBuilder +:+ t /\
    args (emit "(`age` > ?) AND (`age` < ?)" [AInt 2; AInt 7] testBuilder)
    = args testBuilder
      ++ boundArgs (EPredicate (And (GT (C "Age") (DVal (AInt 2)))
                                    (LT (C "Age") (DVal (AInt 7))))) /\
    placeholders t
    = List.length
        (boundArgs (EPredicate (And (GT (C "Age") (DVal (AInt 2)))
                                    (LT (C "Age") (DVal (AInt 7)))))).
Proof.
  pose proof C1_placeholders_carry_their_arguments
    as (Hst & _ & Hhole & Hfrag & Hpre & Hcount & Hexp).
  split.
  { rewrite (Hst (SelectOf pagedExample)). vm_compute. reflexivity. }
  split; [vm_compute; reflexivity|].
  split.
  { apply (Hhole [Text "SELECT * FROM `test_model` WHERE `age` > ";
                  Hole (AInt 2); Text " LIMIT "]
             [Text " OFFSET "; Hole (AInt 20); Text ";"] (AInt 10)).
    vm_compute. reflexivity. }
  split.
  { apply (Hfrag [Text "SELECT * FROM `test_model` WHERE "]
             [Text " LIMIT "; Hole (AInt 10); Text ";"] "`age` < ?" [AInt 7]).
    vm_compute. reflexivity. }
  split.
  { apply (Hpre [Text "SELECT * FROM `test_model` WHERE `age` > ";
                 Hole (AInt 2); Text " LIMIT "; Hole (AInt 10); Text ";"] 2).
    vm_compute. reflexivity. }
  split.
  - apply (Hcount (SelectOf selectExample)
             {| SQL := "SELECT * FROM `test_model` WHERE (`age` > ?) AND (`age` < ?);";
                Args := [AInt 2; AInt 7] |}).
    + split; [vm_compute; discriminate | vm_compute; reflexivity].
    + vm_compute. reflexivity.
    + vm_compute. reflexivity.
  - apply (Hexp testBuilder
             (emit "(`age` > ?) AND (`age` < ?)" [AInt 2; AInt 7] testBuilder)
             (EPredicate (And (GT (C "Age") (DVal (AInt 2)))
                              (LT (C "Age") (DVal (AInt 7)))))).
    + vm_compute. discriminate.
    + vm_compute. reflexivity.
    + vm_compute. reflexivity.
Defined.

(** C1 as stated fails: a raw fragment is copied as it is, with the
    arguments it was given; a SELECT whose WHERE clause is
    [Raw("`age` < ?").AsPredicate()] builds into a text with one
    placeholder and no argument. *)
Lemma C1_counterexample :
  BuildStatement (SelectOf rawWhereExample)
  = OK {| SQL := "SELECT * FROM `test_model` WHERE `age` < ?;"; Args := [] |} /\
  placeholders "SELECT * FROM `test_model` WHERE `age` < ?;"
  <> List.length ([] : list any).
Proof. split; [vm_compute; reflexivity | vm_compute; discriminate]. Qed.

(** * Further properties of the code *)

(** ** The registry: tags *)

Lemma Split_length (sep : ascii) (s : string) :
  List.length (Split s sep) = S (countChar sep s).
Proof.
  induction s as [|c s IH]; [reflexivity|]. simpl.
  destruct (Ascii.eqb c sep); simpl; [now rewrite IH|].
  destruct (Split s sep) as [|h t]; simpl in *; [discriminate|assumption].
Qed.

Lemma Split_one (sep : ascii) (s : string) :
  countChar sep s = 0 -> Split s sep = [s].
Proof.
  induction s as [|c s IH]; [reflexivity|]. simpl.
  destruct (Ascii.eqb c sep); simpl; [discriminate|].
  intros H. now rewrite (IH H).
Qed.

Lemma Split_two (sep : ascii) (k v : string) :
  countChar sep k = 0 -> countChar sep v = 0 ->
  Split (k +:+ String sep v) sep = [k; v].
Proof.
  intros Hk Hv. induction k as [|c k IH].
  - rewrite append_nil_l. simpl. rewrite Ascii.eqb_refl. now rewrite Split_one.
  - rewrite append_cons. simpl in *.
    destruct (Ascii.eqb c sep); [discriminate|]. now rewrite (IH Hk).
Qed.

Lemma Split_pair (s : string) :
  (exists k v, Split s "=" = [k; v]) <-> countChar "=" s = 1.
Proof.
  pose proof (Split_length "=" s) as Hlen. split.
  - intros (k & v & H). rewrite H in Hlen. simpl in Hlen. lia.
  - intros H. rewrite H in Hlen.
    destruct (Split s "=") as [|k [|v [|x t]]]; simpl in Hlen; try lia.
    now exists k, v.
Qed.

Lemma countChar_app (c : ascii) (s t : string) :
  countChar c (s +:+ t) = countChar c s + countChar c t.
Proof.
  induction s as [|x s IH]; [reflexivity|].
  rewrite append_cons. simpl. rewrite IH. lia.
Qed.

Lemma parsePairs_find (pairs : list string) :
  forall res : gmap string string,
    match find badPair pairs with
    | Some p => parsePairs pairs res = Err (ErrInvalidTagContent p)
    | None => exists tags, parsePairs pairs res = OK tags
    end.
Proof.
  induction pairs as [|p rest IH]; intros res; simpl.
  - now exists res.
  - unfold badPair at 1. destruct (countChar "=" p =? 1)%nat eqn:Hp; simpl.
    + apply Nat.eqb_eq, Split_pair in Hp as (k & v & ->). apply IH.
    + apply Nat.eqb_neq in Hp.
      destruct (Split p "=") as [|k [|v [|x t]]] eqn:Hs; try reflexivity.
      exfalso. apply Hp, Split_pair. now exists k, v.
Qed.

(** X1: a tag that is not empty parses exactly when each of its
    comma-separated pairs holds one [=]; otherwise [parseTag] fails with
    the first pair that does not. *)
Theorem parseTag_reports_the_first_malformed_pair :
  forall tag : string,
    tag <> "" ->
    match find badPair (Split tag ",") with
    | Some p => parseTag tag = Err (ErrInvalidTagContent p)
    | None => exists tags, parseTag tag = OK tags
    end.
Proof.
  intros tag Htag. unfold parseTag.
  destruct (String.eqb tag "") eqn:He.
  - apply String.eqb_eq in He. contradiction.
  - apply parsePairs_find.
Qed.

Lemma parseTag_reports_the_first_malformed_pair_witness :
  parseTag "column=order_id,index" = Err (ErrInvalidTagContent "index").
Proof.
  apply (parseTag_reports_the_first_malformed_pair "column=order_id,index").
  discriminate.
Defined.

Lemma parseTag_column (c : string) :
  c <> "" -> countChar "," c = 0 -> countChar "=" c = 0 ->
  parseTag ("column=" +:+ c) = OK (<[tagKeyColumn := c]> ∅).
Proof.
  intros Hc Hcomma Heq. unfold parseTag.
  change ("column=" +:+ c) with (String "c" ("olumn=" +:+ c)) at 1.
  change (String.eqb (String "c" ("olumn=" +:+ c)) "") with false. cbv iota.
  rewrite (Split_one "," ("column=" +:+ c)).
  - change (parsePairs ["column=" +:+ c] ∅)
      with (match Split ("column" +:+ String "=" c) "=" with
            | [k; v] => parsePairs [] (<[k := v]> ∅)
            | _ => Err (ErrInvalidTagContent ("column=" +:+ c))
            end).
    rewrite (Split_two "=" "column" c); [reflexivity|reflexivity|assumption].
  - rewrite countChar_app. simpl. assumption.
Qed.

(** ** The registry: models *)

Lemma consistent_empty : consistent [] ∅ ∅.
Proof.
  repeat split; intros; try discriminate;
    match goal with H : ∅ !! _ = Some _ |- _ =>
      now rewrite lookup_empty in H end.
Qed.

Lemma consistent_step (fields : list Field) (fm cm : gmap string Field)
    (f : Field) :
  Index f = List.length fields ->
  consistent fields fm cm ->
  consistent (fields ++ [f]) (<[GoName f := f]> fm) (<[ColName f := f]> cm).
Proof.
  intros Hi (Hf & Hfm & Hcm). split; [|split].
  - intros k g H.
    destruct (decide (k = List.length fields)) as [->|Hk].
    + rewrite list_lookup_middle in H by reflexivity. injection H as <-.
      rewrite !lookup_insert_eq. eauto.
    + rewrite lookup_app_l in H
        by (apply lookup_lt_Some in H; rewrite length_app in H;
            simpl in H; lia).
      destruct (Hf k g H) as (Hk1 & Hk2 & Hk3). split; [assumption|]. split.
      * destruct (decide (GoName f = GoName g)) as [->|Hne];
          [rewrite lookup_insert_eq; eauto
          |now rewrite lookup_insert_ne].
      * destruct (decide (ColName f = ColName g)) as [->|Hne];
          [rewrite lookup_insert_eq; eauto
          |now rewrite lookup_insert_ne].
  - intros name g H.
    destruct (decide (GoName f = name)) as [<-|Hne].
    + rewrite lookup_insert_eq in H. injection H as <-.
      split; [reflexivity|]. rewrite Hi. now apply list_lookup_middle.
    + rewrite lookup_insert_ne in H by assumption.
      destruct (Hfm name g H) as [H1 H2].
      split; [assumption|]. now apply lookup_app_l_Some.
  - intros col g H.
    destruct (decide (ColName f = col)) as [<-|Hne].
    + rewrite lookup_insert_eq in H. injection H as <-.
      split; [reflexivity|]. rewrite Hi. now apply list_lookup_middle.
    + rewrite lookup_insert_ne in H by assumption.
      destruct (Hcm col g H) as [H1 H2].
      split; [assumption|]. now apply lookup_app_l_Some.
Qed.

Lemma parseFields_consistent (fds : list StructField) :
  forall i fields fm cm fields' fm' cm',
    i = List.length fields ->
    consistent fields fm cm ->
    parseFields i fds fields fm cm = OK (fields', fm', cm') ->
    consistent fields' fm' cm' /\
    List.length fields' = List.length fields + List.length fds.
Proof.
  induction fds as [|fd rest IH]; intros i fields fm cm fields' fm' cm' Hi Hc H.
  - simpl in H. injection H as <- <- <-. split; [assumption|simpl; lia].
  - simpl in H. destruct (parseTag (sfTag fd)) as [tags|e]; simpl in H;
      [|discriminate].
    apply IH in H as [H1 H2].
    + split; [assumption|]. rewrite H2, length_app. simpl. lia.
    + rewrite length_app. simpl. lia.
    + apply (consistent_step fields fm cm (fieldOf i fd tags)); assumption.
Qed.

Lemma parseModel_inv (val : Entity) (m : Model) :
  parseModel val = OK m ->
  parseFields 0 (entFields val) [] ∅ ∅
  = OK (Fields m, FieldMap m, ColumnMap m).
Proof.
  unfold parseModel. intros H.
  destruct (entKind val); [|discriminate].
  destruct (parseFields 0 (entFields val) [] ∅ ∅) as [[[fs fm] cm]|e];
    simpl in H; [|discriminate].
  now injection H as <-.
Qed.



(** X3: on a registered model the lookup of a field name succeeds
    exactly for the declared names: it returns the column name of the
    field of that name, and fails with [ErrUnknownField] of the name when
    no field of the struct has it. *)
Theorem lookupField_knows_exactly_the_declared_fields :
  forall (val : Entity) (m : Model) (fd : string),
    parseModel val = OK m ->
    match lookupField m fd with
    | OK col =>
        exists i f sf, Fields m !! i = Some f /\ entFields val !! i = Some sf /\
                       sfName sf = fd /\ GoName f = fd /\ ColName f = col
    | Err e =>
        e = ErrUnknownField fd /\
        forall i sf, entFields val !! i = Some sf -> sfName sf <> fd
    end.
Proof.
  intros val m fd H. apply parseModel_inv in H.
  pose proof (parseFields_consistent _ _ _ _ _ _ _ _ eq_refl consistent_empty H)
    as [(Hf & Hfm & Hcm) Hlen].
  apply parseFields_fields in H as (fs' & Heq & Hfs). simpl in Heq. subst fs'.
  simpl in Hlen. unfold lookupField.
  destruct (FieldMap m !! fd) as [f|] eqn:Hl.
  - apply Hfm in Hl as [Hn Hi].
    assert (Hlt : Index f < List.length (entFields val)).
    { rewrite <- Hlen. now apply lookup_lt_Some in Hi. }
    apply lookup_lt_is_Some_2 in Hlt as [sf Hsf].
    destruct (Hfs _ _ Hsf) as (tags & _ & Hk). simpl in Hk.
    rewrite Hi in Hk. injection Hk as Hk.
    exists (Index f), f, sf. repeat split; try assumption.
    rewrite <- Hn, Hk. reflexivity.
  - split; [reflexivity|]. intros i sf Hsf Hn.
    destruct (Hfs _ _ Hsf) as (tags & _ & Hk). simpl in Hk.
    apply Hf in Hk as (_ & [x Hx] & _). simpl in Hx. rewrite Hn in Hx.
    rewrite Hl in Hx. discriminate.
Qed.

Lemma lookupField_knows_exactly_the_declared_fields_witness :
  match lookupField testModelMeta "Age" with
  | OK col =>
      exists i f sf,
        Fields testModelMeta !! i = Some f /\
        entFields testModel !! i = Some sf /\
        sfName sf = "Age" /\ GoName f = "Age" /\ ColName f = col
  | Err e =>
      e = ErrUnknownField "Age" /\
      forall i sf, entFields testModel !! i = Some sf -> sfName sf <> "Age"
  end.
Proof.
  apply (lookupField_knows_exactly_the_declared_fields testModel testModelMeta
           "Age").
  vm_compute. reflexivity.
Defined.

(** X4: a field whose tag is [column=c], for a name [c] that is not
    empty and holds neither a comma nor [=], registers under the column
    name [c], and the column map has an entry for [c]. *)
Theorem column_tag_names_the_column :
  forall (val : Entity) (m : Model) (i : nat) (sf : StructField) (c : string),
    parseModel val = OK m ->
    entFields val !! i = Some sf ->
    sfTag sf = "column=" +:+ c ->
    c <> "" -> countChar "," c = 0 -> countChar "=" c = 0 ->
    exists f : Field,
      Fields m !! i = Some f /\ GoName f = sfName sf /\ ColName f = c /\
      exists g : Field, ColumnMap m !! c = Some g /\ ColName g = c.
Proof.
  intros val m i sf c H Hsf Htag Hc Hcomma Heq. apply parseModel_inv in H.
  pose proof (parseFields_consistent _ _ _ _ _ _ _ _ eq_refl consistent_empty H)
    as [(Hf & _ & Hcm) _].
  apply parseFields_fields in H as (fs' & Hfs' & Hfs). simpl in Hfs'. subst fs'.
  destruct (Hfs _ _ Hsf) as (tags & Htags & Hk). simpl in Hk.
  rewrite Htag, (parseTag_column c Hc Hcomma Heq) in Htags.
  injection Htags as <-.
  assert (Hcol : columnOf (<[tagKeyColumn := c]> ∅) (sfName sf) = c).
  { unfold columnOf. rewrite lookup_insert_eq. simpl.
    destruct (String.eqb c "") eqn:E; [|reflexivity].
    apply String.eqb_eq in E. contradiction. }
  exists (fieldOf i sf (<[tagKeyColumn := c]> ∅)).
  split; [assumption|]. split; [reflexivity|]. split; [exact Hcol|].
  apply Hf in Hk as (_ & _ & [g Hg]). simpl in Hg. rewrite Hcol in Hg.
  exists g. split; [assumption|]. now apply Hcm in Hg.
Qed.

Lemma column_tag_names_the_column_witness :
  exists f : Field,
    Fields orderModelMeta !! 0 = Some f /\ GoName f = sfName orderIdField /\
    ColName f = "order_id" /\
    exists g : Field,
      ColumnMap orderModelMeta !! "order_id" = Some g /\
      ColName g = "order_id".
Proof.
  apply (column_tag_names_the_column orderModel orderModelMeta 0 orderIdField
           "order_id");
    first [discriminate | vm_compute; reflexivity].
Defined.



Lemma applyOpts_app (opts1 opts2 : list Option) (m : Model) :
  applyOpts (opts1 ++ opts2) m = (x <- applyOpts opts1 m ;; applyOpts opts2 x).
Proof.
  revert m. induction opts1 as [|o rest IH]; intros m; [reflexivity|].
  simpl. destruct (o m) as [m'|e]; simpl; [apply IH|reflexivity].
Qed.

(** X6: when [WithTableName] is the last option of a registration that
    succeeds, the registered model carries the given table name, and its
    fields and maps are those the registration without that option
    gives. *)
Theorem WithTableName_given_last_names_the_table :
  forall (reg reg' : registry) (val : Entity) (opts : list Option)
         (tableName : string) (m : Model),
    Register reg val (opts ++ [WithTableName tableName]) = OK (m, reg') ->
    TableName m = tableName /\
    exists m0 : Model,
      Register reg val opts
      = OK (m0, {| models := <[entName val := m0]> (models reg) |}) /\
      Fields m = Fields m0 /\ FieldMap m = FieldMap m0 /\
      ColumnMap m = ColumnMap m0.
Proof.
  intros reg reg' val opts tn m H. unfold Register in *.
  destruct (parseModel val) as [m0|e]; simpl in *; [|discriminate].
  rewrite applyOpts_app in H.
  destruct (applyOpts opts m0) as [m1|e]; simpl in *; [|discriminate].
  injection H as <- <-. split; [reflexivity|]. now exists m1.
Qed.

Lemma WithTableName_given_last_names_the_table_witness :
  TableName usersMeta = "users" /\
  exists m0 : Model,
    Register emptyRegistry testModel []
    = OK (m0, {| models := <[entName testModel := m0]>
                             (models emptyRegistry) |}) /\
    Fields usersMeta = Fields m0 /\ FieldMap usersMeta = FieldMap m0 /\
    ColumnMap usersMeta = ColumnMap m0.
Proof.
  apply (WithTableName_given_last_names_the_table emptyRegistry
           {| models := <[entName testModel := usersMeta]>
                          (models emptyRegistry) |}
           testModel [] "users" usersMeta).
  vm_compute. reflexivity.
Defined.
(** ** Snake case of ASCII names *)

Lemma lowerLetter_lower (c l : ascii) :
  lowerLetter c = Some l ->
  lowerLetter l = None /\ inRange 0 127 l = true.
Proof.
  destruct c as [[] [] [] [] [] [] [] []]; intros H; vm_compute in H;
    try discriminate H; injection H as <-; split; reflexivity.
Qed.

Lemma snakeChar_ascii (first : bool) (c : ascii) :
  inRange 0 127 c = true ->
  noUpper (snakeChar first c) = true /\ isASCII (snakeChar first c) = true.
Proof.
  intros Hc. unfold snakeChar.
  destruct (lowerLetter c) as [l|] eqn:Hl.
  - destruct (lowerLetter_lower c l Hl) as [Hn Ha].
    destruct first; cbn [noUpper isASCII]; rewrite ?Hn, ?Ha; split; reflexivity.
  - cbn [noUpper isASCII]. rewrite Hl, Hc. split; reflexivity.
Qed.

Lemma noUpper_app (s t : string) :
  noUpper (s +:+ t) = noUpper s && noUpper t.
Proof.
  induction s as [|c s IH]; [reflexivity|].
  rewrite append_cons. cbn [noUpper].
  destruct (lowerLetter c); [reflexivity|apply IH].
Qed.

Lemma isASCII_app (s t : string) :
  isASCII (s +:+ t) = isASCII s && isASCII t.
Proof.
  induction s as [|c s IH]; [reflexivity|].
  rewrite append_cons. cbn [isASCII]. now rewrite IH, andb_assoc.
Qed.

Lemma snakeRest_ascii (s : string) :
  isASCII s = true ->
  noUpper (snakeRest s) = true /\ isASCII (snakeRest s) = true.
Proof.
  induction s as [|c s IH]; intros H; [split; reflexivity|].
  cbn [isASCII] in H. apply andb_prop in H as [Hc Hs].
  cbn [snakeRest]. rewrite noUpper_app, isASCII_app.
  destruct (snakeChar_ascii false c Hc) as [-> ->].
  destruct (IH Hs) as [-> ->]. split; reflexivity.
Qed.

Lemma snakeCase_ascii (s : string) :
  isASCII s = true ->
  noUpper (snakeCase s) = true /\ isASCII (snakeCase s) = true.
Proof.
  destruct s as [|c s]; intros H; [split; reflexivity|].
  cbn [isASCII] in H. apply andb_prop in H as [Hc Hs].
  cbn [snakeCase]. rewrite noUpper_app, isASCII_app.
  destruct (snakeChar_ascii true c Hc) as [-> ->].
  destruct (snakeRest_ascii s Hs) as [-> ->]. split; reflexivity.
Qed.

Lemma snakeRest_fixed (s : string) : noUpper s = true -> snakeRest s = s.
Proof.
  induction s as [|c s IH]; intros H; [reflexivity|].
  cbn [noUpper] in H. cbn [snakeRest]. unfold snakeChar.
  destruct (lowerLetter c); [discriminate|].
  rewrite append_cons, append_nil_l. now rewrite IH.
Qed.

Lemma snakeCase_fixed (s : string) : noUpper s = true -> snakeCase s = s.
Proof.
  destruct s as [|c s]; intros H; [reflexivity|].
  cbn [noUpper] in H. cbn [snakeCase]. unfold snakeChar.
  destruct (lowerLetter c); [discriminate|].
  rewrite append_cons, append_nil_l. now rewrite snakeRest_fixed.
Qed.

(** X7: the snake case of an ASCII name holds none of the letters A to
    Z, is ASCII, and is left as it is by a second conversion. *)
Theorem underscoreName_of_an_ascii_name_is_stable :
  forall s : string,
    isASCII s = true ->
    noUpper (underscoreName s) = true /\
    isASCII (underscoreName s) = true /\
    underscoreName (underscoreName s) = underscoreName s.
Proof.
  intros s H. rewrite (underscoreName_snakeCase s H).
  destruct (snakeCase_ascii s H) as [Hn Ha].
  repeat split; try assumption.
  rewrite (underscoreName_snakeCase _ Ha). now apply snakeCase_fixed.
Qed.

Lemma underscoreName_of_an_ascii_name_is_stable_witness :
  noUpper (underscoreName "FirstName") = true /\
  isASCII (underscoreName "FirstName") = true /\
  underscoreName (underscoreName "FirstName") = underscoreName "FirstName".
Proof.
  apply (underscoreName_of_an_ascii_name_is_stable "FirstName").
  vm_compute. reflexivity.
Defined.

(** ** The compiler: what it appends *)

Lemma buildSubExpr_appends (e : Expression) :
  appends (buildExpression e) (boundArgs e) ->
  appends (buildSubExpr e) (boundArgs e).
Proof.
  intros He b b' H. destruct (asBinary e) as [m|] eqn:Hm.
  - rewrite (buildSubExpr_binary e m b Hm) in H.
    destruct (buildBinaryExpr m (WriteByte "(" b)) as [x|err] eqn:Hx;
      simpl in H; [|discriminate].
    injection H as <-.
    rewrite <- (buildExpression_binary e m _ Hm) in Hx.
    apply He in Hx as (t & ->).
    eexists. rewrite !WriteByte_emit, !emit_emit. simpl.
    rewrite app_nil_r. reflexivity.
  - rewrite (buildSubExpr_leaf e b Hm) in H. now apply He.
Qed.

Lemma compiler_appends :
  (forall e, appends (buildExpression e) (boundArgs e)) /\
  (forall m, appends (buildBinaryExpr m) (boundArgsBinary m)).
Proof.
  apply expression_mutind.
  - intros b b' H. injection H as <-. exists "". now rewrite emit_nil.
  - intros [t n a] b b' H. simpl in H.
    apply buildColumn_out in H as (x & _ & ->). eauto.
  - intros [fn arg t alias] b b' H. simpl in H.
    rewrite WriteByte_emit, WriteString_emit, emit_emit in H.
    destruct (buildColumn t arg (emit _ _ b)) as [x|err] eqn:Hx;
      simpl in H; [|discriminate].
    injection H as <-.
    apply buildColumn_out in Hx as (n & _ & ->).
    eexists. rewrite WriteByte_emit, !emit_emit. reflexivity.
  - intros v b b' H. injection H as <-. exists "?".
    rewrite addArgs_emit, WriteByte_emit. emit_eq.
  - intros x b b' H. injection H as <-. exists (raw x). apply buildRaw_emit.
  - intros m Hm. exact Hm.
  - intros m Hm. exact Hm.
  - intros [s pred] b b' H. simpl in H.
    rewrite WriteByte_emit, WriteString_emit, emit_emit in H.
    apply buildSubquery_out in H as (t & -> & _).
    eexists. rewrite emit_emit. reflexivity.
  - intros s b b' H. simpl in H.
    apply buildSubquery_out in H as (t & -> & _). now exists t.
  - intros m Hm. exact Hm.
  - intros b b' H. discriminate.
  - intros left_ Hl o right_ Hr b b' H.
    rewrite buildBinaryExpr_eq in H.
    destruct (buildSubExpr left_ b) as [x|err] eqn:Hx; simpl in H;
      [|discriminate].
    apply (buildSubExpr_appends left_ Hl) in Hx as (tl & ->).
    destruct (isNil right_) eqn:Hnil; simpl in H.
    + injection H as <-. destruct right_; try discriminate. simpl.
      rewrite app_nil_r.
      destruct (negb (String.eqb o ""));
        rewrite ?WriteByte_emit, ?WriteString_emit, ?emit_emit; simpl;
        rewrite ?app_nil_r; eauto.
    + apply (buildSubExpr_appends right_ Hr) in H as (tr & ->). simpl.
      destruct (negb (String.eqb o ""));
        rewrite ?WriteByte_emit, ?WriteString_emit, ?emit_emit; simpl;
        rewrite ?app_nil_r; eauto.
Qed.

(** X8: whatever the expression holds, a compilation that succeeds
    keeps the registry, the model, the dialect and the quote character of
    the builder, keeps the text written before as a prefix, and adds to
    the arguments exactly the values the expression binds, read off its
    leaves from left to right. *)
Theorem buildExpression_appends_its_bound_arguments :
  forall (e : Expression) (b b' : builder),
    buildExpression e b = OK b' ->
    r b' = r b /\ model b' = model b /\ dialect b' = dialect b /\
    quoter b' = quoter b /\
    (exists t : string, sb b' = sb b +:+ t) /\
    args b' = args b ++ boundArgs e.
Proof.
  intros e b b' H. apply (proj1 compiler_appends) in H as (t & ->).
  repeat split. now exists t.
Qed.

Lemma buildExpression_appends_its_bound_arguments_witness :
  let b' := emit "(`age` > ?) AND (`age` < ?)" [AInt 2; AInt 7] testBuilder in
  r b' = r testBuilder /\ model b' = model testBuilder /\
  dialect b' = dialect testBuilder /\ quoter b' = quoter testBuilder /\
  (exists t : string, sb b' = sb testBuilder +:+ t) /\
  args b' = args testBuilder ++ boundArgs (EPredicate (And ageAbove ageBelow)).
Proof.
  apply (buildExpression_appends_its_bound_arguments
           (EPredicate (And ageAbove ageBelow)) testBuilder).
  vm_compute. reflexivity.
Defined.

Lemma sameEnv_reset (b1 b2 : builder) : sameEnv b1 b2 -> reset b1 = reset b2.
Proof.
  intros (Hr & Hm & Hd & Hq). unfold reset. now rewrite Hr, Hm, Hd, Hq.
Qed.

(** X9: what an expression compiles to does not depend on what the
    builder holds already: on two builders with the same registry, model,
    dialect and quote character it appends the same text and the same
    arguments, or fails with the same error. *)
Theorem buildExpression_ignores_what_is_already_written :
  forall (e : Expression) (b1 b2 : builder),
    sameEnv b1 b2 ->
    match buildExpression e b1 with
    | OK b1' =>
        exists (t : string) (a : list any),
          b1' = emit t a b1 /\ buildExpression e b2 = OK (emit t a b2)
    | Err err => buildExpression e b2 = Err err
    end.
Proof.
  intros e b1 b2 Hs. destruct compiler_emitter as [He _].
  rewrite (He e b1), (He e b2), (sameEnv_reset b1 b2 Hs).
  destruct (buildExpression e (reset b2)) as [p|err]; [|reflexivity].
  now exists (sb p), (args p).
Qed.

Lemma buildExpression_ignores_what_is_already_written_witness :
  match buildExpression (EPredicate ageAbove) testBuilder with
  | OK b1' =>
      exists (t : string) (a : list any),
        b1' = emit t a testBuilder /\
        buildExpression (EPredicate ageAbove)
          (emit "SELECT * FROM t WHERE " [] testBuilder)
        = OK (emit t a (emit "SELECT * FROM t WHERE " [] testBuilder))
  | Err err =>
      buildExpression (EPredicate ageAbove)
        (emit "SELECT * FROM t WHERE " [] testBuilder) = Err err
  end.
Proof.
  apply (buildExpression_ignores_what_is_already_written
           (EPredicate ageAbove) testBuilder
           (emit "SELECT * FROM t WHERE " [] testBuilder)).
  repeat split.
Defined.

(** ** The compiler: errors *)

Lemma buildSubExpr_err (e : Expression) (b : builder) (err : error) :
  buildExpression e (reset b) = Err err -> buildSubExpr e b = Err err.
Proof.
  intros H. destruct compiler_emitter as [He Hb].
  destruct (asBinary e) as [m|] eqn:Hm.
  - rewrite (buildSubExpr_binary e m _ Hm), WriteByte_emit.
    rewrite (Hb m (emit "(" [] b)), reset_emit.
    rewrite <- (buildExpression_binary e m _ Hm), H. reflexivity.
  - rewrite (buildSubExpr_leaf e _ Hm), (He e b), H. reflexivity.
Qed.

(** X10: a binary expression fails with the error of its left operand
    whatever its right operand is, and with the error of its right
    operand when the left one compiles. *)
Theorem binary_expression_fails_with_its_first_failing_operand :
  forall (b : builder) (left_ right_ : Expression) (o : op) (err : error),
    (buildExpression left_ (reset b) = Err err ->
     buildBinaryExpr (mkBinary left_ o right_) b = Err err) /\
    (forall pl : builder,
       buildExpression left_ (reset b) = OK pl ->
       buildExpression right_ (reset b) = Err err ->
       buildBinaryExpr (mkBinary left_ o right_) b = Err err).
Proof.
  intros b left_ right_ o err. split.
  - intros H. rewrite buildBinaryExpr_eq, (buildSubExpr_err left_ b err H).
    reflexivity.
  - intros pl Hl Hr.
    rewrite buildBinaryExpr_eq, (buildSubExpr_out left_ b pl Hl). simpl.
    destruct (isNil right_) eqn:Hnil; simpl.
    + destruct right_; discriminate.
    + apply buildSubExpr_err.
      destruct (String.eqb o ""); simpl;
        rewrite ?WriteByte_emit, ?WriteString_emit, ?emit_emit, ?reset_emit;
        exact Hr.
Qed.

Lemma binary_expression_fails_with_its_first_failing_operand_witness :
  buildBinaryExpr (mkBinary (EColumn (C "Nope")) opEQ EOther) testBuilder
  = Err (ErrUnknownField "Nope") /\
  buildBinaryExpr (mkBinary (EColumn (C "Age")) opEQ EOther) testBuilder
  = Err ErrUnsupportedExpressionType.
Proof.
  split.
  - apply (proj1 (binary_expression_fails_with_its_first_failing_operand
                    testBuilder (EColumn (C "Nope")) EOther opEQ
                    (ErrUnknownField "Nope"))).
    vm_compute. reflexivity.
  - apply (proj2 (binary_expression_fails_with_its_first_failing_operand
                    testBuilder (EColumn (C "Age")) EOther opEQ
                    ErrUnsupportedExpressionType)
             (emit "`age`" [] (reset testBuilder)));
      vm_compute; reflexivity.
Defined.

(** ** The compiler: predicates *)

Lemma fold_left_And_snoc (rest : list Predicate) (p0 p : Predicate) :
  fold_left And (rest ++ [p]) p0 = And (fold_left And rest p0) p.
Proof. now rewrite fold_left_app. Qed.

(** X11: a list of predicates compiles as the conjunction nested to the
    left: with one predicate more, the text is the text of the list
    before and the text of the new predicate, each in parentheses,
    around AND, and the arguments are those of the list before followed
    by those of the new predicate. *)
Theorem buildPredicates_nests_to_the_left :
  forall (b : builder) (ps : list Predicate) (p : Predicate)
         (pl pp : builder),
    ps <> [] ->
    buildPredicates ps (reset b) = OK pl ->
    buildBinaryExpr p (reset b) = OK pp ->
    buildPredicates (ps ++ [p]) b
    = OK (emit ("(" +:+ sb pl +:+ ") AND (" +:+ sb pp +:+ ")")
            (args pl ++ args pp) b).
Proof.
  intros b [|p0 rest] p pl pp Hne Hl Hp; [contradiction|].
  simpl in *. rewrite fold_left_And_snoc. unfold And at 1.
  rewrite buildBinaryExpr_eq.
  rewrite (buildSubExpr_out (EPredicate (fold_left And rest p0)) b pl Hl).
  simpl. rewrite !WriteByte_emit, WriteString_emit, !emit_emit.
  rewrite (proj2 compiler_emitter p (emit _ _ b)), reset_emit, Hp.
  simpl. rewrite ?WriteByte_emit. f_equal. unfold opAND, parenthesized.
  simpl. emit_eq.
Qed.

Lemma buildPredicates_nests_to_the_left_witness :
  let pl := emit "`age` > ?" [AInt 2] (reset testBuilder) in
  let pp := emit "`age` < ?" [AInt 7] (reset testBuilder) in
  buildPredicates ([ageAbove] ++ [ageBelow]) testBuilder
  = OK (emit ("(" +:+ sb pl +:+ ") AND (" +:+ sb pp +:+ ")")
          (args pl ++ args pp) testBuilder).
Proof.
  apply (buildPredicates_nests_to_the_left testBuilder [ageAbove] ageBelow);
    first [discriminate | vm_compute; reflexivity].
Defined.

Lemma boundArgs_fold_And (rest : list Predicate) :
  forall p0 : Predicate,
    boundArgsBinary (fold_left And rest p0)
    = boundArgsBinary p0 ++ List.concat (map boundArgsBinary rest).
Proof.
  induction rest as [|p rest IH]; intros p0; simpl.
  - now rewrite app_nil_r.
  - rewrite IH. simpl. now rewrite <- app_assoc.
Qed.

(** X12: a list of predicates that compiles is not empty, and the
    arguments it adds are those of its predicates, one predicate after
    the other in the order of the list. *)
Theorem buildPredicates_binds_the_predicates_in_order :
  forall (ps : list Predicate) (b b' : builder),
    buildPredicates ps b = OK b' ->
    ps <> [] /\
    exists t : string,
      b' = emit t (List.concat (map boundArgsBinary ps)) b.
Proof.
  intros [|p0 rest] b b' H; [discriminate|]. split; [discriminate|].
  simpl in H. apply (proj2 compiler_appends) in H as (t & ->).
  exists t. now rewrite boundArgs_fold_And.
Qed.

Lemma buildPredicates_binds_the_predicates_in_order_witness :
  [ageAbove; ageBelow] <> [] /\
  exists t : string,
    emit "(`age` > ?) AND (`age` < ?)" [AInt 2; AInt 7] testBuilder
    = emit t (List.concat (map boundArgsBinary [ageAbove; ageBelow]))
        testBuilder.
Proof.
  apply (buildPredicates_binds_the_predicates_in_order [ageAbove; ageBelow]
           testBuilder).
  vm_compute. reflexivity.
Defined.

(** ** Comparisons of a column *)

Lemma buildColumn_nil (b : builder) (m : Model) (fd col : string) :
  model b = Some m -> lookupField m fd = OK col ->
  buildColumn TRNil fd b = OK (emit (quoted (quoter b) col) [] b).
Proof.
  intros Hm Hl. unfold buildColumn, colName. simpl. rewrite Hm. simpl.
  rewrite Hl. simpl. now rewrite quote_emit.
Qed.

(** X13: a comparison of a column of the model with a plain value
    compiles to the quoted column name, the operator and one
    placeholder, and binds the value as one argument; [In] binds the
    whole list of values as a single argument. *)
Theorem comparison_binds_its_operand_as_one_argument :
  forall (b : builder) (m : Model) (fd col : string) (v : any)
         (vals : list any),
    model b = Some m ->
    lookupField m fd = OK col ->
    buildExpression (EPredicate (EQ (C fd) (DVal v))) b
    = OK (emit (quoted (quoter b) col +:+ " = ?") [v] b) /\
    buildExpression (EPredicate (LT (C fd) (DVal v))) b
    = OK (emit (quoted (quoter b) col +:+ " < ?") [v] b) /\
    buildExpression (EPredicate (GT (C fd) (DVal v))) b
    = OK (emit (quoted (quoter b) col +:+ " > ?") [v] b) /\
    buildExpression (EPredicate (In (C fd) vals)) b
    = OK (emit (quoted (quoter b) col +:+ " IN ?") [ASlice vals] b).
Proof.
  intros b m fd col v vals Hm Hl.
  repeat split; simpl; rewrite (buildColumn_nil b m fd col Hm Hl); simpl;
    rewrite ?WriteByte_emit, ?WriteString_emit, ?addArgs_emit; f_equal;
    unfold opEQ, opLT, opGT, opIN; emit_eq.
Qed.

Lemma comparison_binds_its_operand_as_one_argument_witness :
  buildExpression (EPredicate (EQ (C "Age") (DVal (AInt 2)))) testBuilder
  = OK (emit (quoted (quoter testBuilder) "age" +:+ " = ?") [AInt 2]
          testBuilder) /\
  buildExpression (EPredicate (LT (C "Age") (DVal (AInt 2)))) testBuilder
  = OK (emit (quoted (quoter testBuilder) "age" +:+ " < ?") [AInt 2]
          testBuilder) /\
  buildExpression (EPredicate (GT (C "Age") (DVal (AInt 2)))) testBuilder
  = OK (emit (quoted (quoter testBuilder) "age" +:+ " > ?") [AInt 2]
          testBuilder) /\
  buildExpression (EPredicate (In (C "Age") [AInt 1; AInt 2])) testBuilder
  = OK (emit (quoted (quoter testBuilder) "age" +:+ " IN ?")
          [ASlice [AInt 1; AInt 2]] testBuilder).
Proof.
  apply (comparison_binds_its_operand_as_one_argument testBuilder
           testModelMeta "Age" "age" (AInt 2) [AInt 1; AInt 2]);
    vm_compute; reflexivity.
Defined.

(** X14: a binary expression whose left operand is a column the model
    of the statement does not have fails with [ErrUnknownField] of the
    field name, whatever the operator and the right operand. *)
Theorem comparison_on_an_unknown_field_fails :
  forall (b : builder) (m : Model) (fd : string) (o : op) (right_ : Expression),
    model b = Some m ->
    FieldMap m !! fd = None ->
    buildExpression (EPredicate (mkBinary (EColumn (C fd)) o right_)) b
    = Err (ErrUnknownField fd).
Proof.
  intros b m fd o right_ Hm Hl. simpl.
  unfold buildColumn, colName. simpl. rewrite Hm. simpl.
  unfold lookupField. rewrite Hl. reflexivity.
Qed.

Lemma comparison_on_an_unknown_field_fails_witness :
  buildExpression
    (EPredicate (mkBinary (EColumn (C "Nope")) opEQ (EValue (valueOf (AInt 1)))))
    testBuilder
  = Err (ErrUnknownField "Nope").
Proof.
  apply (comparison_on_an_unknown_field_fails testBuilder testModelMeta);
    vm_compute; reflexivity.
Defined.

(** X15: the negation of a predicate compiles to a space, NOT and the
    predicate in parentheses, with the arguments of the predicate. *)
Theorem Not_compiles_to_a_parenthesized_operand :
  forall (b pp : builder) (p : Predicate),
    buildBinaryExpr p (reset b) = OK pp ->
    buildExpression (EPredicate (Not p)) b
    = OK (emit (" NOT (" +:+ sb pp +:+ ")") (args pp) b).
Proof.
  intros b pp p Hp. simpl.
  rewrite !WriteByte_emit, WriteString_emit, !emit_emit.
  rewrite (proj2 compiler_emitter p (emit _ _ b)), reset_emit, Hp. simpl.
  rewrite WriteByte_emit. f_equal. unfold opNOT. emit_eq.
Qed.

Lemma Not_compiles_to_a_parenthesized_operand_witness :
  let pp := emit "`age` > ?" [AInt 2] (reset testBuilder) in
  buildExpression (EPredicate (Not ageAbove)) testBuilder
  = OK (emit (" NOT (" +:+ sb pp +:+ ")") (args pp) testBuilder).
Proof.
  apply (Not_compiles_to_a_parenthesized_operand testBuilder).
  vm_compute. reflexivity.
Defined.

(** X16: a raw expression used as the only predicate is copied as it is
    given, text and arguments, with nothing written around it. *)
Theorem raw_predicate_is_copied_as_given :
  forall (b : builder) (x : RawExpr),
    buildPredicates [AsPredicate x] b = OK (emit (raw x) (r_args x) b).
Proof.
  intros b x. simpl. now rewrite buildRaw_emit.
Qed.

(** ** Comma-separated lists *)

Lemma Join_cons (p : string) (rest : list string) (sep : string) :
  Join_ (p :: rest) sep
  = p +:+ (if (List.length rest =? 0)%nat then "" else sep +:+ Join_ rest sep).
Proof. destruct rest; simpl; [now rewrite append_nil_r|reflexivity]. Qed.

Lemma rangeComma_out {A : Type} (body : A -> builder -> result builder)
    (t : A -> string) (a : A -> list any) (xs : list A) :
  forall (i : nat) (b : builder),
    (forall x b0, List.In x xs -> r b0 = r b -> model b0 = model b ->
                  quoter b0 = quoter b ->
                  body x b0 = OK (emit (t x) (a x) b0)) ->
    rangeComma body i xs b
    = OK (emit (commaBefore i xs +:+ Join_ (map t xs) ",")
            (List.concat (map a xs)) b).
Proof.
  induction xs as [|x rest IH]; intros i b Hbody.
  - simpl. unfold commaBefore. rewrite andb_false_r. simpl.
    now rewrite emit_nil.
  - cbn [rangeComma]. rewrite WriteByte_emit.
    assert (Hpre : (if (0 <? i)%nat then emit "," [] b else b)
                   = emit (commaBefore i (x :: rest)) [] b).
    { unfold commaBefore. simpl. rewrite andb_true_r.
      destruct (0 <? i)%nat; [reflexivity|now rewrite emit_nil]. }
    rewrite Hpre, Hbody; [|now left|reflexivity|reflexivity|reflexivity].
    cbn [rbind]. rewrite IH.
    + f_equal. rewrite !emit_emit.
      change (map t (x :: rest)) with (t x :: map t rest).
      change (map a (x :: rest)) with (a x :: map a rest).
      rewrite Join_cons. unfold commaBefore at 2. rewrite length_map.
      cbn [List.concat Nat.ltb Nat.leb andb].
      destruct rest; simpl; emit_eq.
    + intros y b0 Hy Hr Hm Hq. apply Hbody; [now right|assumption..].
Qed.

(** ** INSERT *)

Lemma rowValues_inv (field : string -> result any) (fields : list Field) :
  forall vs : list any,
    rowValues field fields = OK vs ->
    (forall fd, List.In fd fields -> exists v, field (GoName fd) = OK v) /\
    List.concat (map (fun fd => match field (GoName fd) with
                                | OK v => [v]
                                | Err _ => []
                                end) fields) = vs.
Proof.
  induction fields as [|fd rest IH]; intros vs H; simpl in H.
  - injection H as <-. split; [intros fd []|reflexivity].
  - destruct (field (GoName fd)) as [v|e] eqn:Hv; simpl in H; [|discriminate].
    destruct (rowValues field rest) as [vs'|e] eqn:Hr; simpl in H;
      [|discriminate].
    injection H as <-. destruct (IH vs' eq_refl) as [Hall Hc]. split.
    + intros x [<-|Hx]; [eauto|now apply Hall].
    + simpl. now rewrite Hv, Hc.
Qed.

Lemma insertRow_out (field : string -> result any) (fields : list Field)
    (vs : list any) (b : builder) :
  rowValues field fields = OK vs ->
  insertRow field fields b
  = OK (emit (Join_ (map (fun _ : Field => "?") fields) ",") vs b).
Proof.
  intros H. apply rowValues_inv in H as [Hall Hc]. unfold insertRow.
  rewrite (rangeComma_out _ (fun _ => "?")
             (fun fd => match field (GoName fd) with
                        | OK v => [v]
                        | Err _ => []
                        end)).
  - now rewrite Hc.
  - intros fd b0 Hfd _ _ _. destruct (Hall fd Hfd) as [v Hv].
    rewrite Hv. simpl. rewrite addArgs_emit, WriteByte_emit. f_equal. emit_eq.
Qed.

Lemma insertRows_out (m : Model) (fields : list Field)
    (values : list (Model -> string -> result any))
    (rowsVals : list (list any)) (b : builder) :
  Forall2 (fun v vs => rowValues (v m) fields = OK vs) values rowsVals ->
  insertRows m fields values b
  = OK (emit (Join_ (map (fun _ => rowText fields) values) ",")
          (List.concat rowsVals) b).
Proof.
  intros H. unfold insertRows.
  rewrite (rangeComma_out _ (fun _ => rowText fields)
             (fun v => match rowValues (v m) fields with
                       | OK vs => vs
                       | Err _ => []
                       end)).
  - f_equal. f_equal. induction H as [|v vs values rowsVals Hv _ IH];
      [reflexivity|]. simpl. now rewrite Hv, IH.
  - intros v b0 Hv _ _ _.
    assert (Hvs : exists vs, rowValues (v m) fields = OK vs).
    { clear -H Hv. induction H as [|v' vs values rowsVals Hv' _ IH];
        [destruct Hv|]. destruct Hv as [<-|Hv]; eauto. }
    destruct Hvs as [vs Hvs]. rewrite Hvs.
    rewrite WriteByte_emit, (insertRow_out _ _ vs _ Hvs). simpl.
    rewrite WriteByte_emit. f_equal. unfold rowText. emit_eq.
Qed.

(** X17: an INSERT without upsert whose rows can all be read writes
    the quoted column names of the inserted fields, then one
    parenthesized row of placeholders per value, the rows separated by
    commas, and binds the values row after row, each row in the order of
    the fields; the arguments the builder held before are dropped. *)
Theorem InserterBuild_writes_one_row_of_placeholders_per_value :
  forall (i : Inserter) (m : Model) (fields : list Field)
         (rowsVals : list (list any)),
    getModel (r (i_builder i)) (i_T i) = OK m ->
    insertedFields m (i_columns i) = OK fields ->
    i_values i <> [] ->
    i_upsert i = None ->
    Forall2 (fun v vs => rowValues (v m) fields = OK vs) (i_values i) rowsVals ->
    InserterBuild i
    = OK {| SQL := sb (i_builder i) +:+ "INSERT INTO "
                   +:+ quoted (quoter (i_builder i)) (TableName m) +:+ "("
                   +:+ Join_ (map (fun fd => quoted (quoter (i_builder i))
                                               (ColName fd)) fields) ","
                   +:+ ") VALUES"
                   +:+ Join_ (map (fun _ => rowText fields) (i_values i)) ","
                   +:+ ";";
            Args := List.concat rowsVals |}.
Proof.
  intros i m fields rowsVals Hm Hf Hne Hup Hrows. unfold InserterBuild.
  destruct (i_values i) as [|v0 values] eqn:Hv; [contradiction|].
  cbn [List.length Nat.eqb]. rewrite Hm. cbn [rbind].
  unfold insertedFields in Hf. rewrite Hf. cbn [rbind].
  unfold insertColumnNames.
  rewrite (rangeComma_out _
             (fun fd => quoted (quoter (i_builder i)) (ColName fd))
             (fun _ => [])).
  - cbn [rbind]. rewrite WriteString_emit.
    rewrite (insertRows_out m fields (v0 :: values) rowsVals _ Hrows).
    cbn [rbind]. rewrite Hup. rewrite WriteString_emit.
    rewrite !quote_emit, !WriteString_emit. simpl. f_equal. f_equal.
    + norm_text. reflexivity.
    + clear. induction fields; simpl; [reflexivity|assumption].
  - intros fd b0 _ _ _ Hq. rewrite quote_emit, Hq. reflexivity.
Qed.

Lemma InserterBuild_writes_one_row_of_placeholders_per_value_witness :
  InserterBuild insertExample
  = OK {| SQL := sb (i_builder insertExample) +:+ "INSERT INTO "
                 +:+ quoted (quoter (i_builder insertExample))
                       (TableName testModelMeta) +:+ "("
                 +:+ Join_ (map (fun fd => quoted
                                             (quoter (i_builder insertExample))
                                             (ColName fd))
                              [fieldOf 0 {| sfName := "Id"; sfTag := "";
                                            sfType := "int64"; sfOffset := 0 |} ∅;
                               fieldOf 2 {| sfName := "Age"; sfTag := "";
                                            sfType := "int8"; sfOffset := 24 |} ∅])
                      ","
                 +:+ ") VALUES"
                 +:+ Join_ (map (fun _ => rowText
                              [fieldOf 0 {| sfName := "Id"; sfTag := "";
                                            sfType := "int64"; sfOffset := 0 |} ∅;
                               fieldOf 2 {| sfName := "Age"; sfTag := "";
                                            sfType := "int8"; sfOffset := 24 |} ∅])
                              (i_values insertExample)) ","
                 +:+ ";";
          Args := List.concat [[AStr "Id"; AStr "Age"]; [AStr "Id"; AStr "Age"]] |}.
Proof.
  apply (InserterBuild_writes_one_row_of_placeholders_per_value insertExample
           testModelMeta).
  - vm_compute. reflexivity.
  - vm_compute. reflexivity.
  - discriminate.
  - reflexivity.
  - repeat constructor.
Defined.

(** X18: an INSERT over given columns fails with [ErrUnknownField] of
    the first column that is not a field of the model, whatever follows
    it. *)
Theorem InserterBuild_rejects_the_first_unknown_column :
  forall (i : Inserter) (m : Model) (known rest : list string) (c : string),
    getModel (r (i_builder i)) (i_T i) = OK m ->
    i_values i <> [] ->
    i_columns i = known ++ c :: rest ->
    Forall (fun k => is_Some (FieldMap m !! k)) known ->
    FieldMap m !! c = None ->
    InserterBuild i = Err (ErrUnknownField c).
Proof.
  intros i m known rest c Hm Hne Hcols Hknown Hc. unfold InserterBuild.
  destruct (i_values i) as [|v0 values]; [contradiction|].
  cbn [List.length Nat.eqb]. rewrite Hm. cbn [rbind]. rewrite Hcols.
  assert (Hlen : negb (List.length (known ++ c :: rest) =? 0)%nat = true).
  { rewrite length_app. simpl. apply negb_true_iff, Nat.eqb_neq. lia. }
  rewrite Hlen.
  assert (Hins : forall acc, insertFields m (known ++ c :: rest) acc
                             = Err (ErrUnknownField c)).
  { clear -Hknown Hc. induction Hknown as [|k known [f Hk] _ IH]; intros acc.
    - simpl. now rewrite Hc.
    - simpl. rewrite Hk. apply IH. }
  now rewrite Hins.
Qed.

Lemma InserterBuild_rejects_the_first_unknown_column_witness :
  InserterBuild badInsertExample = Err (ErrUnknownField "Nope").
Proof.
  apply (InserterBuild_rejects_the_first_unknown_column badInsertExample
           testModelMeta ["Id"] ["Age"] "Nope").
  - vm_compute. reflexivity.
  - discriminate.
  - reflexivity.
  - constructor; [|constructor]. vm_compute. eexists. reflexivity.
  - vm_compute. reflexivity.
Defined.

(** ** SELECT: pagination *)

Lemma dropLast_snoc (s : string) (c : ascii) :
  dropLast (s +:+ String c "") = s.
Proof.
  induction s as [|x s IH]; [reflexivity|].
  rewrite append_cons. simpl. rewrite IH.
  destruct s; reflexivity.
Qed.

(** X19: a SELECT with a limit or an offset is the SELECT without
    them, with [LIMIT ?] and then [OFFSET ?] written before the closing
    semicolon, each only when its number is positive, and with the limit
    and then the offset as the last arguments. *)
Theorem Selector_pagination_comes_last :
  forall (s : Selector) (q0 : Query),
    SelectorBuild (SelectorOffset (SelectorLimit s 0) 0) = OK q0 ->
    SelectorBuild s
    = OK {| SQL := dropLast (SQL q0)
                   +:+ (if (0 <? s_limit s)%Z then " LIMIT ?" else "")
                   +:+ (if (0 <? s_offset s)%Z then " OFFSET ?" else "")
                   +:+ ";";
            Args := Args q0
                    ++ (if (0 <? s_limit s)%Z then [AInt (s_limit s)] else [])
                    ++ (if (0 <? s_offset s)%Z then [AInt (s_offset s)]
                        else []) |}.
Proof.
  intros s q0 H. unfold SelectorBuild in *. simpl in H.
  destruct (getModel (r (s_builder s)) (s_T s)) as [m|e]; simpl in *;
    [|discriminate].
  destruct (buildColumns (s_columns s) _) as [b1|e]; simpl in *;
    [|discriminate].
  destruct (buildTable (s_table s) _) as [b2|e]; simpl in *; [|discriminate].
  destruct (if (0 <? List.length (s_where s))%nat then _ else _) as [b3|e];
    simpl in *; [|discriminate].
  destruct (if (0 <? List.length (s_groupBy s))%nat then _ else _) as [b4|e];
    simpl in *; [|discriminate].
  destruct (if (0 <? List.length (s_having s))%nat then _ else _) as [b5|e];
    simpl in *; [|discriminate].
  injection H as <-. simpl.
  change (sb b5 +:+ ";") with (sb b5 +:+ String ";" "").
  rewrite dropLast_snoc.
  destruct (0 <? s_limit s)%Z, (0 <? s_offset s)%Z; simpl;
    f_equal; norm_text; reflexivity.
Qed.

Lemma Selector_pagination_comes_last_witness :
  SelectorBuild pagedExample
  = OK {| SQL := dropLast "SELECT * FROM `test_model` WHERE `age` > ?;"
                 +:+ (if (0 <? s_limit pagedExample)%Z then " LIMIT ?" else "")
                 +:+ (if (0 <? s_offset pagedExample)%Z then " OFFSET ?"
                      else "")
                 +:+ ";";
          Args := [AInt 2]
                  ++ (if (0 <? s_limit pagedExample)%Z
                      then [AInt (s_limit pagedExample)] else [])
                  ++ (if (0 <? s_offset pagedExample)%Z
                      then [AInt (s_offset pagedExample)] else []) |}.
Proof.
  apply (Selector_pagination_comes_last pagedExample
           {| SQL := "SELECT * FROM `test_model` WHERE `age` > ?;";
              Args := [AInt 2] |}).
  vm_compute. reflexivity.
Defined.

(** ** Fetching rows *)

Lemma getMultiRows_all {T Row W : Type} (entT : Entity) (c : core T Row W)
    (meta : Model) (reg' : registry) (rs : list Row) :
  Get (c_r c) entT = OK (meta, reg') ->
  (forall row, List.In row rs -> snd (valCreator c meta row) = None) ->
  forall results : list T,
    getMultiRows entT c rs results
    = inr (results ++ map (fun row => fst (valCreator c meta row)) rs).
Proof.
  intros Hget. induction rs as [|row rest IH]; intros Hall results.
  - simpl. now rewrite app_nil_r.
  - cbn [getMultiRows]. rewrite Hget.
    pose proof (Hall row (or_introl eq_refl)) as Hrow.
    destruct (valCreator c meta row) as [tp err] eqn:Hv. simpl in Hrow.
    subst err. rewrite IH by (intros x Hx; apply Hall; now right).
    cbn [map]. rewrite Hv. simpl. now rewrite <- app_assoc.
Qed.

Lemma getMultiRows_first_failure {T Row W : Type} (entT : Entity)
    (c : core T Row W) (meta : Model) (reg' : registry)
    (good rest : list Row) (bad : Row) (err : error) :
  Get (c_r c) entT = OK (meta, reg') ->
  (forall row, List.In row good -> snd (valCreator c meta row) = None) ->
  snd (valCreator c meta bad) = Some err ->
  forall results : list T,
    getMultiRows entT c (good ++ bad :: rest) results = inl err.
Proof.
  intros Hget Hall Hbad. induction good as [|row good IH]; intros results.
  - cbn [app getMultiRows]. rewrite Hget.
    destruct (valCreator c meta bad) as [tp e]. simpl in Hbad. now subst e.
  - cbn [app getMultiRows]. rewrite Hget.
    pose proof (Hall row (or_introl eq_refl)) as Hrow.
    destruct (valCreator c meta row) as [tp e]. simpl in Hrow. subst e.
    apply IH. intros x Hx. apply Hall. now right.
Qed.

(** X20: when the statement builds, the query runs, the model of the
    record type resolves, every row can be read and the cursor reports no
    error, a fetch-many returns one record per row, in the order of the
    rows. *)
Theorem getMultiHandler_returns_every_row_in_order :
  forall (T Row W : Type) (entT : Entity) (sess : session Row)
         (c : core T Row W) (qc : QueryContext) (q : Query) (rs : Rows Row)
         (meta : Model) (reg' : registry),
    Build (Builder qc) = OK q ->
    queryContext sess (SQL q) (Args q) = OK rs ->
    Get (c_r c) entT = OK (meta, reg') ->
    (forall row, List.In row (rows rs) ->
                 snd (valCreator c meta row) = None) ->
    rowsErr rs = None ->
    getMultiHandler entT sess c qc
    = {| qr_Result :=
           PMany (map (fun row => fst (valCreator c meta row)) (rows rs));
         qr_Err := None |}.
Proof.
  intros T Row W entT sess c qc q rs meta reg' Hq Hrs Hget Hall Herr.
  unfold getMultiHandler. rewrite Hq, Hrs.
  rewrite (getMultiRows_all entT c meta reg' (rows rs) Hget Hall).
  now rewrite Herr.
Qed.

Lemma getMultiHandler_returns_every_row_in_order_witness :
  getMultiHandler testModel (sessionOf twoRows) (plainCore unit []) rawContext
  = {| qr_Result :=
         PMany (map (fun row =>
                       fst (valCreator (plainCore unit []) testModelMeta row))
                  (rows twoRows));
       qr_Err := None |}.
Proof.
  apply (getMultiHandler_returns_every_row_in_order any (list any) unit
           testModel (sessionOf twoRows) (plainCore unit []) rawContext
           {| SQL := "SELECT * FROM `test_model`;"; Args := [] |} twoRows
           testModelMeta testRegistry).
  - reflexivity.
  - reflexivity.
  - vm_compute. reflexivity.
  - intros row [<-|[<-|[]]]; reflexivity.
  - reflexivity.
Defined.

(** X21: a fetch-many fails with the error of the first row that cannot
    be read, whatever the rows after it are and whatever the cursor
    reports; the records read before are not returned. *)
Theorem getMultiHandler_fails_with_the_first_row_that_fails :
  forall (T Row W : Type) (entT : Entity) (sess : session Row)
         (c : core T Row W) (qc : QueryContext) (q : Query) (rs : Rows Row)
         (meta : Model) (reg' : registry) (good rest : list Row) (bad : Row)
         (err : error),
    Build (Builder qc) = OK q ->
    queryContext sess (SQL q) (Args q) = OK rs ->
    Get (c_r c) entT = OK (meta, reg') ->
    rows rs = good ++ bad :: rest ->
    (forall row, List.In row good -> snd (valCreator c meta row) = None) ->
    snd (valCreator c meta bad) = Some err ->
    getMultiHandler entT sess c qc = failed err.
Proof.
  intros T Row W entT sess c qc q rs meta reg' good rest bad err
    Hq Hrs Hget Hrows Hall Hbad.
  unfold getMultiHandler. rewrite Hq, Hrs, Hrows.
  now rewrite (getMultiRows_first_failure entT c meta reg' good rest bad err
                 Hget Hall Hbad).
Qed.

Lemma getMultiHandler_fails_with_the_first_row_that_fails_witness :
  getMultiHandler testModel (sessionOf brokenRows) (plainCore unit [])
    rawContext
  = failed (ErrDriver "sql: expected 1 destination arguments").
Proof.
  apply (getMultiHandler_fails_with_the_first_row_that_fails any (list any)
           unit testModel (sessionOf brokenRows) (plainCore unit [])
           rawContext
           {| SQL := "SELECT * FROM `test_model`;"; Args := [] |} brokenRows
           testModelMeta testRegistry [[AInt 1]] [[AInt 3]] []).
  - reflexivity.
  - reflexivity.
  - vm_compute. reflexivity.
  - reflexivity.
  - intros row [<-|[]]. reflexivity.
  - reflexivity.
Defined.

(** X22: a fetch-one over a cursor with at least one row reads the
    first row only: it returns the record that row was read into,
    together with the error of reading it, whatever the other rows are
    and whatever the cursor would report. *)
Theorem getHandler_reads_the_first_row_only :
  forall (T Row W : Type) (entT : Entity) (sess : session Row)
         (c : core T Row W) (qc : QueryContext) (q : Query) (rs : Rows Row)
         (meta : Model) (reg' : registry) (row : Row) (rest : list Row),
    Build (Builder qc) = OK q ->
    queryContext sess (SQL q) (Args q) = OK rs ->
    Get (c_r c) entT = OK (meta, reg') ->
    rows rs = row :: rest ->
    getHandler entT sess c qc
    = {| qr_Result := POne (fst (valCreator c meta row));
         qr_Err := snd (valCreator c meta row) |}.
Proof.
  intros T Row W entT sess c qc q rs meta reg' row rest Hq Hrs Hget Hrows.
  unfold getHandler. rewrite Hq, Hrs, Hrows, Hget.
  now destruct (valCreator c meta row).
Qed.

Lemma getHandler_reads_the_first_row_only_witness :
  getHandler testModel (sessionOf brokenRows) (plainCore unit []) rawContext
  = {| qr_Result :=
         POne (fst (valCreator (plainCore unit []) testModelMeta [AInt 1]));
       qr_Err := snd (valCreator (plainCore unit []) testModelMeta [AInt 1]) |}.
Proof.
  apply (getHandler_reads_the_first_row_only any (list any) unit testModel
           (sessionOf brokenRows) (plainCore unit []) rawContext
           {| SQL := "SELECT * FROM `test_model`;"; Args := [] |} brokenRows
           testModelMeta testRegistry [AInt 1] [[]; [AInt 3]]).
  - reflexivity.
  - reflexivity.
  - vm_compute. reflexivity.
  - reflexivity.
Defined.

(** ** Exec and its result *)

(** X23: under middleware that only observes, a statement that does
    not build makes [exec] return a result that carries the build error:
    [Err], [LastInsertId] and [RowsAffected] all report it. *)
Theorem exec_under_observers_reports_the_build_error :
  forall (T Row W : Type) (sess : session Row) (c : core T Row W)
         (qc : QueryContext) (w : W) (obs : list ((W -> W) * (W -> W)))
         (err : error),
    ms c = map (fun p => around (fst p) (snd p)) obs ->
    Build (Builder qc) = Err err ->
    exists (res : Result) (w' : W),
      exec sess c qc w = (OK res, w') /\
      ResultErr res = Some err /\
      LastInsertId res = Err err /\
      RowsAffected res = Err err.
Proof.
  intros T Row W sess c qc w obs err Hms Hb.
  rewrite exec_chain, Hms, chain_around. cbn [fst snd].
  unfold execHandler. rewrite Hb. cbn.
  eexists. eexists. split; [reflexivity|]. repeat split.
Qed.

Lemma exec_under_observers_reports_the_build_error_witness :
  exists (res : Result) (w' : list string),
    exec (sessionOf twoRows) observedCore failingContext [] = (OK res, w') /\
    ResultErr res = Some ErrInsertZeroRow /\
    LastInsertId res = Err ErrInsertZeroRow /\
    RowsAffected res = Err ErrInsertZeroRow.
Proof.
  apply (exec_under_observers_reports_the_build_error any (list any)
           (list string) (sessionOf twoRows) observedCore failingContext []
           [logging "A"]);
    reflexivity.
Defined.

(** X24: under middleware that only observes, a statement that builds
    makes [exec] return a result whose accessors report what the driver
    returned: its error when there is one, else the numbers of its
    result; with neither an error nor a result the accessors panic. *)
Theorem exec_under_observers_returns_what_the_driver_returns :
  forall (T Row W : Type) (sess : session Row) (c : core T Row W)
         (qc : QueryContext) (w : W) (obs : list ((W -> W) * (W -> W)))
         (q : Query),
    ms c = map (fun p => around (fst p) (snd p)) obs ->
    Build (Builder qc) = OK q ->
    exists (res : Result) (w' : W),
      exec sess c qc w = (OK res, w') /\
      match execContext sess (SQL q) (Args q) with
      | (_, Some err) =>
          LastInsertId res = Err err /\ RowsAffected res = Err err
      | (Some x, None) =>
          LastInsertId res = OK (lastInsertId x) /\
          RowsAffected res = OK (rowsAffected x)
      | (None, None) =>
          LastInsertId res = Err (Panic "nil pointer dereference") /\
          RowsAffected res = Err (Panic "nil pointer dereference")
      end.
Proof.
  intros T Row W sess c qc w obs q Hms Hb.
  rewrite exec_chain, Hms, chain_around. cbn [fst snd].
  unfold execHandler. rewrite Hb.
  destruct (execContext sess (SQL q) (Args q)) as [[x|] [err|]]; cbn;
    eexists; eexists; (split; [reflexivity|]); split; reflexivity.
Qed.

Lemma exec_under_observers_returns_what_the_driver_returns_witness :
  exists (res : Result) (w' : list string),
    exec (sessionOf twoRows) observedCore rawContext [] = (OK res, w') /\
    match execContext (sessionOf twoRows) "SELECT * FROM `test_model`;" [] with
    | (_, Some err) =>
        LastInsertId res = Err err /\ RowsAffected res = Err err
    | (Some x, None) =>
        LastInsertId res = OK (lastInsertId x) /\
        RowsAffected res = OK (rowsAffected x)
    | (None, None) =>
        LastInsertId res = Err (Panic "nil pointer dereference") /\
        RowsAffected res = Err (Panic "nil pointer dereference")
    end.
Proof.
  apply (exec_under_observers_returns_what_the_driver_returns any (list any)
           (list string) (sessionOf twoRows) observedCore rawContext []
           [logging "A"]
           {| SQL := "SELECT * FROM `test_model`;"; Args := [] |});
    reflexivity.
Defined.

(** ** Transactions *)

(** X25: [DoTx] commits exactly when the transaction began and the
    callback returned no error, rolls back exactly when the transaction
    began and the callback returned an error or panicked, and runs the
    callback exactly when the transaction began; it never does both. *)
Theorem DoTx_commits_or_rolls_back_never_both :
  forall (begin : option error) (fn : fnEnd) (rollback commit : option error),
    let calls := fst (DoTx begin fn rollback commit) in
    (List.In CallCommit calls <-> begin = None /\ fn = FnReturns None) /\
    (List.In CallRollback calls <-> begin = None /\ fn <> FnReturns None) /\
    (List.In CallFn calls <-> begin = None).
Proof.
  intros [e|] [[e'|]|msg] rollback commit; cbn; intuition congruence.
Qed.

(** X26: [DoTx] returns no error exactly when the transaction began,
    the callback returned no error and the commit succeeded; it panics
    exactly when the callback does, after the rollback; it returns the
    rollback failure exactly when the callback returned an error and the
    rollback failed, the flag saying that nothing panicked. *)
Theorem DoTx_ends_well_only_after_a_commit :
  forall (begin : option error) (fn : fnEnd) (rollback commit : option error),
    let out := snd (DoTx begin fn rollback commit) in
    (out = TxReturns None <->
     begin = None /\ fn = FnReturns None /\ commit = None) /\
    (forall msg, out = TxPanics msg <-> begin = None /\ fn = FnPanics msg) /\
    (forall biz rb panicked,
       out = TxReturns (Some (TxFailToRollback biz rb panicked)) <->
       begin = None /\ fn = FnReturns biz /\ biz <> None /\
       rollback = Some rb /\ panicked = false).
Proof.
  intros [e|] [[e'|]|msg] [rb0|] [cm|]; cbn; intuition congruence.
Qed.

(** ** DELETE without predicates *)

(** X27: a DELETE without predicates names the type of the record,
    quoted and as it is declared, or the table set by [From], as it is
    given and without quotes, and has no WHERE clause and no argument. *)
Theorem DeleterBuild_names_the_table_as_given :
  forall (T tbl : string),
    DeleterBuild (NewDeleter T)
    = OK {| SQL := "DELETE FROM `" +:+ T +:+ "`;"; Args := [] |} /\
    (tbl <> "" ->
     DeleterBuild (DeleterFrom (NewDeleter T) tbl)
     = OK {| SQL := "DELETE FROM " +:+ tbl +:+ ";"; Args := [] |}).
Proof.
  intros T tbl. split.
  - rewrite DeleterBuild_out. unfold deleterTarget, whereArgs. simpl.
    f_equal; f_equal; norm_text; reflexivity.
  - intros Hne. rewrite DeleterBuild_out. unfold deleterTarget, whereArgs.
    simpl. destruct (String.eqb tbl "") eqn:E.
    + apply String.eqb_eq in E. contradiction.
    + f_equal; f_equal; norm_text; reflexivity.
Qed.

Lemma DeleterBuild_names_the_table_as_given_witness :
  DeleterBuild (NewDeleter "TestModel")
  = OK {| SQL := "DELETE FROM `" +:+ "TestModel" +:+ "`;"; Args := [] |} /\
  DeleterBuild (DeleterFrom (NewDeleter "TestModel") "users")
  = OK {| SQL := "DELETE FROM " +:+ "users" +:+ ";"; Args := [] |}.
Proof.
  split.
  - apply (proj1 (DeleterBuild_names_the_table_as_given "TestModel" "users")).
  - apply (proj2 (DeleterBuild_names_the_table_as_given "TestModel" "users")).
    discriminate.
Defined.

(** X28: a DELETE with one predicate writes it after WHERE without
    parentheses and without AND, and binds its values; it fails when the
    predicate holds something the DELETE builder does not support. *)
Theorem DeleterBuild_with_one_predicate :
  forall (d : Deleter) (p : Predicate),
    d_where d = [p] ->
    DeleterBuild d
    = if deleterSupported (EPredicate p)
      then OK {| SQL := d_sb d +:+ "DELETE FROM " +:+ deleterTarget d
                        +:+ " WHERE " +:+ deleterText (EPredicate p) +:+ ";";
                 Args := d_args d ++ deleterArgs (EPredicate p) |}
      else Err ErrDeleterUnsupported.
Proof.
  intros d p Hw. rewrite DeleterBuild_out, Hw.
  unfold whereSupported, whereTexts, whereArgs. cbn [forallb map List.concat].
  rewrite andb_true_r, app_nil_r.
  destruct (deleterSupported (EPredicate p)); reflexivity.
Qed.

Lemma DeleterBuild_with_one_predicate_witness :
  let d := DeleterWhere (NewDeleter "TestModel") [ageAbove] in
  DeleterBuild d
  = if deleterSupported (EPredicate ageAbove)
    then OK {| SQL := d_sb d +:+ "DELETE FROM " +:+ deleterTarget d
                      +:+ " WHERE " +:+ deleterText (EPredicate ageAbove)
                      +:+ ";";
               Args := d_args d ++ deleterArgs (EPredicate ageAbove) |}
    else Err ErrDeleterUnsupported.
Proof.
  apply (DeleterBuild_with_one_predicate
           (DeleterWhere (NewDeleter "TestModel") [ageAbove]) ageAbove).
  reflexivity.
Defined.
